(** * Planning graph (my_planning_graph.py): a shallow embedding

    The Python module builds a leveled planning graph out of mutable node
    objects that are shared between sets.  The embedding keeps that shape:
    node objects live in a store and are named by their index; a Python
    [set] of nodes is the list of the references it holds, in insertion
    order, with membership, insertion, inclusion and equality decided by
    the nodes' [__eq__] (that is, by content), as Python does through
    [__hash__]/[__eq__].  The order in which Python iterates over a set is
    left open: every loop over a set goes through [enum], an arbitrary
    permutation.  The two heuristics of my_air_cargo_problems.py that
    only need the graph and the state decoder are embedded as well. *)

From Stdlib Require Import List Bool Arith Lia Permutation ZArith.
From Stdlib Require String.
Import ListNotations.

Import String.StringSyntax.
Local Open Scope string_scope.
Local Open Scope list_scope.

(** ** Exceptions and results *)

Inductive exn : Type :=
| TypeError
| ValueError
| IndexError
| Exception_.

Inductive result (A : Type) : Type :=
| Ok (a : A)
| Raise (e : exn).

Arguments Ok {A} a.
Arguments Raise {A} e.

Definition bind {A B} (r : result A) (f : A -> result B) : result B :=
  match r with
  | Ok a => f a
  | Raise e => Raise e
  end.

Notation "x <- c1 ;; c2" := (bind c1 (fun x => c2))
  (at level 100, c1 at next level, right associativity).

(** A [for] loop whose body may raise. *)
Fixpoint for_each {A S} (body : S -> A -> result S) (l : list A) (s : S)
  : result S :=
  match l with
  | [] => Ok s
  | x :: rest => s' <- body s x ;; for_each body rest s'
  end.

(** ** Expressions, actions, problems *)

(** Modelled from the spec: aimacode's [Expr] is not part of the sources.
    A fluent is an atomic ground literal compared structurally; the only
    operator the graph code inspects is the negation ["~"], whose single
    argument is [args[0]]. *)
Inductive Expr : Type :=
| Atom (s : String.string)
| Not (e : Expr).

Fixpoint expr_eqb (a b : Expr) : bool :=
  match a, b with
  | Atom s, Atom t => String.eqb s t
  | Not x, Not y => expr_eqb x y
  | _, _ => false
  end.

(** [e.op == "~"] *)
Definition op_is_not (e : Expr) : bool :=
  match e with
  | Not _ => true
  | Atom _ => false
  end.

(** Modelled from the spec: aimacode's [Action]: a name, an argument tuple,
    positive and negative preconditions, add and delete effects. *)
Record Action : Type := mkAction {
  name : String.string;
  args : list Expr;
  precond_pos : list Expr;
  precond_neg : list Expr;
  effect_add : list Expr;
  effect_rem : list Expr
}.

(** Modelled from the spec: lp_utils' [FluentState]. *)
Record FluentState : Type := mkFluentState {
  pos : list Expr;
  neg : list Expr
}.

(** Modelled from the spec: the planning problem supplies the fluent order
    ([state_map]), the ground actions and the goal. *)
Record Problem : Type := mkProblem {
  state_map : list Expr;
  actions_list : list Action;
  goal : list Expr
}.

(** Modelled from the spec: lp_utils' [decode_state] is not part of the
    sources.  [decode(stateKey, fluentOrder)] splits the fluents of the
    fixed order into those the boolean vector marks true and those it
    marks false.  The two are read side by side, so a vector and an order
    of different lengths are cut to the shorter of the two. *)
Fixpoint decode_state (state : list bool) (fluent_map : list Expr)
  : FluentState :=
  match state, fluent_map with
  | b :: state', f :: fluent_map' =>
      let fs := decode_state state' fluent_map' in
      if b then mkFluentState (f :: pos fs) (neg fs)
      else mkFluentState (pos fs) (f :: neg fs)
  | _, _ => mkFluentState [] []
  end.

(** ** Node objects and the store *)

Definition sref := nat.
Definition aref := nat.

(** [PgNode_s]: [parents], [children], [mutex] come from [PgNode]. *)
Record PgNode_s : Type := mkPgNode_s {
  symbol : Expr;
  is_pos : bool;
  s_parents : list aref;
  s_children : list aref;
  s_mutex : list sref
}.

(** [PgNode_a].  [a_parents] is assigned the very set object [prenodes]
    on admission; neither is mutated afterwards, so the model keeps two
    equal fields. *)
Record PgNode_a : Type := mkPgNode_a {
  action : Action;
  prenodes : list sref;
  effnodes : list sref;
  is_persistent : bool;
  a_parents : list sref;
  a_children : list sref;
  a_mutex : list aref
}.

Record Heap : Type := mkHeap {
  snodes : list PgNode_s;
  anodes : list PgNode_a
}.

Definition empty_heap : Heap := mkHeap [] [].

Definition null_s : PgNode_s := mkPgNode_s (Atom String.EmptyString) true [] [] [].
Definition null_a : PgNode_a :=
  mkPgNode_a (mkAction String.EmptyString [] [] [] [] []) [] [] false [] [] [].

Definition get_s (h : Heap) (i : sref) : PgNode_s := nth i (snodes h) null_s.
Definition get_a (h : Heap) (i : aref) : PgNode_a := nth i (anodes h) null_a.

(** In-place mutation of the object at index [i]. *)
Fixpoint upd {A} (i : nat) (f : A -> A) (l : list A) : list A :=
  match l, i with
  | [], _ => []
  | x :: l', O => f x :: l'
  | x :: l', S i' => x :: upd i' f l'
  end.

Definition mut_s (h : Heap) (i : sref) (f : PgNode_s -> PgNode_s) : Heap :=
  mkHeap (upd i f (snodes h)) (anodes h).
Definition mut_a (h : Heap) (i : aref) (f : PgNode_a -> PgNode_a) : Heap :=
  mkHeap (snodes h) (upd i f (anodes h)).

(** [PgNode_s.__eq__]: symbol and polarity. *)
Definition PgNode_s_eq (n m : PgNode_s) : bool :=
  expr_eqb (symbol n) (symbol m) && Bool.eqb (is_pos n) (is_pos m).

Fixpoint args_eqb (l1 l2 : list Expr) : bool :=
  match l1, l2 with
  | [], [] => true
  | x :: l1', y :: l2' => expr_eqb x y && args_eqb l1' l2'
  | _, _ => false
  end.

(** [PgNode_a.__eq__]: action name and argument tuple. *)
Definition PgNode_a_eq (n m : PgNode_a) : bool :=
  String.eqb (name (action n)) (name (action m))
  && args_eqb (args (action n)) (args (action m)).

(** [self.literal] *)
Definition literal (n : PgNode_s) : Expr :=
  if is_pos n then symbol n else Not (symbol n).

(** *** Python sets of node references *)

(** [x in set] *)
Definition s_in (h : Heap) (x : sref) (set : list sref) : bool :=
  existsb (fun y => PgNode_s_eq (get_s h y) (get_s h x)) set.
Definition a_in (h : Heap) (x : aref) (set : list aref) : bool :=
  existsb (fun y => PgNode_a_eq (get_a h y) (get_a h x)) set.

(** [set.add(x)]: an equal element already present is kept. *)
Definition s_add (h : Heap) (x : sref) (set : list sref) : list sref :=
  if s_in h x set then set else set ++ [x].
Definition a_add (h : Heap) (x : aref) (set : list aref) : list aref :=
  if a_in h x set then set else set ++ [x].

(** [a <= b] *)
Definition s_subset (h : Heap) (a b : list sref) : bool :=
  forallb (fun x => s_in h x b) a.

(** [a == b] *)
Definition s_set_eq (h : Heap) (a b : list sref) : bool :=
  s_subset h a b && s_subset h b a.

(** [a - b] *)
Definition s_diff (h : Heap) (a b : list sref) : list sref :=
  filter (fun x => negb (s_in h x b)) a.

(** The order in which a set is iterated: some permutation of its
    elements. *)
Record set_order : Type := mkOrder {
  enum : list nat -> list nat;
  enum_perm : forall l, Permutation (enum l) l
}.

Definition insertion_order : set_order :=
  mkOrder (fun l => l) (fun l => Permutation_refl l).

Definition reverse_order : set_order :=
  mkOrder (@rev nat) (fun l => Permutation_sym (Permutation_rev l)).

(** *** Constructors *)

(** [PgNode_s(symbol, is_pos)]: a fresh object. *)
Definition new_PgNode_s (h : Heap) (sym : Expr) (p : bool) : sref * Heap :=
  (length (snodes h),
   mkHeap (snodes h ++ [mkPgNode_s sym p [] [] []]) (anodes h)).

(** The loop [for p in exprs: n = PgNode_s(p, is_pos); nodes.add(n)]. *)
Fixpoint add_s_nodes (exprs : list Expr) (p : bool)
  (st : list sref * Heap) : list sref * Heap :=
  match exprs with
  | [] => st
  | e :: rest =>
      let '(n, h1) := new_PgNode_s (snd st) e p in
      add_s_nodes rest p (s_add h1 n (fst st), h1)
  end.

Definition precond_s_nodes (h : Heap) (act : Action) : list sref * Heap :=
  add_s_nodes (precond_neg act) false
    (add_s_nodes (precond_pos act) true ([], h)).

Definition effect_s_nodes (h : Heap) (act : Action) : list sref * Heap :=
  add_s_nodes (effect_rem act) false
    (add_s_nodes (effect_add act) true ([], h)).

(** [PgNode_a(action)] *)
Definition new_PgNode_a (h : Heap) (act : Action) : aref * Heap :=
  let '(pre, h1) := precond_s_nodes h act in
  let '(eff, h2) := effect_s_nodes h1 act in
  let persistent := s_set_eq h2 pre eff in
  (length (anodes h2),
   mkHeap (snodes h2)
     (anodes h2 ++ [mkPgNode_a act pre eff persistent [] [] []])).

(** ** Mutex bookkeeping *)

Inductive node : Type :=
| SNode (r : sref)
| ANode (r : aref).

Definition same_kind (n1 n2 : node) : bool :=
  match n1, n2 with
  | SNode _, SNode _ => true
  | ANode _, ANode _ => true
  | _, _ => false
  end.

Definition add_s_mutex (x : sref) (h : Heap) (n : PgNode_s) : PgNode_s :=
  mkPgNode_s (symbol n) (is_pos n) (s_parents n) (s_children n)
    (s_add h x (s_mutex n)).

Definition add_a_mutex (x : aref) (h : Heap) (n : PgNode_a) : PgNode_a :=
  mkPgNode_a (action n) (prenodes n) (effnodes n) (is_persistent n)
    (a_parents n) (a_children n) (a_add h x (a_mutex n)).

Definition mutexify (node1 node2 : node) (h : Heap) : result Heap :=
  match node1, node2 with
  | SNode a, SNode b =>
      let h1 := mut_s h a (add_s_mutex b h) in
      Ok (mut_s h1 b (add_s_mutex a h1))
  | ANode a, ANode b =>
      let h1 := mut_a h a (add_a_mutex b h) in
      Ok (mut_a h1 b (add_a_mutex a h1))
  | _, _ => Raise TypeError
  end.

(** [self.is_mutex(other)]: [other in self.mutex]; nodes of different
    classes never compare equal. *)
Definition is_mutex (h : Heap) (self other : node) : bool :=
  match self, other with
  | SNode a, SNode b => s_in h b (s_mutex (get_s h a))
  | ANode a, ANode b => a_in h b (a_mutex (get_a h a))
  | _, _ => false
  end.

(** [is_mutex_relation(node1, node2)]: [node1 in node2.mutex], then
    [node2 in node1.mutex]. *)
Definition is_mutex_relation (h : Heap) (node1 node2 : node) : result bool :=
  if is_mutex h node2 node1 then Ok true
  else if is_mutex h node1 node2 then Raise ValueError
  else Ok false.

(** [get_expressions(action, 'effect')] and [get_expressions(action, 'cond')] *)
Definition get_expressions_effect (act : Action) : list Expr :=
  effect_add act ++ map Not (effect_rem act).
Definition get_expressions_cond (act : Action) : list Expr :=
  precond_pos act ++ map Not (precond_neg act).

(** ** The planning graph *)

Record PlanningGraph : Type := mkPG {
  problem : Problem;
  fs : FluentState;
  serial : bool;
  all_actions : list Action;
  s_levels : list (list sref);
  a_levels : list (list aref);
  heap : Heap
}.

Definition with_heap (pg : PlanningGraph) (h : Heap) : PlanningGraph :=
  mkPG (problem pg) (fs pg) (serial pg) (all_actions pg)
    (s_levels pg) (a_levels pg) h.

Definition noop_actions (literal_list : list Expr) : list Action :=
  flat_map (fun fluent =>
    [ mkAction "Noop_pos" [fluent] [fluent] [] [fluent] [];
      mkAction "Noop_neg" [fluent] [] [fluent] [] [fluent] ]) literal_list.

(** [l[i]] for an index that is not negative. *)
Definition py_index {A} (l : list A) (i : nat) : result A :=
  match nth_error l i with
  | Some x => Ok x
  | None => Raise IndexError
  end.

(** [l[level - 1]]: index [-1] is the last element. *)
Definition py_index_pred {A} (l : list A) (level : nat) : result A :=
  match level with
  | O => py_index l (length l - 1)
  | S i => py_index l i
  end.

(** The pairs visited by
    [for i, n1 in enumerate(nodelist[:-1]): for n2 in nodelist[i + 1:]]. *)
Fixpoint enumerate_from {A} (i : nat) (l : list A) : list (nat * A) :=
  match l with
  | [] => []
  | x :: rest => (i, x) :: enumerate_from (S i) rest
  end.

Definition sibling_pairs {A} (nodelist : list A) : list (A * A) :=
  flat_map (fun '(i, n1) => map (pair n1) (skipn (i + 1) nodelist))
    (enumerate_from 0 (removelast nodelist)).

(** One literal is the negation of the other, as the two [if]s of
    [inconsistent_effects_mutex] and [interference_mutex] test it. *)
Definition negates (e e2 : Expr) : bool :=
  match e, e2 with
  | Not x, Atom _ => expr_eqb x e2
  | Atom _, Not y => expr_eqb e y
  | _, _ => false
  end.

Definition add_a_child (x : sref) (h : Heap) (n : PgNode_a) : PgNode_a :=
  mkPgNode_a (action n) (prenodes n) (effnodes n) (is_persistent n)
    (a_parents n) (s_add h x (a_children n)) (a_mutex n).

Definition add_s_parent (x : aref) (h : Heap) (n : PgNode_s) : PgNode_s :=
  mkPgNode_s (symbol n) (is_pos n) (a_add h x (s_parents n)) (s_children n)
    (s_mutex n).

Definition set_a_parents (ps : list sref) (n : PgNode_a) : PgNode_a :=
  mkPgNode_a (action n) (prenodes n) (effnodes n) (is_persistent n)
    ps (a_children n) (a_mutex n).

Section Graph.

Variable o : set_order.

(** *** Action layers *)

(** The body of the loop of [add_action_level]. *)
Definition admit_action (slevels : list (list sref)) (level : nat)
  (st : Heap * list aref) (act : Action) : result (Heap * list aref) :=
  let '(new_action_node, h1) := new_PgNode_a (fst st) act in
  slevel <- py_index slevels level ;;
  if s_subset h1 (prenodes (get_a h1 new_action_node)) slevel then
    let h2 := mut_a h1 new_action_node
                (set_a_parents (prenodes (get_a h1 new_action_node))) in
    Ok (h2, a_add h2 new_action_node (snd st))
  else Ok (h1, snd st).

(** [level] is a natural number here, so the guard [level < 0] of the
    source cannot fire. *)
Definition add_action_level (pg : PlanningGraph) (level : nat)
  : result PlanningGraph :=
  st <- for_each (admit_action (s_levels pg) level) (all_actions pg)
          (heap pg, []) ;;
  Ok (mkPG (problem pg) (fs pg) (serial pg) (all_actions pg)
        (s_levels pg) (a_levels pg ++ [snd st]) (fst st)).

(** *** Fact layers *)

Definition connect_effects (st : Heap * list sref) (action_node : aref)
  : Heap * list sref :=
  fold_left (fun st' effect_node =>
      (mut_a (fst st') action_node (add_a_child effect_node (fst st')),
       s_add (fst st') effect_node (snd st')))
    (enum o (effnodes (get_a (fst st) action_node))) st.

Definition connect_parents (alevel : list aref) (h : Heap) (nd : sref)
  : Heap :=
  fold_left (fun h' action_node =>
      if s_in h' nd (effnodes (get_a h' action_node))
      then mut_s h' nd (add_s_parent action_node h')
      else h')
    (enum o alevel) h.

Definition add_literal_level (pg : PlanningGraph) (level : nat)
  : result PlanningGraph :=
  alevel <- py_index_pred (a_levels pg) level ;;
  let st := fold_left connect_effects (enum o alevel) (heap pg, []) in
  let new_literals := snd st in
  let h := fold_left (connect_parents alevel) (enum o new_literals) (fst st) in
  Ok (mkPG (problem pg) (fs pg) (serial pg) (all_actions pg)
        (s_levels pg ++ [new_literals]) (a_levels pg) h).

(** *** Action mutexes *)

Definition serialize_actions (ser : bool) (h : Heap) (node_a1 node_a2 : aref)
  : bool :=
  if negb ser then false
  else if is_persistent (get_a h node_a1) || is_persistent (get_a h node_a2)
       then false
       else true.

(** [get_expressions(node.action) + [child.literal for child in node.children]] *)
Definition effects_of (h : Heap) (n : aref) : list Expr :=
  get_expressions_effect (action (get_a h n))
  ++ map (fun c => literal (get_s h c)) (enum o (a_children (get_a h n))).

(** [get_expressions(node.action, 'cond') + [parent.literal for parent in node.parents]] *)
Definition preconds_of (h : Heap) (n : aref) : list Expr :=
  get_expressions_cond (action (get_a h n))
  ++ map (fun p => literal (get_s h p)) (enum o (a_parents (get_a h n))).

Definition inconsistent_effects_mutex (h : Heap) (node_a1 node_a2 : aref)
  : bool :=
  existsb (fun effect => existsb (negates effect) (effects_of h node_a2))
    (effects_of h node_a1).

Definition interference_mutex (h : Heap) (node_a1 node_a2 : aref) : bool :=
  existsb (fun precond => existsb (negates precond) (effects_of h node_a2))
    (preconds_of h node_a1)
  || existsb (fun precond => existsb (negates precond) (effects_of h node_a1))
       (preconds_of h node_a2).

Definition competing_needs_mutex (h : Heap) (node_a1 node_a2 : aref) : bool :=
  existsb (fun precond =>
      existsb (fun precond2 => is_mutex h (SNode precond) (SNode precond2))
        (enum o (a_parents (get_a h node_a2))))
    (enum o (a_parents (get_a h node_a1))).

Definition a_mutex_test (ser : bool) (h : Heap) (n1 n2 : aref) : bool :=
  serialize_actions ser h n1 n2
  || inconsistent_effects_mutex h n1 n2
  || interference_mutex h n1 n2
  || competing_needs_mutex h n1 n2.

Definition update_a_mutex (ser : bool) (nodeset : list aref) (h : Heap)
  : result Heap :=
  for_each (fun h' '(n1, n2) =>
      if a_mutex_test ser h' n1 n2
      then mutexify (ANode n1) (ANode n2) h'
      else Ok h')
    (sibling_pairs (enum o nodeset)) h.

(** *** Fact mutexes *)

Definition negation_mutex (h : Heap) (node_s1 node_s2 : sref) : bool :=
  let opposite_boolean :=
    (is_pos (get_s h node_s1) && negb (is_pos (get_s h node_s2)))
    || (negb (is_pos (get_s h node_s1)) && is_pos (get_s h node_s2)) in
  expr_eqb (symbol (get_s h node_s1)) (symbol (get_s h node_s2))
  && opposite_boolean.

Definition inconsistent_support_mutex (h : Heap) (node_s1 node_s2 : sref)
  : bool :=
  let indicator :=
    forallb (fun parent =>
        forallb (fun parent2 => is_mutex h (ANode parent) (ANode parent2))
          (enum o (s_parents (get_s h node_s2))))
      (enum o (s_parents (get_s h node_s1))) in
  is_mutex h (SNode node_s1) (SNode node_s2) || indicator.

Definition s_mutex_test (h : Heap) (n1 n2 : sref) : bool :=
  negation_mutex h n1 n2 || inconsistent_support_mutex h n1 n2.

Definition update_s_mutex (nodeset : list sref) (h : Heap) : result Heap :=
  for_each (fun h' '(n1, n2) =>
      if s_mutex_test h' n1 n2
      then mutexify (SNode n1) (SNode n2) h'
      else Ok h')
    (sibling_pairs (enum o nodeset)) h.

(** *** Construction *)

(** One pass of the body of [while not leveled]; the boolean is the test
    [self.s_levels[level] == self.s_levels[level - 1]] taken after
    [level += 1]. *)
Definition grow (pg : PlanningGraph) (level : nat)
  : result (PlanningGraph * bool) :=
  pg1 <- add_action_level pg level ;;
  alevel <- py_index (a_levels pg1) level ;;
  h2 <- update_a_mutex (serial pg1) alevel (heap pg1) ;;
  let level' := level + 1 in
  pg3 <- add_literal_level (with_heap pg1 h2) level' ;;
  slevel <- py_index (s_levels pg3) level' ;;
  h4 <- update_s_mutex slevel (heap pg3) ;;
  prev <- py_index_pred (s_levels pg3) level' ;;
  Ok (with_heap pg3 h4, s_set_eq h4 slevel prev).

(** The [while] loop; [None] when the fuel runs out. *)
Fixpoint create_loop (fuel : nat) (pg : PlanningGraph) (level : nat)
  : option (result PlanningGraph) :=
  match fuel with
  | O => None
  | S fuel' =>
      match grow pg level with
      | Raise e => Some (Raise e)
      | Ok (pg', leveled) =>
          if leveled then Some (Ok pg')
          else create_loop fuel' pg' (level + 1)
      end
  end.

Definition create_graph (fuel : nat) (pg : PlanningGraph)
  : option (result PlanningGraph) :=
  if negb (length (s_levels pg) =? 0) || negb (length (a_levels pg) =? 0)
  then Some (Raise Exception_)
  else
    let st := add_s_nodes (neg (fs pg)) false
                (add_s_nodes (pos (fs pg)) true ([], heap pg)) in
    create_loop fuel
      (mkPG (problem pg) (fs pg) (serial pg) (all_actions pg)
         [fst st] (a_levels pg) (snd st)) 0.

(** [PlanningGraph(problem, state, serial_planning)] *)
Definition PlanningGraph_init (fuel : nat) (pb : Problem)
  (state : list bool) (serial_planning : bool)
  : option (result PlanningGraph) :=
  create_graph fuel
    (mkPG pb (decode_state state (state_map pb)) serial_planning
       (actions_list pb ++ noop_actions (state_map pb)) [] [] empty_heap).

(** *** Level sum *)

(** [goal_levels[goal] = index] and [goal_levels[goal]] on a dictionary
    keyed by fact nodes. *)
Fixpoint dict_set (h : Heap) (k : sref) (v : nat) (d : list (sref * nat))
  : list (sref * nat) :=
  match d with
  | [] => [(k, v)]
  | (k', v') :: d' =>
      if PgNode_s_eq (get_s h k') (get_s h k) then (k', v) :: d'
      else (k', v') :: dict_set h k v d'
  end.

Fixpoint dict_get (h : Heap) (k : sref) (d : list (sref * nat)) : nat :=
  match d with
  | [] => 0
  | (k', v') :: d' =>
      if PgNode_s_eq (get_s h k') (get_s h k) then v' else dict_get h k d'
  end.

Definition find_goals (h : Heap) (index : nat) (level : list sref)
  (unfound_goals : list sref) (goal_levels : list (sref * nat))
  : list (sref * nat) * list sref :=
  fold_left (fun st g =>
      if s_in h g level
      then (dict_set h g index (fst st), s_add h g (snd st))
      else st)
    (enum o unfound_goals) (goal_levels, []).

Fixpoint scan_levels (h : Heap) (index : nat) (levels : list (list sref))
  (unfound_goals : list sref) (goal_levels : list (sref * nat))
  : list (sref * nat) :=
  match levels with
  | [] => goal_levels
  | level :: rest =>
      let st := find_goals h index level unfound_goals goal_levels in
      match s_diff h unfound_goals (snd st) with
      | [] => fst st
      | unfound' => scan_levels h (S index) rest unfound' (fst st)
      end
  end.

Definition h_levelsum (pg : PlanningGraph) : result nat :=
  let st := add_s_nodes (goal (problem pg)) true ([], heap pg) in
  let goal_levels := scan_levels (snd st) 0 (s_levels pg) (fst st) [] in
  Ok (fold_left (fun level_sum g => level_sum + dict_get (snd st) g goal_levels)
        (map fst goal_levels) 0).

End Graph.

(** ** Two heuristics of the problem class (my_air_cargo_problems.py) *)

(** [AirCargoProblem.h_pg_levelsum(node)]:
    [PlanningGraph(self, node.state).h_levelsum()], a serial graph. *)
Definition h_pg_levelsum (o : set_order) (fuel : nat) (pb : Problem)
  (state : list bool) : option (result nat) :=
  match PlanningGraph_init o fuel pb state true with
  | Some (Ok pg) => Some (h_levelsum o pg)
  | Some (Raise e) => Some (Raise e)
  | None => None
  end.

(** [set(l)] for a list of expressions, in insertion order. *)
Definition expr_set (l : list Expr) : list Expr :=
  fold_left (fun s e => if existsb (expr_eqb e) s then s else s ++ [e]) l [].

(** [set.intersection(a, b)] *)
Definition expr_inter (a b : list Expr) : list Expr :=
  filter (fun e => existsb (expr_eqb e) b) a.

(** [AirCargoProblem.h_ignore_preconditions(node)]; the difference of two
    Python integers. *)
Definition h_ignore_preconditions (pb : Problem) (state : list bool) : Z :=
  let current_state := decode_state state (state_map pb) in
  let total_goals := length (goal pb) in
  (Z.of_nat total_goals
   - Z.of_nat (length (expr_inter (expr_set (goal pb))
                         (expr_set (pos current_state)))))%Z.

(** ** A running example: have cake / eat cake *)

Definition Have : Expr := Atom "Have(Cake)".
Definition Eaten : Expr := Atom "Eaten(Cake)".

Definition Eat : Action := mkAction "Eat" [Atom "Cake"] [Have] [] [Eaten] [Have].
Definition Bake : Action := mkAction "Bake" [Atom "Cake"] [] [Have] [Have] [].

Definition cake : Problem := mkProblem [Have; Eaten] [Eat; Bake] [Have; Eaten].

Definition unwrap (r : option (result PlanningGraph)) : PlanningGraph :=
  match r with
  | Some (Ok pg) => pg
  | _ => mkPG (mkProblem [] [] []) (mkFluentState [] []) true [] [] [] empty_heap
  end.

Definition cake_graph : PlanningGraph :=
  Eval vm_compute in
    unwrap (PlanningGraph_init insertion_order 10 cake [true; false] true).

(** Further inputs used below: two parentless facts; a lamp that can
    only be switched off; a catalog in which two actions share name and
    arguments; the cake problem with a goal no action produces. *)

Definition two_facts : Heap :=
  mkHeap [mkPgNode_s (Atom "P") true [] [] [];
          mkPgNode_s (Atom "Q") true [] [] []] [].

Definition On : Expr := Atom "On(Lamp)".
Definition SwitchOff : Action :=
  mkAction "SwitchOff" [Atom "Lamp"] [On] [] [] [On].
Definition lamp : Problem := mkProblem [On] [SwitchOff] [].

Definition twin : Problem :=
  mkProblem []
    [mkAction "K" [] [Atom "X"] [] [Atom "A"] [];
     mkAction "K" [] [] [] [Atom "X"] []] [].

Definition cake_gone : Problem :=
  mkProblem [Have; Eaten] [Eat; Bake] [Eaten; Atom "Gone(Cake)"].

(** Two actions with the same name and arguments and no precondition,
    one adding X, the other adding Y. *)
Definition K_X : Action := mkAction "K" [] [] [] [Atom "X"] [].
Definition K_Y : Action := mkAction "K" [] [] [] [Atom "Y"] [].
Definition homonyms : Problem :=
  mkProblem [Atom "X"; Atom "Y"] [K_X; K_Y] [Atom "Y"].

Definition homonyms_graph : PlanningGraph :=
  Eval vm_compute in
    unwrap (PlanningGraph_init insertion_order 10 homonyms [false; false] true).

(** * Vocabulary of the statements and of the invariants *)

(** ** Content of nodes and of sets *)

(** A polarized literal: fluent and polarity, the identity of a fact
    node.  An action node is identified by name and arguments. *)
Definition lit : Type := Expr * bool.

Definition s_key (n : PgNode_s) : lit := (symbol n, is_pos n).
Definition a_key (n : PgNode_a) : String.string * list Expr :=
  (name (action n), args (action n)).

Definition skey (h : Heap) (i : sref) : lit := s_key (get_s h i).
Definition akey (h : Heap) (i : aref) : String.string * list Expr :=
  a_key (get_a h i).

(** The content of a set of references. *)
Definition skeys (h : Heap) (l : list sref) : list lit := map (skey h) l.
Definition akeys (h : Heap) (l : list aref) := map (akey h) l.

Definition lits_of (exprs : list Expr) (p : bool) : list lit :=
  map (fun e => (e, p)) exprs.

(** The signed preconditions and the signed effects of an action. *)
Definition precond_lits (act : Action) : list lit :=
  lits_of (precond_pos act) true ++ lits_of (precond_neg act) false.
Definition effect_lits (act : Action) : list lit :=
  lits_of (effect_add act) true ++ lits_of (effect_rem act) false.

Definition key_of (act : Action) : String.string * list Expr :=
  (name act, args act).

Definition expr_eq_dec (a b : Expr) : {a = b} + {a <> b}.
Proof. decide equality. apply String.string_dec. Defined.

Definition lit_eq_dec (a b : lit) : {a = b} + {a <> b}.
Proof. decide equality; [apply Bool.bool_dec | apply expr_eq_dec]. Defined.

(** The literals the graph can ever hold: those of the start state and
    the signed effects of the catalog, each counted once. *)
Definition distinct_literals (fs0 : FluentState) (acts : list Action)
  : list lit :=
  nodup lit_eq_dec
    (lits_of (pos fs0) true ++ lits_of (neg fs0) false
     ++ flat_map effect_lits acts).

(** Name and arguments identify an action of the catalog. *)
Definition catalog_consistent (acts : list Action) : Prop :=
  forall a b, In a acts -> In b acts -> key_of a = key_of b -> a = b.

(** Every literal of the start state has its persistence action. *)
Definition persistence_present (fs0 : FluentState) (acts : list Action)
  : Prop :=
  forall k, In k (lits_of (pos fs0) true ++ lits_of (neg fs0) false) ->
  exists act, In act acts /\ precond_lits act = [k] /\ effect_lits act = [k].

(** A reference that names an object of the store. *)
Definition node_valid (h : Heap) (n : node) : Prop :=
  match n with
  | SNode a => a < length (snodes h)
  | ANode a => a < length (anodes h)
  end.

Definition s_valid (h : Heap) (i : sref) : Prop := i < length (snodes h).
Definition a_valid (h : Heap) (i : aref) : Prop := i < length (anodes h).

(** A fact node nobody has touched since its construction. *)
Definition fresh_s (n : PgNode_s) : Prop :=
  s_parents n = [] /\ s_children n = [] /\ s_mutex n = [].

(** ** The level cost of a literal *)

(** The index of the first layer that holds the literal [k], counting
    from [i]. *)
Fixpoint first_level (i : nat) (levels : list (list lit)) (k : lit)
  : option nat :=
  match levels with
  | [] => None
  | lv :: rest =>
      if in_dec lit_eq_dec k lv then Some i else first_level (S i) rest k
  end.

(** Its first level, 0 when it is in no layer. *)
Definition cost_from (i : nat) (levels : list (list lit)) (k : lit) : nat :=
  match first_level i levels k with
  | Some j => j
  | None => 0
  end.

(** The keys of the dictionary [goal_levels]. *)
Definition dkeys (h : Heap) (d : list (sref * nat)) : list lit :=
  map (fun e => skey h (fst e)) d.

(** ** What a step leaves unchanged *)

(** [mutexify] on two fact nodes, on two action nodes. *)
Definition mutexify_s (a b : sref) (h : Heap) : Heap :=
  let h1 := mut_s h a (add_s_mutex b h) in mut_s h1 b (add_s_mutex a h1).

Definition mutexify_a (a b : aref) (h : Heap) : Heap :=
  let h1 := mut_a h a (add_a_mutex b h) in mut_a h1 b (add_a_mutex a h1).

(** Everything of a fact node but its mutex set. *)
Definition s_static (n : PgNode_s) :=
  (symbol n, is_pos n, s_parents n, s_children n).

(** Everything of an action node but its mutex set. *)
Definition a_static (n : PgNode_a) :=
  (action n, prenodes n, effnodes n, is_persistent n, a_parents n,
   a_children n).

(** The two stores differ at most in the mutex sets of fact nodes, of
    action nodes. *)
Definition same_but_s_mutex (h h' : Heap) : Prop :=
  anodes h' = anodes h /\ length (snodes h') = length (snodes h) /\
  forall i, s_static (get_s h' i) = s_static (get_s h i).

Definition same_but_a_mutex (h h' : Heap) : Prop :=
  snodes h' = snodes h /\ length (anodes h') = length (anodes h) /\
  forall i, a_static (get_a h' i) = a_static (get_a h i).

(** Everything of a fact node but its parents; everything of an action
    node but its children. *)
Definition s_core (n : PgNode_s) :=
  (symbol n, is_pos n, s_children n, s_mutex n).
Definition a_core (n : PgNode_a) :=
  (action n, prenodes n, effnodes n, is_persistent n, a_parents n, a_mutex n).

(** The two stores differ at most in the parents of fact nodes and the
    children of action nodes. *)
Definition same_core (h h' : Heap) : Prop :=
  length (snodes h') = length (snodes h) /\
  length (anodes h') = length (anodes h) /\
  (forall i, s_core (get_s h' i) = s_core (get_s h i)) /\
  (forall i, a_core (get_a h' i) = a_core (get_a h i)).

(** What no step after the construction of an action node changes. *)
Definition a_sig (n : PgNode_a) :=
  (action n, prenodes n, effnodes n, is_persistent n, a_parents n).

(** Later steps leave the objects that exist now as they are. *)
Definition agree (h h' : Heap) : Prop :=
  length (snodes h) <= length (snodes h') /\
  length (anodes h) <= length (anodes h') /\
  (forall i, i < length (snodes h) -> get_s h' i = get_s h i) /\
  (forall i, i < length (anodes h) -> get_a h' i = get_a h i).

Definition same_params (pg pg' : PlanningGraph) : Prop :=
  problem pg' = problem pg /\ fs pg' = fs pg /\ serial pg' = serial pg /\
  all_actions pg' = all_actions pg.

(** ** Layers *)

(** The pairs of [sibling_pairs], by recursion on the list. *)
Fixpoint pairs_rec {A} (l : list A) : list (A * A) :=
  match l with
  | [] => []
  | x :: rest => map (pair x) rest ++ pairs_rec rest
  end.

(** A layer whose mutex sets stay inside the layer and are symmetric as
    sets of references; [mx] reads the mutex set of a node, [ky] its key. *)
Definition layer_ok {K : Type} (mx : Heap -> nat -> list nat)
  (ky : Heap -> nat -> K) (valid : Heap -> nat -> Prop)
  (h : Heap) (L : list nat) : Prop :=
  (forall n, In n L -> valid h n) /\
  NoDup (map (ky h) L) /\
  (forall n, In n L -> incl (mx h n) L) /\
  (forall n m, In n L -> In m L -> (In m (mx h n) <-> In n (mx h m))).

(** The loop shared by [update_a_mutex] and [update_s_mutex]; [mk] tags a
    reference with its node kind. *)
Definition mutex_loop (mk : nat -> node)
  (test : Heap -> nat -> nat -> bool)
  (P : list (nat * nat)) (h : Heap) : result Heap :=
  for_each (fun h' '(n1, n2) =>
      if test h' n1 n2 then mutexify (mk n1) (mk n2) h' else Ok h') P h.

Definition s_mx (h : Heap) (i : sref) : list sref := s_mutex (get_s h i).
Definition a_mx (h : Heap) (i : aref) : list aref := a_mutex (get_a h i).

Definition s_layer_ok : Heap -> list sref -> Prop :=
  layer_ok s_mx skey s_valid.
Definition a_layer_ok : Heap -> list aref -> Prop :=
  layer_ok a_mx akey a_valid.

(** What holds of an action node when it has just been admitted:
    [Sk] is the content of the fact layer it was tested against, [ns] the
    size of the store of fact nodes before the layer was built. *)
Definition admitted_ok (acts : list Action) (Sk : list lit) (ns : nat)
  (h : Heap) (n : aref) : Prop :=
  In (action (get_a h n)) acts /\
  a_parents (get_a h n) = prenodes (get_a h n) /\
  a_children (get_a h n) = [] /\
  a_mutex (get_a h n) = [] /\
  (forall x, In x (prenodes (get_a h n)) -> ns <= x < length (snodes h)) /\
  (forall x, In x (effnodes (get_a h n)) -> ns <= x < length (snodes h)) /\
  (forall k, In k (skeys h (prenodes (get_a h n))) <->
             In k (precond_lits (action (get_a h n)))) /\
  (forall k, In k (skeys h (effnodes (get_a h n))) <->
             In k (effect_lits (action (get_a h n)))) /\
  incl (precond_lits (action (get_a h n))) Sk.

(** The invariant of the loop of [add_action_level]: [h0] is the store
    before the loop, [done] the actions already visited. *)
Definition admit_inv (h0 : Heap) (Sk : list lit) (done : list Action)
  (st : Heap * list aref) : Prop :=
  (exists ss aa, snodes (fst st) = snodes h0 ++ ss /\ Forall fresh_s ss /\
                 anodes (fst st) = anodes h0 ++ aa) /\
  (forall n, In n (snd st) ->
     length (anodes h0) <= n < length (anodes (fst st)) /\
     admitted_ok done Sk (length (snodes h0)) (fst st) n) /\
  NoDup (akeys (fst st) (snd st)) /\
  (forall act, In act done -> incl (precond_lits act) Sk ->
     In (key_of act) (akeys (fst st) (snd st))) /\
  (forall n m p, In n (snd st) -> In m (snd st) ->
     In p (prenodes (get_a (fst st) n)) ->
     ~ In p (effnodes (get_a (fst st) m))).

(** Fact layer 0: the literals of the start state, untouched nodes. *)
Definition fact_layer0 (h : Heap) (fs0 : FluentState) (S0 : list sref)
  : Prop :=
  (forall k, In k (skeys h S0) <->
             In k (lits_of (pos fs0) true ++ lits_of (neg fs0) false)) /\
  (forall s, In s S0 -> fresh_s (get_s h s)).

(** A fact layer after the first: every node is supported, and a literal
    and its negation are mutex. *)
Definition fact_layer_later (h : Heap) (Sl : list sref) : Prop :=
  (forall s, In s Sl -> s_parents (get_s h s) <> []) /\
  (forall s1 s2, In s1 Sl -> In s2 Sl ->
     symbol (get_s h s1) = symbol (get_s h s2) ->
     is_pos (get_s h s1) = negb (is_pos (get_s h s2)) ->
     In s2 (s_mx h s1)).

(** Action layer [La] between the fact layers [Sl] and [Sn]. *)
Definition action_layer (h : Heap) (acts : list Action) (ser : bool)
  (Sl : list sref) (La : list aref) (Sn : list sref) : Prop :=
  a_layer_ok h La /\
  (forall n, In n La ->
     In (action (get_a h n)) acts /\
     a_parents (get_a h n) = prenodes (get_a h n) /\
     (forall x, In x (prenodes (get_a h n)) -> x < length (snodes h)) /\
     (forall k, In k (skeys h (prenodes (get_a h n))) <->
                In k (precond_lits (action (get_a h n)))) /\
     incl (precond_lits (action (get_a h n))) (skeys h Sl)) /\
  (forall act, In act acts -> incl (precond_lits act) (skeys h Sl) ->
     In (key_of act) (akeys h La)) /\
  (ser = true -> forall n1 n2, In n1 La -> In n2 La -> n1 <> n2 ->
     is_persistent (get_a h n1) = false ->
     is_persistent (get_a h n2) = false ->
     In n2 (a_mx h n1)) /\
  (forall k, In k (skeys h Sn) <->
     exists n, In n La /\ In k (effect_lits (action (get_a h n)))) /\
  (forall n p, In n La -> In p (a_parents (get_a h n)) ->
     s_mutex (get_s h p) = [] /\ ~ In p Sl).

(** The invariant of the loop of [create_graph]. *)
Definition graph_inv (pg : PlanningGraph) : Prop :=
  (exists S0, nth_error (s_levels pg) 0 = Some S0 /\
              fact_layer0 (heap pg) (fs pg) S0) /\
  length (s_levels pg) = S (length (a_levels pg)) /\
  (forall l Sl, nth_error (s_levels pg) l = Some Sl ->
     s_layer_ok (heap pg) Sl) /\
  (forall l Sl, nth_error (s_levels pg) (S l) = Some Sl ->
     fact_layer_later (heap pg) Sl) /\
  (forall l La Sl Sn,
     nth_error (a_levels pg) l = Some La ->
     nth_error (s_levels pg) l = Some Sl ->
     nth_error (s_levels pg) (S l) = Some Sn ->
     action_layer (heap pg) (all_actions pg) (serial pg) Sl La Sn).

(** No two consecutive fact layers are equal (the loop is still running). *)
Definition no_repeat (pg : PlanningGraph) : Prop :=
  forall l Sl Sn,
    nth_error (s_levels pg) l = Some Sl ->
    nth_error (s_levels pg) (S l) = Some Sn ->
    s_set_eq (heap pg) Sn Sl = false.

(** Two consecutive fact layers are equal exactly when they are the last
    two (the loop stopped at the first repeat). *)
Definition leveled (pg : PlanningGraph) : Prop :=
  forall l Sl Sn,
    nth_error (s_levels pg) l = Some Sl ->
    nth_error (s_levels pg) (S l) = Some Sn ->
    (s_set_eq (heap pg) Sn Sl = true <-> S (S l) = length (s_levels pg)).

(** ** Beyond the invariant: what the layers hold exactly *)

(** Two nodes of one layer of the graph. *)
Definition siblings (pg : PlanningGraph) (n1 n2 : node) : Prop :=
  match n1, n2 with
  | SNode a, SNode b =>
      exists l Sl, nth_error (s_levels pg) l = Some Sl /\ In a Sl /\ In b Sl
  | ANode a, ANode b =>
      exists l La, nth_error (a_levels pg) l = Some La /\ In a La /\ In b La
  | _, _ => False
  end.

(** The expression a polarized literal stands for. *)
Definition lit_expr (k : lit) : Expr := if snd k then fst k else Not (fst k).

(** The two tests on the effect and precondition lists of the actions
    alone, without the literals of connected children and parents. *)
Definition act_inconsistent_effects (a1 a2 : Action) : bool :=
  existsb (fun effect => existsb (negates effect) (get_expressions_effect a2))
    (get_expressions_effect a1).

Definition act_interference (a1 a2 : Action) : bool :=
  existsb (fun precond => existsb (negates precond) (get_expressions_effect a2))
    (get_expressions_cond a1)
  || existsb (fun precond => existsb (negates precond) (get_expressions_effect a1))
       (get_expressions_cond a2).

Definition act_mutex_test (ser : bool) (nd1 nd2 : PgNode_a) : bool :=
  (ser && negb (is_persistent nd1 || is_persistent nd2))
  || act_inconsistent_effects (action nd1) (action nd2)
  || act_interference (action nd1) (action nd2).

(** An action node whose connected children and parents carry literals of
    its action, the parents with empty mutex sets. *)
Definition a_node_shape (h : Heap) (n : aref) : Prop :=
  (forall c, In c (a_children (get_a h n)) ->
     In (skey h c) (effect_lits (action (get_a h n)))) /\
  (forall p, In p (a_parents (get_a h n)) ->
     In (skey h p) (precond_lits (action (get_a h n))) /\
     s_mutex (get_s h p) = []).

(** The local [indicator] of [inconsistent_support_mutex]: every parent of
    the first node is mutex with every parent of the second. *)
Definition support_indicator (o : set_order) (h : Heap)
  (node_s1 node_s2 : sref) : bool :=
  forallb (fun parent =>
      forallb (fun parent2 => is_mutex h (ANode parent) (ANode parent2))
        (enum o (s_parents (get_s h node_s2))))
    (enum o (s_parents (get_s h node_s1))).

(** The signed preconditions and the signed effects of an action are the
    same set of literals. *)
Definition same_lits (act : Action) : Prop :=
  forall k, In k (precond_lits act) <-> In k (effect_lits act).

(** What the construction establishes about action layer [La] and the
    fact layer [Sn] that follows it, beyond [action_layer]: the persistence
    flags, the children of the action nodes, the mutex sets of the action
    nodes, the parents and the mutex sets of the fact nodes. *)
Definition layer_detail (h : Heap) (ser : bool) (La : list aref)
  (Sn : list sref) : Prop :=
  (forall n, In n La ->
     (is_persistent (get_a h n) = true <-> same_lits (action (get_a h n))) /\
     (forall x, In x (effnodes (get_a h n)) -> x < length (snodes h)) /\
     (forall k, In k (skeys h (effnodes (get_a h n))) <->
                In k (effect_lits (action (get_a h n)))) /\
     (forall c, In c (a_children (get_a h n)) -> In c (effnodes (get_a h n))) /\
     (forall k, In k (skeys h (a_children (get_a h n))) <->
                In k (effect_lits (action (get_a h n))))) /\
  (forall n1 n2, In n1 La -> In n2 La -> n1 <> n2 ->
     (In n2 (a_mx h n1) <->
      act_mutex_test ser (get_a h n1) (get_a h n2) = true)) /\
  (forall s n, In s Sn ->
     (In n (s_parents (get_s h s)) <->
      In n La /\ In (skey h s) (effect_lits (action (get_a h n))))) /\
  (forall s1 s2, In s1 Sn -> In s2 Sn -> s1 <> s2 ->
     (In s2 (s_mx h s1) <->
      negation_mutex h s1 s2 = true
      \/ (forall p1 p2, In p1 (s_parents (get_s h s1)) ->
                        In p2 (s_parents (get_s h s2)) ->
                        In p2 (a_mx h p1)))) /\
  (forall n, In n La -> ~ In n (a_mx h n)) /\
  (forall s, In s Sn -> ~ In s (s_mx h s)).

Definition graph_detail (pg : PlanningGraph) : Prop :=
  (forall i, s_children (get_s (heap pg) i) = []) /\
  (forall l La Sn,
     nth_error (a_levels pg) l = Some La ->
     nth_error (s_levels pg) (S l) = Some Sn ->
     layer_detail (heap pg) (serial pg) La Sn).

(** The literals reachable in [l] steps: those of the start state, then
    the signed effects of the actions whose signed preconditions are
    reachable one step earlier. *)
Fixpoint reach (acts : list Action) (fs0 : FluentState) (l : nat) (k : lit)
  : Prop :=
  match l with
  | O => In k (lits_of (pos fs0) true ++ lits_of (neg fs0) false)
  | S l' =>
      exists act, In act acts /\
                  (forall p, In p (precond_lits act) -> reach acts fs0 l' p) /\
                  In k (effect_lits act)
  end.

(** * Properties *)

(** ** Content keys *)

Lemma expr_eqb_eq (a b : Expr) : expr_eqb a b = true <-> a = b.
Proof.
  revert b; induction a as [s | a IH]; intros [t | b]; simpl;
    try (split; [discriminate | congruence]).
  - rewrite String.eqb_eq. split; congruence.
  - rewrite IH. split; congruence.
Qed.

Lemma expr_eqb_refl (a : Expr) : expr_eqb a a = true.
Proof. now apply expr_eqb_eq. Qed.

Lemma args_eqb_eq (l1 l2 : list Expr) : args_eqb l1 l2 = true <-> l1 = l2.
Proof.
  revert l2; induction l1 as [| x l1 IH]; intros [| y l2]; simpl;
    try (split; [discriminate | congruence]).
  - tauto.
  - rewrite andb_true_iff, expr_eqb_eq, IH. split.
    + intros [-> ->]; reflexivity.
    + intros E; inversion E; auto.
Qed.

Lemma PgNode_s_eq_key (n m : PgNode_s) :
  PgNode_s_eq n m = true <-> s_key n = s_key m.
Proof.
  unfold PgNode_s_eq, s_key.
  rewrite andb_true_iff, expr_eqb_eq, eqb_true_iff.
  split; [intros [-> ->]; reflexivity | intros E; inversion E; auto].
Qed.

Lemma PgNode_a_eq_key (n m : PgNode_a) :
  PgNode_a_eq n m = true <-> a_key n = a_key m.
Proof.
  unfold PgNode_a_eq, a_key.
  rewrite andb_true_iff, String.eqb_eq, args_eqb_eq.
  split; [intros [-> ->]; reflexivity | intros E; inversion E; auto].
Qed.

Lemma s_in_iff (h : Heap) (x : sref) (set : list sref) :
  s_in h x set = true <-> In (skey h x) (skeys h set).
Proof.
  unfold s_in, skeys. rewrite existsb_exists, in_map_iff.
  split; intros [y [H1 H2]]; exists y.
  - apply PgNode_s_eq_key in H2. split; [exact H2 | exact H1].
  - split; [exact H2 | apply PgNode_s_eq_key; exact H1].
Qed.

Lemma a_in_iff (h : Heap) (x : aref) (set : list aref) :
  a_in h x set = true <-> In (akey h x) (akeys h set).
Proof.
  unfold a_in, akeys. rewrite existsb_exists, in_map_iff.
  split; intros [y [H1 H2]]; exists y.
  - apply PgNode_a_eq_key in H2. split; [exact H2 | exact H1].
  - split; [exact H2 | apply PgNode_a_eq_key; exact H1].
Qed.

Lemma s_in_self (h : Heap) (x : sref) (set : list sref) :
  In x set -> s_in h x set = true.
Proof. intros H. apply s_in_iff. unfold skeys. now apply in_map. Qed.

Lemma a_in_self (h : Heap) (x : aref) (set : list aref) :
  In x set -> a_in h x set = true.
Proof. intros H. apply a_in_iff. unfold akeys. now apply in_map. Qed.

Lemma s_add_In (h : Heap) (x y : sref) (set : list sref) :
  In y (s_add h x set) <-> In y set \/ (y = x /\ s_in h x set = false).
Proof.
  unfold s_add. destruct (s_in h x set) eqn:E.
  - split; [tauto | intros [H | [_ H]]; [exact H | discriminate]].
  - rewrite in_app_iff. simpl. split.
    + intros [H | [H | []]]; [left | right]; auto.
    + intros [H | [H _]]; [left | right; left]; auto.
Qed.

Lemma a_add_In (h : Heap) (x y : aref) (set : list aref) :
  In y (a_add h x set) <-> In y set \/ (y = x /\ a_in h x set = false).
Proof.
  unfold a_add. destruct (a_in h x set) eqn:E.
  - split; [tauto | intros [H | [_ H]]; [exact H | discriminate]].
  - rewrite in_app_iff. simpl. split.
    + intros [H | [H | []]]; [left | right]; auto.
    + intros [H | [H _]]; [left | right; left]; auto.
Qed.

Lemma s_add_keys (h : Heap) (x : sref) (set : list sref) (k : lit) :
  In k (skeys h (s_add h x set)) <-> k = skey h x \/ In k (skeys h set).
Proof.
  unfold s_add. destruct (s_in h x set) eqn:E.
  - apply s_in_iff in E. split; [tauto | intros [-> | H]; assumption].
  - unfold skeys. rewrite map_app, in_app_iff. simpl. split.
    + intros [H | [H | []]]; auto.
    + intros [H | H]; auto.
Qed.

Lemma a_add_keys (h : Heap) (x : aref) (set : list aref) k :
  In k (akeys h (a_add h x set)) <-> k = akey h x \/ In k (akeys h set).
Proof.
  unfold a_add. destruct (a_in h x set) eqn:E.
  - apply a_in_iff in E. split; [tauto | intros [-> | H]; assumption].
  - unfold akeys. rewrite map_app, in_app_iff. simpl. split.
    + intros [H | [H | []]]; auto.
    + intros [H | H]; auto.
Qed.

Lemma NoDup_snoc {A} (l : list A) (x : A) :
  NoDup l -> ~ In x l -> NoDup (l ++ [x]).
Proof.
  intros Hl Hx. apply NoDup_rev in Hl.
  rewrite <- (rev_involutive (l ++ [x])). apply NoDup_rev.
  rewrite rev_app_distr. simpl. constructor; [| exact Hl].
  now rewrite <- in_rev.
Qed.

Lemma s_add_NoDup (h : Heap) (x : sref) (set : list sref) :
  NoDup (skeys h set) -> NoDup (skeys h (s_add h x set)).
Proof.
  intros H. unfold s_add. destruct (s_in h x set) eqn:E; [exact H |].
  unfold skeys. rewrite map_app. apply NoDup_snoc; [exact H |].
  intros Hin. apply s_in_iff in Hin. congruence.
Qed.

Lemma a_add_NoDup (h : Heap) (x : aref) (set : list aref) :
  NoDup (akeys h set) -> NoDup (akeys h (a_add h x set)).
Proof.
  intros H. unfold a_add. destruct (a_in h x set) eqn:E; [exact H |].
  unfold akeys. rewrite map_app. apply NoDup_snoc; [exact H |].
  intros Hin. apply a_in_iff in Hin. congruence.
Qed.

Lemma s_subset_iff (h : Heap) (a b : list sref) :
  s_subset h a b = true <-> incl (skeys h a) (skeys h b).
Proof.
  unfold s_subset. rewrite forallb_forall. split.
  - intros H k Hk. apply in_map_iff in Hk as [x [<- Hx]].
    apply s_in_iff. now apply H.
  - intros H x Hx. apply s_in_iff. apply H. unfold skeys. now apply in_map.
Qed.

Lemma s_set_eq_iff (h : Heap) (a b : list sref) :
  s_set_eq h a b = true <->
  incl (skeys h a) (skeys h b) /\ incl (skeys h b) (skeys h a).
Proof.
  unfold s_set_eq. now rewrite andb_true_iff, !s_subset_iff.
Qed.

(** ** The store under mutation *)

Lemma length_upd {A} (i : nat) (f : A -> A) (l : list A) :
  length (upd i f l) = length l.
Proof.
  revert i; induction l as [| x l IH]; intros [| i]; simpl; auto.
Qed.

Lemma nth_upd_same {A} (i : nat) (f : A -> A) (l : list A) (d : A) :
  i < length l -> nth i (upd i f l) d = f (nth i l d).
Proof.
  revert i; induction l as [| x l IH]; intros [| i] H; simpl in *;
    try lia; auto.
  apply IH. lia.
Qed.

Lemma nth_upd_other {A} (i j : nat) (f : A -> A) (l : list A) (d : A) :
  i <> j -> nth j (upd i f l) d = nth j l d.
Proof.
  revert i j; induction l as [| x l IH]; intros [| i] [| j] H; simpl;
    try congruence; auto.
Qed.

Lemma upd_out {A} (i : nat) (f : A -> A) (l : list A) :
  length l <= i -> upd i f l = l.
Proof.
  revert i; induction l as [| x l IH]; intros [| i] H; simpl in *;
    try lia; auto.
  f_equal. apply IH. lia.
Qed.

Lemma upd_app_last {A} (f : A -> A) (l : list A) (x : A) :
  upd (length l) f (l ++ [x]) = l ++ [f x].
Proof. induction l as [| y l IH]; simpl; [reflexivity | now rewrite IH]. Qed.

Lemma get_s_mut_s_same h i f :
  i < length (snodes h) -> get_s (mut_s h i f) i = f (get_s h i).
Proof. intros H. unfold get_s, mut_s. simpl. now apply nth_upd_same. Qed.

Lemma get_s_mut_s_other h i j f :
  i <> j -> get_s (mut_s h i f) j = get_s h j.
Proof. intros H. unfold get_s, mut_s. simpl. now apply nth_upd_other. Qed.

Lemma get_a_mut_a_same h i f :
  i < length (anodes h) -> get_a (mut_a h i f) i = f (get_a h i).
Proof. intros H. unfold get_a, mut_a. simpl. now apply nth_upd_same. Qed.

Lemma get_a_mut_a_other h i j f :
  i <> j -> get_a (mut_a h i f) j = get_a h j.
Proof. intros H. unfold get_a, mut_a. simpl. now apply nth_upd_other. Qed.

Lemma get_a_mut_s h i j f : get_a (mut_s h i f) j = get_a h j.
Proof. reflexivity. Qed.

Lemma get_s_mut_a h i j f : get_s (mut_a h i f) j = get_s h j.
Proof. reflexivity. Qed.

(** A mutation that keeps the key of the object keeps every key. *)
Lemma skey_mut_s h i f j :
  (forall n, s_key (f n) = s_key n) -> skey (mut_s h i f) j = skey h j.
Proof.
  intros Hf. unfold skey.
  destruct (Nat.eq_dec i j) as [-> | Hne].
  - destruct (Nat.lt_ge_cases j (length (snodes h))) as [Hlt | Hge].
    + rewrite get_s_mut_s_same by exact Hlt. apply Hf.
    + unfold get_s, mut_s. simpl. now rewrite upd_out.
  - now rewrite get_s_mut_s_other.
Qed.

Lemma akey_mut_a h i f j :
  (forall n, a_key (f n) = a_key n) -> akey (mut_a h i f) j = akey h j.
Proof.
  intros Hf. unfold akey.
  destruct (Nat.eq_dec i j) as [-> | Hne].
  - destruct (Nat.lt_ge_cases j (length (anodes h))) as [Hlt | Hge].
    + rewrite get_a_mut_a_same by exact Hlt. apply Hf.
    + unfold get_a, mut_a. simpl. now rewrite upd_out.
  - now rewrite get_a_mut_a_other.
Qed.

(** Membership in a set of references only looks at keys. *)
Lemma s_in_ext (h h' : Heap) (x : sref) (set : list sref) :
  (forall i, skey h' i = skey h i) -> s_in h' x set = s_in h x set.
Proof.
  intros E. apply eq_true_iff_eq. rewrite !s_in_iff. unfold skeys.
  rewrite E. erewrite map_ext; [reflexivity | intros; apply E].
Qed.

Lemma a_in_ext (h h' : Heap) (x : aref) (set : list aref) :
  (forall i, akey h' i = akey h i) -> a_in h' x set = a_in h x set.
Proof.
  intros E. apply eq_true_iff_eq. rewrite !a_in_iff. unfold akeys.
  rewrite E. erewrite map_ext; [reflexivity | intros; apply E].
Qed.

(** ** [mutexify] on two fact nodes, on two action nodes *)

Lemma s_static_key n m : s_static n = s_static m -> s_key n = s_key m.
Proof. unfold s_static, s_key. intros E; inversion E; reflexivity. Qed.

Lemma a_static_key n m : a_static n = a_static m -> a_key n = a_key m.
Proof. unfold a_static, a_key. intros E; inversion E; reflexivity. Qed.

Lemma same_but_s_mutex_refl h : same_but_s_mutex h h.
Proof. repeat split. Qed.

Lemma same_but_a_mutex_refl h : same_but_a_mutex h h.
Proof. repeat split. Qed.

Lemma same_but_s_mutex_trans h1 h2 h3 :
  same_but_s_mutex h1 h2 -> same_but_s_mutex h2 h3 -> same_but_s_mutex h1 h3.
Proof.
  intros (A1 & L1 & S1) (A2 & L2 & S2).
  split; [congruence | split; [congruence |]].
  intros i. rewrite S2. apply S1.
Qed.

Lemma same_but_a_mutex_trans h1 h2 h3 :
  same_but_a_mutex h1 h2 -> same_but_a_mutex h2 h3 -> same_but_a_mutex h1 h3.
Proof.
  intros (A1 & L1 & S1) (A2 & L2 & S2).
  split; [congruence | split; [congruence |]].
  intros i. rewrite S2. apply S1.
Qed.

Lemma same_but_s_mutex_key h h' i :
  same_but_s_mutex h h' -> skey h' i = skey h i.
Proof. intros (_ & _ & S). apply s_static_key, S. Qed.

Lemma same_but_a_mutex_key h h' i :
  same_but_a_mutex h h' -> akey h' i = akey h i.
Proof. intros (_ & _ & S). apply a_static_key, S. Qed.

Lemma mut_s_add_mutex_same h a b : same_but_s_mutex h (mut_s h a (add_s_mutex b h)).
Proof.
  repeat split; simpl; [apply length_upd |].
  intros i. destruct (Nat.eq_dec a i) as [-> | Hne].
  - destruct (Nat.lt_ge_cases i (length (snodes h))) as [Hlt | Hge].
    + now rewrite get_s_mut_s_same.
    + unfold get_s, mut_s; simpl. now rewrite upd_out.
  - now rewrite get_s_mut_s_other.
Qed.

Lemma mut_a_add_mutex_same h a b : same_but_a_mutex h (mut_a h a (add_a_mutex b h)).
Proof.
  repeat split; simpl; [apply length_upd |].
  intros i. destruct (Nat.eq_dec a i) as [-> | Hne].
  - destruct (Nat.lt_ge_cases i (length (anodes h))) as [Hlt | Hge].
    + now rewrite get_a_mut_a_same.
    + unfold get_a, mut_a; simpl. now rewrite upd_out.
  - now rewrite get_a_mut_a_other.
Qed.

Lemma mutexify_s_same h a b : same_but_s_mutex h (mutexify_s a b h).
Proof.
  unfold mutexify_s. eapply same_but_s_mutex_trans; apply mut_s_add_mutex_same.
Qed.

Lemma mutexify_a_same h a b : same_but_a_mutex h (mutexify_a a b h).
Proof.
  unfold mutexify_a. eapply same_but_a_mutex_trans; apply mut_a_add_mutex_same.
Qed.

(** What [mutexify] adds, exactly. *)
Lemma mutexify_s_mutex h a b i y :
  a < length (snodes h) -> b < length (snodes h) ->
  In y (s_mutex (get_s (mutexify_s a b h) i)) <->
  In y (s_mutex (get_s h i))
  \/ (i = a /\ y = b /\ s_in h b (s_mutex (get_s h a)) = false)
  \/ (i = b /\ y = a /\ s_in h a (s_mutex (get_s h b)) = false).
Proof.
  intros Ha Hb. unfold mutexify_s.
  set (h1 := mut_s h a (add_s_mutex b h)).
  assert (K1 : forall j, skey h1 j = skey h j)
    by (intros j; apply same_but_s_mutex_key, mut_s_add_mutex_same).
  assert (L1 : length (snodes h1) = length (snodes h))
    by (simpl; apply length_upd).
  assert (G1 : get_s h1 a = add_s_mutex b h (get_s h a))
    by (subst h1; now rewrite get_s_mut_s_same).
  destruct (Nat.eq_dec i b) as [-> | Hib].
  - rewrite get_s_mut_s_same by lia. simpl. rewrite s_add_In.
    rewrite (s_in_ext h h1) by exact K1.
    destruct (Nat.eq_dec a b) as [-> | Hab].
    + rewrite G1. simpl.
      assert (T : s_in h b (s_add h b (s_mutex (get_s h b))) = true).
      { apply s_in_iff, s_add_keys. now left. }
      rewrite T, s_add_In. intuition congruence.
    + subst h1. rewrite get_s_mut_s_other by exact Hab. intuition congruence.
  - rewrite get_s_mut_s_other by congruence.
    destruct (Nat.eq_dec i a) as [-> | Hia].
    + rewrite G1. simpl. rewrite s_add_In. intuition congruence.
    + subst h1. rewrite get_s_mut_s_other by congruence. intuition congruence.
Qed.

Lemma mutexify_a_mutex h a b i y :
  a < length (anodes h) -> b < length (anodes h) ->
  In y (a_mutex (get_a (mutexify_a a b h) i)) <->
  In y (a_mutex (get_a h i))
  \/ (i = a /\ y = b /\ a_in h b (a_mutex (get_a h a)) = false)
  \/ (i = b /\ y = a /\ a_in h a (a_mutex (get_a h b)) = false).
Proof.
  intros Ha Hb. unfold mutexify_a.
  set (h1 := mut_a h a (add_a_mutex b h)).
  assert (K1 : forall j, akey h1 j = akey h j)
    by (intros j; apply same_but_a_mutex_key, mut_a_add_mutex_same).
  assert (L1 : length (anodes h1) = length (anodes h))
    by (simpl; apply length_upd).
  assert (G1 : get_a h1 a = add_a_mutex b h (get_a h a))
    by (subst h1; now rewrite get_a_mut_a_same).
  destruct (Nat.eq_dec i b) as [-> | Hib].
  - rewrite get_a_mut_a_same by lia. simpl. rewrite a_add_In.
    rewrite (a_in_ext h h1) by exact K1.
    destruct (Nat.eq_dec a b) as [-> | Hab].
    + rewrite G1. simpl.
      assert (T : a_in h b (a_add h b (a_mutex (get_a h b))) = true).
      { apply a_in_iff, a_add_keys. now left. }
      rewrite T, a_add_In. intuition congruence.
    + subst h1. rewrite get_a_mut_a_other by exact Hab. intuition congruence.
  - rewrite get_a_mut_a_other by congruence.
    destruct (Nat.eq_dec i a) as [-> | Hia].
    + rewrite G1. simpl. rewrite a_add_In. intuition congruence.
    + subst h1. rewrite get_a_mut_a_other by congruence. intuition congruence.
Qed.

(** ** The sibling pairs *)

Lemma sibling_pairs_shift {A} (l pre : list A) :
  flat_map (fun '(i, n1) => map (pair n1) (skipn (i + 1) (pre ++ l)))
    (enumerate_from (length pre) (removelast l)) = pairs_rec l.
Proof.
  revert pre; induction l as [| x r IH]; intros pre; [reflexivity |].
  destruct r as [| y r'].
  - reflexivity.
  - change (removelast (x :: y :: r')) with (x :: removelast (y :: r')).
    cbn [enumerate_from flat_map pairs_rec]. f_equal.
    + f_equal. replace (length pre + 1) with (length pre + 0 + 1) by lia.
      rewrite Nat.add_1_r, Nat.add_0_r.
      change (x :: y :: r') with ([x] ++ y :: r').
      rewrite app_assoc.
      replace (S (length pre)) with (length (pre ++ [x]) + 0)
        by (rewrite length_app; simpl; lia).
      now rewrite skipn_app, Nat.add_0_r, skipn_all, Nat.sub_diag.
    + specialize (IH (pre ++ [x])).
      rewrite length_app in IH. simpl in IH. rewrite Nat.add_1_r in IH.
      rewrite <- app_assoc in IH. exact IH.
Qed.

Lemma sibling_pairs_rec {A} (l : list A) : sibling_pairs l = pairs_rec l.
Proof. apply (sibling_pairs_shift l []). Qed.

Lemma pairs_rec_In {A} (l : list A) (a b : A) :
  In (a, b) (pairs_rec l) -> In a l /\ In b l.
Proof.
  induction l as [| x r IH]; simpl; [tauto |].
  rewrite in_app_iff, in_map_iff. intros [[y [E Hy]] | H].
  - inversion E; subst. auto.
  - destruct (IH H). auto.
Qed.

Lemma pairs_rec_cover {A} (l : list A) (a b : A) :
  In a l -> In b l -> a <> b ->
  In (a, b) (pairs_rec l) \/ In (b, a) (pairs_rec l).
Proof.
  induction l as [| x r IH]; simpl; [tauto |].
  intros [-> | Ha] [-> | Hb] Hne; try congruence.
  - left. apply in_app_iff. left. now apply in_map.
  - right. apply in_app_iff. left. now apply in_map.
  - destruct (IH Ha Hb Hne); [left | right]; apply in_app_iff; now right.
Qed.

Lemma enum_In (o : set_order) (l : list nat) (x : nat) :
  In x (enum o l) <-> In x l.
Proof.
  split; apply Permutation_in;
    [apply enum_perm | apply Permutation_sym, enum_perm].
Qed.

Lemma sibling_pairs_In (o : set_order) (l : list nat) (a b : nat) :
  In (a, b) (sibling_pairs (enum o l)) -> In a l /\ In b l.
Proof.
  rewrite sibling_pairs_rec. intros H. apply pairs_rec_In in H.
  now rewrite !enum_In in H.
Qed.

Lemma sibling_pairs_cover (o : set_order) (l : list nat) (a b : nat) :
  In a l -> In b l -> a <> b ->
  In (a, b) (sibling_pairs (enum o l)) \/ In (b, a) (sibling_pairs (enum o l)).
Proof.
  intros Ha Hb Hne. rewrite sibling_pairs_rec.
  apply pairs_rec_cover; [now apply enum_In | now apply enum_In | exact Hne].
Qed.

Lemma NoDup_map_inj {A B} (f : A -> B) (l : list A) (x y : A) :
  NoDup (map f l) -> In x l -> In y l -> f x = f y -> x = y.
Proof.
  induction l as [| z l IH]; simpl; [tauto |].
  intros Hnd Hx Hy E. inversion Hnd as [| ? ? Hz Hl]; subst.
  destruct Hx as [-> | Hx], Hy as [-> | Hy]; auto.
  - exfalso. apply Hz. rewrite E. now apply in_map.
  - exfalso. apply Hz. rewrite <- E. now apply in_map.
Qed.

(** ** The mutex loop over one layer

    [update_a_mutex] and [update_s_mutex] are the same loop over the
    sibling pairs of a layer; what they establish is proved once, over the
    interface the two node kinds share. *)

Section MutexLoop.

Context {K : Type}.
Variable mx : Heap -> nat -> list nat.
Variable ky : Heap -> nat -> K.
Variable valid : Heap -> nat -> Prop.
Variable mfy : nat -> nat -> Heap -> Heap.
Variable same : Heap -> Heap -> Prop.
Variable mk : nat -> node.

Hypothesis same_refl : forall h, same h h.
Hypothesis same_trans : forall h1 h2 h3, same h1 h2 -> same h2 h3 -> same h1 h3.
Hypothesis same_ky : forall h h' i, same h h' -> ky h' i = ky h i.
Hypothesis same_valid : forall h h' i, same h h' -> valid h i -> valid h' i.
Hypothesis mfy_same : forall h a b, same h (mfy a b h).
Hypothesis mfy_mx : forall h a b i y, valid h a -> valid h b ->
  (In y (mx (mfy a b h) i) <->
   In y (mx h i)
   \/ (i = a /\ y = b /\ ~ In (ky h b) (map (ky h) (mx h a)))
   \/ (i = b /\ y = a /\ ~ In (ky h a) (map (ky h) (mx h b)))).
Hypothesis mfy_other : forall h a b i, i <> a -> i <> b ->
  mx (mfy a b h) i = mx h i.
Hypothesis mfy_run : forall h a b, mutexify (mk a) (mk b) h = Ok (mfy a b h).

(** Inside such a layer, membership by content is membership. *)
Lemma layer_member h L a b :
  layer_ok mx ky valid h L -> In a L -> In b L ->
  (In (ky h b) (map (ky h) (mx h a)) <-> In b (mx h a)).
Proof.
  intros (_ & Hnd & Hin & _) Ha Hb. split.
  - intros H. apply in_map_iff in H as [y [E Hy]].
    assert (y = b) as <-; [| exact Hy].
    apply (NoDup_map_inj (ky h) L); auto. now apply (Hin a).
  - intros H. now apply in_map.
Qed.

Lemma mfy_layer_ok h L a b :
  layer_ok mx ky valid h L -> In a L -> In b L ->
  layer_ok mx ky valid (mfy a b h) L.
Proof.
  intros Hok Ha Hb.
  pose proof (layer_member h L a b Hok Ha Hb) as Mab.
  pose proof (layer_member h L b a Hok Hb Ha) as Mba.
  destruct Hok as (Hv & Hnd & Hin & Hsym).
  pose proof (Hsym a b Ha Hb) as Sab.
  split; [| split; [| split]].
  - intros n Hn. eapply same_valid; [apply mfy_same | auto].
  - erewrite map_ext; [exact Hnd |]. intros i. apply same_ky, mfy_same.
  - intros n Hn y Hy. apply mfy_mx in Hy; auto.
    destruct Hy as [Hy | [(_ & -> & _) | (_ & -> & _)]]; auto.
    now apply (Hin n).
  - intros n m Hn Hm. rewrite !mfy_mx by auto.
    pose proof (Hsym n m Hn Hm). tauto.
Qed.

Lemma mutex_loop_spec (test : Heap -> nat -> nat -> bool) (L : list nat)
  (P : list (nat * nat)) :
  forall h, layer_ok mx ky valid h L ->
  (forall a b, In (a, b) P -> In a L /\ In b L) ->
  exists h', mutex_loop mk test P h = Ok h' /\ same h h' /\
    layer_ok mx ky valid h' L /\
    (forall i, ~ In i L -> mx h' i = mx h i) /\
    (forall i y, In y (mx h i) -> In y (mx h' i)) /\
    (forall a b, In (a, b) P ->
       (forall h'', same h h'' -> test h'' a b = true) ->
       In b (mx h' a) /\ In a (mx h' b)).
Proof.
  induction P as [| [a b] P IH]; intros h Hok HP.
  - exists h. split; [reflexivity |]. split; [apply same_refl |].
    split; [exact Hok |]. split; [reflexivity |]. split; [auto |].
    intros a b [].
  - destruct (HP a b (or_introl eq_refl)) as [Ha Hb].
    assert (HP' : forall a b, In (a, b) P -> In a L /\ In b L)
      by (intros; apply HP; now right).
    unfold mutex_loop. cbn [for_each].
    destruct (test h a b) eqn:T.
    + rewrite mfy_run. cbn [bind].
      destruct (IH (mfy a b h) (mfy_layer_ok h L a b Hok Ha Hb) HP')
        as (h' & Hrun & Hsame & Hok' & Hout & Hmono & Hforced).
      exists h'. split; [exact Hrun |].
      assert (Va : valid h a) by (now apply Hok).
      assert (Vb : valid h b) by (now apply Hok).
      split; [eapply same_trans; [apply mfy_same | exact Hsame] |].
      split; [exact Hok' |]. split; [| split].
      * intros i Hi. rewrite Hout by exact Hi. apply mfy_other; congruence.
      * intros i y Hy. apply Hmono. apply mfy_mx; auto.
      * intros a' b' [E | Hin] Hf.
        -- inversion E; subst a' b'.
           assert (Hab : In b (mx (mfy a b h) a)).
           { apply mfy_mx; auto.
             destruct (layer_member h L a b Hok Ha Hb) as [M1 M2].
             destruct (in_dec Nat.eq_dec b (mx h a)) as [Hi | Hn];
               [now left | right; left].
             repeat split; auto. }
           split; [now apply Hmono |].
           destruct Hok' as (_ & _ & _ & Hsym').
           apply (Hsym' a b Ha Hb). now apply Hmono.
        -- apply Hforced; [exact Hin |].
           intros h'' Hs. apply Hf. eapply same_trans; [apply mfy_same | exact Hs].
    + cbn [bind].
      destruct (IH h Hok HP') as (h' & Hrun & Hsame & Hok' & Hout & Hmono & Hforced).
      exists h'. split; [exact Hrun |]. split; [exact Hsame |].
      split; [exact Hok' |]. split; [exact Hout |]. split; [exact Hmono |].
      intros a' b' [E | Hin] Hf.
      * inversion E; subst a' b'.
        rewrite (Hf h (same_refl h)) in T. discriminate.
      * now apply Hforced.
Qed.

End MutexLoop.

Section LayerTransport.

Context {K : Type}.
Variable mx : Heap -> nat -> list nat.
Variable ky : Heap -> nat -> K.
Variable valid : Heap -> nat -> Prop.

(** [layer_ok] only reads the objects of the layer. *)
Lemma layer_ok_ext (h h' : Heap) (L : list nat) :
  (forall n, In n L -> mx h' n = mx h n) ->
  (forall n, In n L -> ky h' n = ky h n) ->
  (forall n, In n L -> valid h n -> valid h' n) ->
  layer_ok mx ky valid h L -> layer_ok mx ky valid h' L.
Proof.
  intros Hmx Hky Hva (Hv & Hnd & Hin & Hsym).
  split; [| split; [| split]].
  - intros n Hn. apply Hva; auto.
  - erewrite map_ext_in; [exact Hnd | exact Hky].
  - intros n Hn. rewrite Hmx by exact Hn. now apply Hin.
  - intros n m Hn Hm. rewrite !Hmx by assumption. now apply Hsym.
Qed.

Lemma layer_ok_NoDup (h : Heap) (L : list nat) :
  layer_ok mx ky valid h L -> NoDup L.
Proof.
  intros (_ & Hnd & _). now apply NoDup_map_inv in Hnd.
Qed.

End LayerTransport.

(** ** The two instances *)

Lemma PgNode_s_ext (n m : PgNode_s) :
  s_static n = s_static m -> s_mutex n = s_mutex m -> n = m.
Proof.
  destruct n, m. unfold s_static. simpl. intros E ->. now inversion E.
Qed.

Lemma PgNode_a_ext (n m : PgNode_a) :
  a_static n = a_static m -> a_mutex n = a_mutex m -> n = m.
Proof.
  destruct n, m. unfold a_static. simpl. intros E ->. now inversion E.
Qed.

Lemma s_in_false_iff h x set :
  s_in h x set = false <-> ~ In (skey h x) (map (skey h) set).
Proof.
  rewrite <- (s_in_iff h x set). destruct (s_in h x set); split;
    congruence.
Qed.

Lemma a_in_false_iff h x set :
  a_in h x set = false <-> ~ In (akey h x) (map (akey h) set).
Proof.
  rewrite <- (a_in_iff h x set). destruct (a_in h x set); split;
    congruence.
Qed.

Lemma mutexify_s_other h a b i :
  i <> a -> i <> b -> get_s (mutexify_s a b h) i = get_s h i.
Proof.
  intros Ha Hb. unfold mutexify_s.
  rewrite !get_s_mut_s_other by congruence. reflexivity.
Qed.

Lemma mutexify_a_other h a b i :
  i <> a -> i <> b -> get_a (mutexify_a a b h) i = get_a h i.
Proof.
  intros Ha Hb. unfold mutexify_a.
  rewrite !get_a_mut_a_other by congruence. reflexivity.
Qed.

Lemma update_s_mutex_spec (o : set_order) (L : list sref) (h : Heap) :
  s_layer_ok h L ->
  exists h', update_s_mutex o L h = Ok h' /\ same_but_s_mutex h h' /\
    s_layer_ok h' L /\
    (forall i, ~ In i L -> get_s h' i = get_s h i) /\
    (forall i y, In y (s_mx h i) -> In y (s_mx h' i)) /\
    (forall a b, In a L -> In b L -> a <> b ->
       (forall h'', same_but_s_mutex h h'' ->
          s_mutex_test o h'' a b = true /\ s_mutex_test o h'' b a = true) ->
       In b (s_mx h' a) /\ In a (s_mx h' b)).
Proof.
  intros Hok.
  destruct (mutex_loop_spec s_mx skey s_valid mutexify_s same_but_s_mutex SNode
              same_but_s_mutex_refl same_but_s_mutex_trans
              (fun h h' i H => same_but_s_mutex_key h h' i H))
    with (test := s_mutex_test o) (L := L)
         (P := sibling_pairs (enum o L)) (h := h)
    as (h' & Hrun & Hsame & Hok' & Hout & Hmono & Hforced).
  - intros h0 h1 i (_ & E & _). unfold s_valid. now rewrite E.
  - apply mutexify_s_same.
  - intros h0 a b i y Ha Hb. unfold s_mx.
    rewrite mutexify_s_mutex by assumption.
    now rewrite !s_in_false_iff.
  - intros h0 a b i Ha Hb. unfold s_mx. now rewrite mutexify_s_other.
  - reflexivity.
  - exact Hok.
  - intros a b. apply sibling_pairs_In.
  - exists h'. split; [exact Hrun |]. split; [exact Hsame |].
    split; [exact Hok' |]. split; [| split; [exact Hmono |]].
    + intros i Hi. apply PgNode_s_ext; [apply Hsame | now apply Hout].
    + intros a b Ha Hb Hne Hf.
      destruct (sibling_pairs_cover o L a b Ha Hb Hne) as [Hp | Hp].
      * apply Hforced; [exact Hp |]. intros h'' Hs. now apply Hf.
      * apply and_comm. apply Hforced; [exact Hp |].
        intros h'' Hs. now apply Hf.
Qed.

Lemma update_a_mutex_spec (o : set_order) (ser : bool) (L : list aref)
  (h : Heap) :
  a_layer_ok h L ->
  exists h', update_a_mutex o ser L h = Ok h' /\ same_but_a_mutex h h' /\
    a_layer_ok h' L /\
    (forall i, ~ In i L -> get_a h' i = get_a h i) /\
    (forall i y, In y (a_mx h i) -> In y (a_mx h' i)) /\
    (forall a b, In a L -> In b L -> a <> b ->
       (forall h'', same_but_a_mutex h h'' ->
          a_mutex_test o ser h'' a b = true /\
          a_mutex_test o ser h'' b a = true) ->
       In b (a_mx h' a) /\ In a (a_mx h' b)).
Proof.
  intros Hok.
  destruct (mutex_loop_spec a_mx akey a_valid mutexify_a same_but_a_mutex ANode
              same_but_a_mutex_refl same_but_a_mutex_trans
              (fun h h' i H => same_but_a_mutex_key h h' i H))
    with (test := a_mutex_test o ser) (L := L)
         (P := sibling_pairs (enum o L)) (h := h)
    as (h' & Hrun & Hsame & Hok' & Hout & Hmono & Hforced).
  - intros h0 h1 i (_ & E & _). unfold a_valid. now rewrite E.
  - apply mutexify_a_same.
  - intros h0 a b i y Ha Hb. unfold a_mx.
    rewrite mutexify_a_mutex by assumption.
    now rewrite !a_in_false_iff.
  - intros h0 a b i Ha Hb. unfold a_mx. now rewrite mutexify_a_other.
  - reflexivity.
  - exact Hok.
  - intros a b. apply sibling_pairs_In.
  - exists h'. split; [exact Hrun |]. split; [exact Hsame |].
    split; [exact Hok' |]. split; [| split; [exact Hmono |]].
    + intros i Hi. apply PgNode_a_ext; [apply Hsame | now apply Hout].
    + intros a b Ha Hb Hne Hf.
      destruct (sibling_pairs_cover o L a b Ha Hb Hne) as [Hp | Hp].
      * apply Hforced; [exact Hp |]. intros h'' Hs. now apply Hf.
      * apply and_comm. apply Hforced; [exact Hp |].
        intros h'' Hs. now apply Hf.
Qed.

(** ** Allocation *)

Lemma get_s_app_l (h h' : Heap) (ss : list PgNode_s) (i : sref) :
  snodes h' = snodes h ++ ss -> i < length (snodes h) ->
  get_s h' i = get_s h i.
Proof. intros E Hi. unfold get_s. rewrite E. now apply app_nth1. Qed.

Lemma get_a_app_l (h h' : Heap) (aa : list PgNode_a) (i : aref) :
  anodes h' = anodes h ++ aa -> i < length (anodes h) ->
  get_a h' i = get_a h i.
Proof. intros E Hi. unfold get_a. rewrite E. now apply app_nth1. Qed.

Lemma skeys_agree (h h' : Heap) (l : list sref) :
  (forall x, In x l -> get_s h' x = get_s h x) -> skeys h' l = skeys h l.
Proof.
  intros H. unfold skeys. apply map_ext_in. intros x Hx. unfold skey.
  now rewrite H.
Qed.

Lemma akeys_agree (h h' : Heap) (l : list aref) :
  (forall x, In x l -> get_a h' x = get_a h x) -> akeys h' l = akeys h l.
Proof.
  intros H. unfold akeys. apply map_ext_in. intros x Hx. unfold akey.
  now rewrite H.
Qed.

Lemma add_s_nodes_spec (exprs : list Expr) (p : bool) :
  forall (set : list sref) (h : Heap),
  (forall x, In x set -> x < length (snodes h)) ->
  (exists ss, snodes (snd (add_s_nodes exprs p (set, h))) = snodes h ++ ss
              /\ Forall fresh_s ss) /\
  anodes (snd (add_s_nodes exprs p (set, h))) = anodes h /\
  (forall x, In x (fst (add_s_nodes exprs p (set, h))) ->
     x < length (snodes (snd (add_s_nodes exprs p (set, h))))) /\
  (forall x, In x (fst (add_s_nodes exprs p (set, h))) ->
     In x set \/ length (snodes h) <= x) /\
  (forall k, In k (skeys (snd (add_s_nodes exprs p (set, h)))
                     (fst (add_s_nodes exprs p (set, h)))) <->
     In k (skeys h set) \/ In k (lits_of exprs p)) /\
  (NoDup (skeys h set) ->
   NoDup (skeys (snd (add_s_nodes exprs p (set, h)))
            (fst (add_s_nodes exprs p (set, h))))).
Proof.
  induction exprs as [| e rest IH]; intros set h Hset.
  - simpl. split; [exists []; split; [now rewrite app_nil_r | constructor] |].
    split; [reflexivity |]. split; [exact Hset |]. split; [auto |].
    split; [| auto]. intros k. tauto.
  - cbn [add_s_nodes new_PgNode_s fst snd].
    set (nd := mkPgNode_s e p [] [] []).
    set (h1 := mkHeap (snodes h ++ [nd]) (anodes h)).
    set (n := length (snodes h)).
    assert (E1 : snodes h1 = snodes h ++ [nd]) by reflexivity.
    assert (Hkeys : skeys h1 set = skeys h set).
    { apply skeys_agree. intros x Hx. eapply get_s_app_l; eauto. }
    assert (Hn : skey h1 n = (e, p)).
    { unfold skey, get_s, n. rewrite E1, nth_middle. reflexivity. }
    assert (Hset1 : forall x, In x (s_add h1 n set) -> x < length (snodes h1)).
    { intros x Hx. apply s_add_In in Hx. rewrite E1, length_app. simpl.
      destruct Hx as [Hx | [-> _]]; [apply Hset in Hx |]; unfold n; lia. }
    destruct (IH (s_add h1 n set) h1 Hset1)
      as ((ss & Ess & Hfresh) & Ea & Hval & Hnew & Hk & Hnd).
    split; [| split; [| split; [| split; [| split]]]].
    + exists (nd :: ss). split.
      * rewrite Ess, E1, <- app_assoc. reflexivity.
      * constructor; [repeat split | exact Hfresh].
    + exact Ea.
    + exact Hval.
    + intros x Hx. apply Hnew in Hx. destruct Hx as [Hx | Hx].
      * apply s_add_In in Hx. destruct Hx as [Hx | [-> _]]; auto.
      * right. rewrite E1, length_app in Hx. simpl in Hx. lia.
    + intros k. rewrite Hk, s_add_keys, Hn, Hkeys. simpl. intuition auto.
    + intros H. apply Hnd. apply s_add_NoDup. now rewrite Hkeys.
Qed.

(** The two loops of [precond_s_nodes], of [effect_s_nodes], of the
    initial layer and of the goal set. *)
Lemma signed_nodes_spec (xs ys : list Expr) (h : Heap) :
  exists set ss,
    add_s_nodes ys false (add_s_nodes xs true ([], h))
    = (set, mkHeap (snodes h ++ ss) (anodes h)) /\
    Forall fresh_s ss /\
    (forall x, In x set ->
       length (snodes h) <= x < length (snodes h) + length ss) /\
    (forall k, In k (skeys (mkHeap (snodes h ++ ss) (anodes h)) set) <->
       In k (lits_of xs true ++ lits_of ys false)) /\
    NoDup (skeys (mkHeap (snodes h ++ ss) (anodes h)) set).
Proof.
  destruct (add_s_nodes_spec xs true [] h)
    as ((ss1 & E1 & F1) & A1 & V1 & N1 & K1 & D1); [intros x [] |].
  destruct (add_s_nodes xs true ([], h)) as [set1 h1] eqn:R1.
  cbn [fst snd] in *.
  destruct (add_s_nodes_spec ys false set1 h1 V1)
    as ((ss2 & E2 & F2) & A2 & V2 & N2 & K2 & D2).
  destruct (add_s_nodes ys false (set1, h1)) as [set2 h2] eqn:R2.
  cbn [fst snd] in *.
  exists set2, (ss1 ++ ss2).
  assert (Eh : h2 = mkHeap (snodes h ++ ss1 ++ ss2) (anodes h)).
  { destruct h2 as [s2 a2]. simpl in *. rewrite E2, E1, <- app_assoc, A2, A1.
    reflexivity. }
  rewrite <- Eh. split; [reflexivity |].
  split; [apply Forall_app; auto |]. split; [| split].
  - intros x Hx. split.
    + destruct (N2 x Hx) as [H | H].
      * destruct (N1 x H) as [[] | H']. exact H'.
      * rewrite E1, length_app in H. lia.
    + apply V2 in Hx. rewrite E2, E1, !length_app in Hx.
      rewrite length_app. lia.
  - intros k. rewrite K2, K1, in_app_iff. simpl. tauto.
  - apply D2, D1. constructor.
Qed.

Lemma new_PgNode_a_spec (h : Heap) (act : Action) :
  exists ss nd,
    new_PgNode_a h act
    = (length (anodes h), mkHeap (snodes h ++ ss) (anodes h ++ [nd])) /\
    Forall fresh_s ss /\
    action nd = act /\
    a_parents nd = [] /\ a_children nd = [] /\ a_mutex nd = [] /\
    (forall x, In x (prenodes nd) ->
       length (snodes h) <= x < length (snodes h) + length ss) /\
    (forall x, In x (effnodes nd) ->
       length (snodes h) <= x < length (snodes h) + length ss) /\
    (forall k, In k (skeys (mkHeap (snodes h ++ ss) (anodes h ++ [nd]))
                       (prenodes nd)) <-> In k (precond_lits act)) /\
    (forall k, In k (skeys (mkHeap (snodes h ++ ss) (anodes h ++ [nd]))
                       (effnodes nd)) <-> In k (effect_lits act)) /\
    (forall p e, In p (prenodes nd) -> In e (effnodes nd) -> p < e).
Proof.
  unfold new_PgNode_a, precond_s_nodes, effect_s_nodes.
  destruct (signed_nodes_spec (precond_pos act) (precond_neg act) h)
    as (pre & ss1 & -> & F1 & B1 & K1 & _).
  set (h1 := mkHeap (snodes h ++ ss1) (anodes h)).
  destruct (signed_nodes_spec (effect_add act) (effect_rem act) h1)
    as (eff & ss2 & -> & F2 & B2 & K2 & _).
  subst h1. cbn [snodes anodes] in *. rewrite <- app_assoc in K2.
  rewrite <- app_assoc.
  eexists (ss1 ++ ss2), _.
  split; [reflexivity |].
  cbn [action a_parents a_children a_mutex prenodes effnodes].
  split; [apply Forall_app; auto |].
  repeat (split; [reflexivity |]).
  split; [| split; [| split; [| split]]].
  - intros x Hx. apply B1 in Hx. rewrite length_app. lia.
  - intros x Hx. apply B2 in Hx. rewrite !length_app in *. lia.
  - intros k. rewrite <- K1. unfold skeys.
    erewrite map_ext_in; [reflexivity |].
    intros x Hx. apply B1 in Hx. unfold skey, get_s. cbn [snodes].
    rewrite app_assoc, app_nth1 by (rewrite length_app; lia). reflexivity.
  - intros k. rewrite <- K2. reflexivity.
  - intros p e Hp He. apply B1 in Hp. apply B2 in He.
    rewrite length_app in He. lia.
Qed.

(** ** [add_action_level] *)

Lemma admitted_ok_extend acts acts' Sk ns h h' ss n :
  snodes h' = snodes h ++ ss -> get_a h' n = get_a h n ->
  incl acts acts' ->
  admitted_ok acts Sk ns h n -> admitted_ok acts' Sk ns h' n.
Proof.
  intros Es Eg Hi (H1 & H2 & H3 & H4 & H5 & H6 & H7 & H8 & H9).
  unfold admitted_ok. rewrite Eg.
  assert (Kp : skeys h' (prenodes (get_a h n)) = skeys h (prenodes (get_a h n))).
  { apply skeys_agree. intros x Hx. eapply get_s_app_l; eauto. now apply H5. }
  assert (Ke : skeys h' (effnodes (get_a h n)) = skeys h (effnodes (get_a h n))).
  { apply skeys_agree. intros x Hx. eapply get_s_app_l; eauto. now apply H6. }
  rewrite Kp, Ke, Es, length_app.
  repeat split; auto; try (apply H5; assumption); try (apply H6; assumption);
    try (apply H7; assumption); try (apply H8; assumption).
  - apply H5 in H. lia.
  - apply H6 in H. lia.
Qed.

Lemma admit_action_spec (slevels : list (list sref)) (level : nat)
  (slevel : list sref) h0 done st act :
  py_index slevels level = Ok slevel ->
  (forall x, In x slevel -> x < length (snodes h0)) ->
  admit_inv h0 (skeys h0 slevel) done st ->
  exists st', admit_action slevels level st act = Ok st' /\
              admit_inv h0 (skeys h0 slevel) (done ++ [act]) st'.
Proof.
  intros Hidx Hsl ((ss & aa & Es & Fs & Ea) & Hacc & Hnd & Hcov & Hsep).
  destruct st as [h acc]. cbn [fst snd] in *.
  unfold admit_action. cbn [fst snd].
  destruct (new_PgNode_a_spec h act)
    as (ss' & nd & -> & F' & Eact & Epar & Ech & Emx & Bp & Be & Kp & Ke & Lt).
  cbv beta iota. rewrite Hidx. cbn [bind].
  set (n := length (anodes h)).
  set (h1 := mkHeap (snodes h ++ ss') (anodes h ++ [nd])) in *.
  assert (G1 : get_a h1 n = nd).
  { unfold get_a, h1, n. cbn [anodes]. apply nth_middle. }
  assert (Old1 : forall m, m < length (anodes h) -> get_a h1 m = get_a h m).
  { intros m Hm. eapply get_a_app_l; [reflexivity | exact Hm]. }
  assert (Ks : skeys h1 slevel = skeys h0 slevel).
  { apply skeys_agree. intros x Hx. apply Hsl in Hx.
    unfold get_s, h1. cbn [snodes]. rewrite Es, <- app_assoc.
    now apply app_nth1. }
  assert (Test : s_subset h1 (prenodes (get_a h1 n)) slevel = true <->
                 incl (precond_lits act) (skeys h0 slevel)).
  { rewrite s_subset_iff, G1, Ks. split; intros H k Hk.
    - apply H. now apply Kp.
    - apply H. now apply Kp. }
  assert (Ext : forall m, In m acc ->
            admitted_ok (done ++ [act]) (skeys h0 slevel)
              (length (snodes h0)) h1 m).
  { intros m Hm. destruct (Hacc m Hm) as [Hb Hok].
    eapply admitted_ok_extend with (h := h) (ss := ss');
      [reflexivity | apply Old1; lia | apply incl_appl, incl_refl | exact Hok]. }
  assert (Kacc : akeys h1 acc = akeys h acc).
  { apply akeys_agree. intros m Hm. apply Old1. apply Hacc in Hm. lia. }
  assert (OldB : forall m x, In m acc ->
            In x (prenodes (get_a h m)) \/ In x (effnodes (get_a h m)) ->
            x < length (snodes h)).
  { intros m x Hm Hx.
    destruct (Hacc m Hm) as (_ & _ & _ & _ & _ & B5 & B6 & _).
    destruct Hx as [Hx | Hx]; [apply B5 in Hx | apply B6 in Hx]; lia. }
  destruct (s_subset h1 (prenodes (get_a h1 n)) slevel) eqn:T.
  - set (h2 := mut_a h1 n (set_a_parents (prenodes (get_a h1 n)))).
    assert (L1 : n < length (anodes h1))
      by (unfold h1, n; cbn [anodes]; rewrite length_app; simpl; lia).
    assert (G2 : get_a h2 n = set_a_parents (prenodes nd) nd).
    { unfold h2. rewrite get_a_mut_a_same by exact L1. now rewrite G1. }
    assert (Old2 : forall m, m <> n -> get_a h2 m = get_a h1 m).
    { intros m Hm. unfold h2. now rewrite get_a_mut_a_other by congruence. }
    assert (Kacc2 : akeys h2 acc = akeys h acc).
    { rewrite <- Kacc. apply akeys_agree. intros m Hm. apply Old2.
      apply Hacc in Hm. unfold n. lia. }
    eexists. split; [reflexivity |]. unfold admit_inv. cbn [fst snd].
    split; [| split; [| split; [| split]]].
    + exists (ss ++ ss'), (aa ++ [set_a_parents (prenodes nd) nd]).
      split; [| split].
      * unfold h2, h1. cbn [snodes mut_a]. now rewrite Es, app_assoc.
      * apply Forall_app; auto.
      * unfold h2. rewrite G1. unfold h1, n. cbn [anodes mut_a].
        now rewrite upd_app_last, Ea, app_assoc.
    + intros m Hm. apply a_add_In in Hm. destruct Hm as [Hm | [-> _]].
      * destruct (Hacc m Hm) as [Hb _]. split.
        -- unfold h2. cbn [anodes mut_a]. rewrite length_upd.
           unfold h1. cbn [anodes]. rewrite length_app. lia.
        -- eapply admitted_ok_extend with (h := h1) (ss := []);
             [unfold h2; cbn [snodes mut_a]; now rewrite app_nil_r
             | apply Old2; unfold n; lia | apply incl_refl | now apply Ext].
      * split.
        -- unfold h2. cbn [anodes mut_a]. rewrite length_upd.
           split; [unfold n; rewrite Ea, length_app; lia | exact L1].
        -- unfold admitted_ok. rewrite G2.
           cbn [set_a_parents action a_parents prenodes effnodes a_children a_mutex].
           assert (Eh2 : forall l, skeys h2 l = skeys h1 l) by reflexivity.
           rewrite !Eh2, Eact.
           assert (Ls : length (snodes h2) = length (snodes h) + length ss')
             by (unfold h2, h1; cbn [snodes mut_a]; apply length_app).
           rewrite Ls.
           assert (Lh : length (snodes h0) <= length (snodes h))
             by (rewrite Es, length_app; lia).
           split; [apply in_or_app; right; now left |].
           split; [reflexivity |]. split; [exact Ech |]. split; [exact Emx |].
           split; [intros x Hx; apply Bp in Hx; lia |].
           split; [intros x Hx; apply Be in Hx; lia |].
           split; [exact Kp |]. split; [exact Ke |]. now apply Test.
    + apply a_add_NoDup. now rewrite Kacc2.
    + intros act' Hin Happ. apply a_add_keys.
      apply in_app_or in Hin. destruct Hin as [Hin | [<- | []]].
      * right. rewrite Kacc2. now apply Hcov.
      * left. unfold akey. rewrite G2.
        unfold a_key. cbn [set_a_parents action]. now rewrite Eact.
    + assert (Old : forall m, In m acc -> get_a h2 m = get_a h m).
      { intros m Hm. rewrite Old2, Old1; auto; apply Hacc in Hm; unfold n; lia. }
      intros n1 m1 p H1 H2 Hp He.
      apply a_add_In in H1. apply a_add_In in H2.
      destruct H1 as [H1 | [-> _]], H2 as [H2 | [-> _]].
      * rewrite (Old n1 H1) in Hp. rewrite (Old m1 H2) in He.
        exact (Hsep n1 m1 p H1 H2 Hp He).
      * rewrite (Old n1 H1) in Hp. rewrite G2 in He.
        cbn [set_a_parents effnodes] in He.
        pose proof (OldB n1 p H1 (or_introl Hp)). apply Be in He. lia.
      * rewrite G2 in Hp. rewrite (Old m1 H2) in He.
        cbn [set_a_parents prenodes] in Hp.
        pose proof (OldB m1 p H2 (or_intror He)). apply Bp in Hp. lia.
      * rewrite G2 in Hp, He. cbn [set_a_parents prenodes effnodes] in Hp, He.
        pose proof (Lt p p Hp He). lia.
  - eexists. split; [reflexivity |]. unfold admit_inv. cbn [fst snd].
    split; [| split; [| split; [| split]]].
    + exists (ss ++ ss'), (aa ++ [nd]). split; [| split].
      * unfold h1. cbn [snodes]. now rewrite Es, app_assoc.
      * apply Forall_app; auto.
      * unfold h1. cbn [anodes]. now rewrite Ea, app_assoc.
    + intros m Hm. destruct (Hacc m Hm) as [Hb _]. split; [| now apply Ext].
      unfold h1. cbn [anodes]. rewrite length_app. lia.
    + now rewrite Kacc.
    + intros act' Hin Happ. rewrite Kacc.
      apply in_app_or in Hin. destruct Hin as [Hin | [<- | []]].
      * now apply Hcov.
      * apply Test in Happ. discriminate.
    + intros n1 m1 p H1 H2 Hp He.
      rewrite Old1 in Hp by (apply Hacc in H1; lia).
      rewrite Old1 in He by (apply Hacc in H2; lia).
      exact (Hsep n1 m1 p H1 H2 Hp He).
Qed.

Lemma admit_loop_spec (slevels : list (list sref)) (level : nat)
  (slevel : list sref) h0 :
  py_index slevels level = Ok slevel ->
  (forall x, In x slevel -> x < length (snodes h0)) ->
  forall acts done st,
  admit_inv h0 (skeys h0 slevel) done st ->
  exists st', for_each (admit_action slevels level) acts st = Ok st' /\
              admit_inv h0 (skeys h0 slevel) (done ++ acts) st'.
Proof.
  intros Hidx Hsl. induction acts as [| act acts IH]; intros done st Hinv.
  - exists st. rewrite app_nil_r. split; [reflexivity | exact Hinv].
  - destruct (admit_action_spec slevels level slevel h0 done st act Hidx Hsl Hinv)
      as (st1 & E1 & Hinv1).
    destruct (IH (done ++ [act]) st1 Hinv1) as (st' & E' & Hinv').
    exists st'. cbn [for_each]. rewrite E1. cbn [bind].
    split; [exact E' |]. now rewrite <- app_assoc in Hinv'.
Qed.

Lemma add_action_level_spec (pg : PlanningGraph) (level : nat)
  (slevel : list sref) :
  py_index (s_levels pg) level = Ok slevel ->
  (forall x, In x slevel -> x < length (snodes (heap pg))) ->
  exists h1 La,
    add_action_level pg level
    = Ok (mkPG (problem pg) (fs pg) (serial pg) (all_actions pg)
            (s_levels pg) (a_levels pg ++ [La]) h1) /\
    admit_inv (heap pg) (skeys (heap pg) slevel) (all_actions pg) (h1, La).
Proof.
  intros Hidx Hsl.
  destruct (admit_loop_spec (s_levels pg) level slevel (heap pg) Hidx Hsl
              (all_actions pg) [] (heap pg, []))
    as ([h1 La] & E & Hinv).
  - split; [exists [], []; rewrite !app_nil_r; repeat split; constructor |].
    split; [intros n [] |]. split; [constructor |].
    split; [intros act [] | intros n m p []].
  - exists h1, La. unfold add_action_level. rewrite E. cbn [bind fst snd].
    split; [reflexivity | exact Hinv].
Qed.

(** ** [add_literal_level] *)

Lemma same_core_refl h : same_core h h.
Proof. repeat split. Qed.

Lemma same_core_trans h1 h2 h3 :
  same_core h1 h2 -> same_core h2 h3 -> same_core h1 h3.
Proof.
  intros (A1 & B1 & C1 & D1) (A2 & B2 & C2 & D2).
  split; [congruence | split; [congruence | split]]; intros i.
  - rewrite C2. apply C1.
  - rewrite D2. apply D1.
Qed.

Lemma same_core_skey h h' i : same_core h h' -> skey h' i = skey h i.
Proof.
  intros (_ & _ & C & _). specialize (C i). unfold skey, s_key, s_core in *.
  now inversion C.
Qed.

Lemma same_core_effnodes h h' i :
  same_core h h' -> effnodes (get_a h' i) = effnodes (get_a h i).
Proof.
  intros (_ & _ & _ & D). specialize (D i). unfold a_core in D.
  now inversion D.
Qed.

Lemma skeys_same_keys (h h' : Heap) (l : list sref) :
  (forall i, skey h' i = skey h i) -> skeys h' l = skeys h l.
Proof. intros E. unfold skeys. apply map_ext. exact E. Qed.

Lemma mut_a_child_core h n e : same_core h (mut_a h n (add_a_child e h)).
Proof.
  split; [reflexivity | split; [apply length_upd | split; [reflexivity |]]].
  intros i. destruct (Nat.eq_dec n i) as [-> | Hne].
  - destruct (Nat.lt_ge_cases i (length (anodes h))) as [Hlt | Hge].
    + now rewrite get_a_mut_a_same.
    + unfold get_a, mut_a; simpl. now rewrite upd_out.
  - now rewrite get_a_mut_a_other.
Qed.

Lemma mut_s_parent_core h nd an : same_core h (mut_s h nd (add_s_parent an h)).
Proof.
  split; [apply length_upd | split; [reflexivity | split; [| reflexivity]]].
  intros i. destruct (Nat.eq_dec nd i) as [-> | Hne].
  - destruct (Nat.lt_ge_cases i (length (snodes h))) as [Hlt | Hge].
    + now rewrite get_s_mut_s_same.
    + unfold get_s, mut_s; simpl. now rewrite upd_out.
  - now rewrite get_s_mut_s_other.
Qed.

Lemma skeys_snodes (h h' : Heap) (l : list sref) :
  snodes h' = snodes h -> skeys h' l = skeys h l.
Proof.
  intros E. apply skeys_same_keys. intros i. unfold skey, get_s. now rewrite E.
Qed.

Lemma skeys_enum (o : set_order) (h : Heap) (l : list sref) (k : lit) :
  In k (skeys h (enum o l)) <-> In k (skeys h l).
Proof.
  unfold skeys. rewrite !in_map_iff.
  split; intros [x [E Hx]]; exists x; (split; [exact E |]);
    now apply (enum_In o l x).
Qed.

(** The inner loop of the first pass: the effect nodes of one action node
    become its children and enter the new layer. *)
Lemma effects_loop_spec (n : aref) (es : list sref) :
  forall (h : Heap) (lits : list sref),
  exists h' lits',
    fold_left (fun st' e =>
        (mut_a (fst st') n (add_a_child e (fst st')),
         s_add (fst st') e (snd st'))) es (h, lits) = (h', lits') /\
    snodes h' = snodes h /\ same_core h h' /\
    (forall i, i <> n -> get_a h' i = get_a h i) /\
    (forall x, In x lits' -> In x lits \/ In x es) /\
    (forall k, In k (skeys h lits') <-> In k (skeys h lits) \/ In k (skeys h es)) /\
    (NoDup (skeys h lits) -> NoDup (skeys h lits')).
Proof.
  induction es as [| e es IH]; intros h lits.
  - exists h, lits. split; [reflexivity |]. split; [reflexivity |].
    split; [apply same_core_refl |]. split; [reflexivity |].
    split; [auto |]. split; [| auto]. intros k. simpl. tauto.
  - cbn [fold_left fst snd].
    set (h1 := mut_a h n (add_a_child e h)).
    destruct (IH h1 (s_add h e lits)) as (h' & lits' & E & Es & Hc & Ho & Hin & Hk & Hnd).
    assert (E1 : snodes h1 = snodes h) by reflexivity.
    exists h', lits'. split; [exact E |]. split; [congruence |].
    split; [eapply same_core_trans; [apply mut_a_child_core | exact Hc] |].
    split; [| split; [| split]].
    + intros i Hi. rewrite Ho by exact Hi. unfold h1.
      now rewrite get_a_mut_a_other by congruence.
    + intros x Hx. apply Hin in Hx. destruct Hx as [Hx | Hx].
      * apply s_add_In in Hx. destruct Hx as [Hx | [-> _]]; simpl; auto.
      * simpl; auto.
    + intros k. rewrite <- !(skeys_snodes h h1) by exact E1.
      rewrite Hk. rewrite !(skeys_snodes h h1) by exact E1.
      rewrite s_add_keys. simpl. intuition auto.
    + intros H. rewrite <- (skeys_snodes h h1) by exact E1.
      apply Hnd. rewrite (skeys_snodes h h1) by exact E1.
      now apply s_add_NoDup.
Qed.

(** The first pass of [add_literal_level]. *)
Lemma connect_effects_spec (o : set_order) (ns : list aref) :
  forall (h : Heap) (lits : list sref),
  exists h' lits',
    fold_left (connect_effects o) ns (h, lits) = (h', lits') /\
    snodes h' = snodes h /\ same_core h h' /\
    (forall i, ~ In i ns -> get_a h' i = get_a h i) /\
    (forall x, In x lits' ->
       In x lits \/ exists n, In n ns /\ In x (effnodes (get_a h n))) /\
    (forall k, In k (skeys h lits') <->
       In k (skeys h lits)
       \/ exists n, In n ns /\ In k (skeys h (effnodes (get_a h n)))) /\
    (NoDup (skeys h lits) -> NoDup (skeys h lits')).
Proof.
  induction ns as [| n ns IH]; intros h lits.
  - exists h, lits. split; [reflexivity |]. split; [reflexivity |].
    split; [apply same_core_refl |]. split; [reflexivity |].
    split; [auto |]. split; [| auto]. intros k. split; [auto |].
    intros [H | (n & [] & _)]. exact H.
  - cbn [fold_left]. unfold connect_effects at 2. cbn [fst snd].
    destruct (effects_loop_spec n (enum o (effnodes (get_a h n))) h lits)
      as (h1 & lits1 & -> & Es1 & Hc1 & Ho1 & Hin1 & Hk1 & Hnd1).
    destruct (IH h1 lits1) as (h' & lits' & E & Es & Hc & Ho & Hin & Hk & Hnd).
    assert (Eff : forall m, effnodes (get_a h1 m) = effnodes (get_a h m))
      by (intros m; now apply same_core_effnodes).
    exists h', lits'. split; [exact E |]. split; [congruence |].
    split; [eapply same_core_trans; eassumption |].
    split; [| split; [| split]].
    + intros i Hi. rewrite Ho by (intros H; apply Hi; now right).
      apply Ho1. intros ->. apply Hi. now left.
    + intros x Hx. apply Hin in Hx. destruct Hx as [Hx | (m & Hm & Hx)].
      * apply Hin1 in Hx. destruct Hx as [Hx | Hx]; [now left | right].
        exists n. split; [now left | now apply enum_In in Hx].
      * right. exists m. split; [now right | now rewrite <- Eff].
    + intros k. rewrite <- (skeys_snodes h h1) by exact Es1.
      rewrite Hk. rewrite (skeys_snodes h h1) by exact Es1.
      rewrite Hk1, skeys_enum. split.
      * intros [[H | H] | (m & Hm & H)]; [now left | right | right].
        -- exists n. split; [now left | exact H].
        -- exists m. split; [now right |].
           rewrite <- Eff, <- (skeys_snodes h h1) by exact Es1. exact H.
      * intros [H | (m & [-> | Hm] & H)]; [left; now left | left; now right |].
        right. exists m. split; [exact Hm |].
        rewrite Eff, (skeys_snodes h h1) by exact Es1. exact H.
    + intros H. rewrite <- (skeys_snodes h h1) by exact Es1.
      apply Hnd. rewrite (skeys_snodes h h1) by exact Es1. now apply Hnd1.
Qed.

Lemma a_add_nonempty (h : Heap) (x : aref) (set : list aref) :
  a_add h x set <> [].
Proof.
  unfold a_add. destruct (a_in h x set) eqn:E.
  - intros ->. discriminate.
  - destruct set; discriminate.
Qed.

(** The inner loop of the second pass: one fact node collects its
    parents. *)
Lemma parents_loop_spec (nd : sref) (ans : list aref) :
  forall (h : Heap),
  exists h',
    fold_left (fun h' an =>
        if s_in h' nd (effnodes (get_a h' an))
        then mut_s h' nd (add_s_parent an h')
        else h') ans h = h' /\
    anodes h' = anodes h /\ same_core h h' /\
    (forall i, i <> nd -> get_s h' i = get_s h i) /\
    (forall i, s_parents (get_s h i) <> [] -> s_parents (get_s h' i) <> []) /\
    (nd < length (snodes h) ->
     (exists an, In an ans /\ s_in h nd (effnodes (get_a h an)) = true) ->
     s_parents (get_s h' nd) <> []).
Proof.
  induction ans as [| an ans IH]; intros h.
  - exists h. split; [reflexivity |]. split; [reflexivity |].
    split; [apply same_core_refl |]. split; [reflexivity |]. split; [auto |].
    intros _ (an & [] & _).
  - cbn [fold_left].
    set (h1 := if s_in h nd (effnodes (get_a h an))
               then mut_s h nd (add_s_parent an h) else h).
    assert (C1 : same_core h h1).
    { unfold h1. destruct (s_in h nd (effnodes (get_a h an)));
        [apply mut_s_parent_core | apply same_core_refl]. }
    assert (A1 : anodes h1 = anodes h).
    { unfold h1. now destruct (s_in h nd (effnodes (get_a h an))). }
    assert (O1 : forall i, i <> nd -> get_s h1 i = get_s h i).
    { intros i Hi. unfold h1. destruct (s_in h nd (effnodes (get_a h an)));
        [now rewrite get_s_mut_s_other by congruence | reflexivity]. }
    assert (M1 : forall i, s_parents (get_s h i) <> [] ->
                           s_parents (get_s h1 i) <> []).
    { intros i Hi. unfold h1.
      destruct (s_in h nd (effnodes (get_a h an))); [| exact Hi].
      destruct (Nat.eq_dec nd i) as [-> | Hne].
      - destruct (Nat.lt_ge_cases i (length (snodes h))) as [Hlt | Hge].
        + rewrite get_s_mut_s_same by exact Hlt. apply a_add_nonempty.
        + unfold get_s, mut_s in *. simpl. now rewrite upd_out.
      - now rewrite get_s_mut_s_other. }
    destruct (IH h1) as (h' & E & Ea & Hc & Ho & Hm & Hw).
    exists h'. split; [exact E |]. split; [congruence |].
    split; [eapply same_core_trans; eassumption |].
    split; [intros i Hi; rewrite Ho by exact Hi; now apply O1 |].
    split; [intros i Hi; now apply Hm, M1 |].
    intros Hlt (an' & [<- | Hin] & Hs).
    + apply Hm. unfold h1. rewrite Hs.
      rewrite get_s_mut_s_same by exact Hlt. apply a_add_nonempty.
    + apply Hw.
      * destruct C1 as (L & _). now rewrite L.
      * exists an'. split; [exact Hin |].
        rewrite (same_core_effnodes h h1 an' C1).
        rewrite (s_in_ext h h1); [exact Hs |].
        intros i. now apply same_core_skey.
Qed.

(** The second pass of [add_literal_level]. *)
Lemma connect_parents_spec (o : set_order) (alevel : list aref)
  (nds : list sref) :
  forall (h : Heap),
  exists h',
    fold_left (connect_parents o alevel) nds h = h' /\
    anodes h' = anodes h /\ same_core h h' /\
    (forall i, ~ In i nds -> get_s h' i = get_s h i) /\
    (forall i, s_parents (get_s h i) <> [] -> s_parents (get_s h' i) <> []) /\
    (forall nd, In nd nds -> nd < length (snodes h) ->
       (exists an, In an alevel /\ s_in h nd (effnodes (get_a h an)) = true) ->
       s_parents (get_s h' nd) <> []).
Proof.
  induction nds as [| nd nds IH]; intros h.
  - exists h. split; [reflexivity |]. split; [reflexivity |].
    split; [apply same_core_refl |]. split; [reflexivity |]. split; [auto |].
    intros nd [].
  - cbn [fold_left]. unfold connect_parents at 2.
    destruct (parents_loop_spec nd (enum o alevel) h)
      as (h1 & -> & A1 & C1 & O1 & M1 & W1).
    destruct (IH h1) as (h' & E & Ea & Hc & Ho & Hm & Hw).
    exists h'. split; [exact E |]. split; [congruence |].
    split; [eapply same_core_trans; eassumption |].
    split; [| split].
    + intros i Hi. rewrite Ho by (intros H; apply Hi; now right).
      apply O1. intros ->. apply Hi. now left.
    + intros i Hi. now apply Hm, M1.
    + intros nd' Hin Hlt (an & Han & Hs).
      destruct (Nat.eq_dec nd' nd) as [-> | Hne].
      * apply Hm, W1; [exact Hlt |]. exists an. split; [| exact Hs].
        now apply enum_In.
      * destruct Hin as [-> | Hin]; [congruence |].
        apply Hw; [exact Hin | destruct C1 as (L & _); now rewrite L |].
        exists an. split; [exact Han |].
        rewrite (same_core_effnodes h h1 an C1).
        rewrite (s_in_ext h h1); [exact Hs |].
        intros i. now apply same_core_skey.
Qed.

Lemma add_literal_level_spec (o : set_order) (pg : PlanningGraph)
  (level : nat) (alevel : list aref) :
  py_index_pred (a_levels pg) level = Ok alevel ->
  exists h3 Sn,
    add_literal_level o pg level
    = Ok (mkPG (problem pg) (fs pg) (serial pg) (all_actions pg)
            (s_levels pg ++ [Sn]) (a_levels pg) h3) /\
    same_core (heap pg) h3 /\
    (forall i, ~ In i alevel -> get_a h3 i = get_a (heap pg) i) /\
    (forall i, ~ In i Sn -> get_s h3 i = get_s (heap pg) i) /\
    (forall x, In x Sn ->
       exists n, In n alevel /\ In x (effnodes (get_a (heap pg) n))) /\
    (forall k, In k (skeys (heap pg) Sn) <->
       exists n, In n alevel /\
                 In k (skeys (heap pg) (effnodes (get_a (heap pg) n)))) /\
    NoDup (skeys (heap pg) Sn) /\
    ((forall n x, In n alevel -> In x (effnodes (get_a (heap pg) n)) ->
        x < length (snodes (heap pg))) ->
     forall x, In x Sn -> s_parents (get_s h3 x) <> []).
Proof.
  intros Hidx. unfold add_literal_level. rewrite Hidx. cbn [bind].
  set (h := heap pg).
  destruct (connect_effects_spec o (enum o alevel) h [])
    as (h2 & Sn & -> & Es & Hc2 & Ho2 & Hin2 & Hk2 & Hnd2).
  cbn [fst snd].
  destruct (connect_parents_spec o alevel (enum o Sn) h2)
    as (h3 & -> & Ea & Hc3 & Ho3 & Hm3 & Hw3).
  exists h3, Sn. split; [reflexivity |].
  split; [eapply same_core_trans; eassumption |].
  assert (HSn : forall x, In x Sn ->
            exists n, In n alevel /\ In x (effnodes (get_a h n))).
  { intros x Hx. destruct (Hin2 x Hx) as [[] | (n & Hn & He)].
    exists n. split; [now apply enum_In in Hn | exact He]. }
  split; [| split; [| split; [exact HSn | split; [| split]]]].
  - intros i Hi. unfold get_a. rewrite Ea. apply Ho2.
    intros H. apply Hi. now apply enum_In in H.
  - intros i Hi. rewrite Ho3 by (intros H; apply Hi; now apply enum_In in H).
    unfold get_s. now rewrite Es.
  - intros k. rewrite Hk2. split.
    + intros [[] | (n & Hn & H)]. exists n. split; [now apply enum_In in Hn | exact H].
    + intros (n & Hn & H). right. exists n. split; [now apply enum_In | exact H].
  - apply Hnd2. constructor.
  - intros Hb x Hx. apply Hw3.
    + now apply enum_In.
    + destruct (HSn x Hx) as (n & Hn & He). rewrite Es. eapply Hb; eauto.
    + destruct (HSn x Hx) as (n & Hn & He). exists n. split; [exact Hn |].
      rewrite (same_core_effnodes h h2 n Hc2). now apply s_in_self.
Qed.

(** ** The invariant of the construction *)

Lemma agree_refl h : agree h h.
Proof. repeat split; auto. Qed.

Lemma agree_trans h1 h2 h3 : agree h1 h2 -> agree h2 h3 -> agree h1 h3.
Proof.
  intros (A1 & B1 & C1 & D1) (A2 & B2 & C2 & D2).
  split; [lia | split; [lia | split]]; intros i Hi.
  - rewrite C2 by lia. now apply C1.
  - rewrite D2 by lia. now apply D1.
Qed.

Lemma s_layer_ok_valid h L x : s_layer_ok h L -> In x L -> x < length (snodes h).
Proof. intros (Hv & _) Hx. now apply Hv. Qed.

Lemma a_layer_ok_valid h L x : a_layer_ok h L -> In x L -> x < length (anodes h).
Proof. intros (Hv & _) Hx. now apply Hv. Qed.

Lemma s_layer_ok_agree h h' L : agree h h' -> s_layer_ok h L -> s_layer_ok h' L.
Proof.
  intros (A & _ & C & _) Hok.
  pose proof (fun x => s_layer_ok_valid h L x Hok) as Hv.
  revert Hok. apply layer_ok_ext.
  - intros n Hn. unfold s_mx. now rewrite C by auto.
  - intros n Hn. unfold skey. now rewrite C by auto.
  - intros n Hn. unfold s_valid. lia.
Qed.

Lemma a_layer_ok_agree h h' L : agree h h' -> a_layer_ok h L -> a_layer_ok h' L.
Proof.
  intros (_ & B & _ & D) Hok.
  pose proof (fun x => a_layer_ok_valid h L x Hok) as Hv.
  revert Hok. apply layer_ok_ext.
  - intros n Hn. unfold a_mx. now rewrite D by auto.
  - intros n Hn. unfold akey. now rewrite D by auto.
  - intros n Hn. unfold a_valid. lia.
Qed.

Lemma skeys_agree_valid h h' L :
  agree h h' -> (forall x, In x L -> x < length (snodes h)) ->
  skeys h' L = skeys h L.
Proof.
  intros (_ & _ & C & _) Hv. apply skeys_agree. intros x Hx. apply C. auto.
Qed.

Lemma akeys_agree_valid h h' L :
  agree h h' -> (forall x, In x L -> x < length (anodes h)) ->
  akeys h' L = akeys h L.
Proof.
  intros (_ & _ & _ & D) Hv. apply akeys_agree. intros x Hx. apply D. auto.
Qed.

Lemma fact_layer0_agree h h' fs0 S0 :
  agree h h' -> s_layer_ok h S0 ->
  fact_layer0 h fs0 S0 -> fact_layer0 h' fs0 S0.
Proof.
  intros Ha Hok (Hk & Hf).
  pose proof (fun x => s_layer_ok_valid h S0 x Hok) as Hv.
  split.
  - intros k. rewrite (skeys_agree_valid h h' S0 Ha Hv). apply Hk.
  - intros s Hs. destruct Ha as (_ & _ & C & _). rewrite C by auto. auto.
Qed.

Lemma fact_layer_later_agree h h' Sl :
  agree h h' -> s_layer_ok h Sl ->
  fact_layer_later h Sl -> fact_layer_later h' Sl.
Proof.
  intros (_ & _ & C & _) Hok (Hp & Hn).
  pose proof (fun x => s_layer_ok_valid h Sl x Hok) as Hv.
  split.
  - intros s Hs. rewrite C by auto. auto.
  - intros s1 s2 H1 H2. unfold s_mx. rewrite !C by auto. now apply Hn.
Qed.

Lemma action_layer_agree h h' acts ser Sl La Sn :
  agree h h' -> s_layer_ok h Sl -> s_layer_ok h Sn ->
  action_layer h acts ser Sl La Sn -> action_layer h' acts ser Sl La Sn.
Proof.
  intros Ha HSl HSn (Hok & Hn & Hcov & Hser & Heff & Hpriv).
  pose proof (fun x => s_layer_ok_valid h Sl x HSl) as VSl.
  pose proof (fun x => s_layer_ok_valid h Sn x HSn) as VSn.
  pose proof (fun x => a_layer_ok_valid h La x Hok) as VLa.
  pose proof Ha as (A & B & C & D).
  assert (G : forall n, In n La -> get_a h' n = get_a h n) by (intros; auto).
  split; [now apply (a_layer_ok_agree h h') |].
  split; [| split; [| split; [| split]]].
  - intros n Hin. rewrite (G n Hin).
    destruct (Hn n Hin) as (H1 & H2 & H3 & H4 & H5).
    rewrite (skeys_agree_valid h h' _ Ha H3).
    rewrite (skeys_agree_valid h h' Sl Ha VSl).
    repeat split; auto; try (apply H4; assumption).
    intros x Hx. apply H3 in Hx. lia.
  - intros act Hin Happ. rewrite (akeys_agree_valid h h' La Ha VLa).
    apply Hcov; [exact Hin |]. now rewrite <- (skeys_agree_valid h h' Sl Ha VSl).
  - intros Hs n1 n2 H1 H2 Hne. unfold a_mx. rewrite !G by assumption.
    now apply Hser.
  - intros k. rewrite (skeys_agree_valid h h' Sn Ha VSn), Heff.
    split; intros (n & Hin & Hk); exists n; (split; [exact Hin |]).
    + now rewrite G.
    + now rewrite <- G.
  - intros n p Hin Hp. rewrite (G n Hin) in Hp.
    destruct (Hn n Hin) as (_ & H2 & H3 & _).
    rewrite C by (apply H3; now rewrite <- H2).
    now apply (Hpriv n p).
Qed.

(** ** One pass of the loop *)

Lemma a_static_sig n m : a_static n = a_static m -> a_sig n = a_sig m.
Proof. unfold a_static, a_sig. intros E. now inversion E. Qed.

Lemma a_core_sig n m : a_core n = a_core m -> a_sig n = a_sig m.
Proof. unfold a_core, a_sig. intros E. now inversion E. Qed.

Lemma a_sig_fields n m :
  a_sig n = a_sig m ->
  action n = action m /\ prenodes n = prenodes m /\ effnodes n = effnodes m /\
  is_persistent n = is_persistent m /\ a_parents n = a_parents m.
Proof. unfold a_sig. intros E. inversion E. auto. Qed.

Lemma a_sig_key n m : a_sig n = a_sig m -> a_key n = a_key m.
Proof. intros E. apply a_sig_fields in E as (E & _). unfold a_key. now rewrite E. Qed.

Lemma fresh_new (h0 h1 : Heap) (ss : list PgNode_s) (x : sref) :
  snodes h1 = snodes h0 ++ ss -> Forall fresh_s ss ->
  length (snodes h0) <= x < length (snodes h1) -> fresh_s (get_s h1 x).
Proof.
  intros E F Hx. unfold get_s. rewrite E in *. rewrite length_app in Hx.
  rewrite app_nth2 by lia. rewrite Forall_forall in F. apply F.
  apply nth_In. lia.
Qed.

Lemma negation_forced (o : set_order) (h : Heap) (a b : sref) :
  symbol (get_s h a) = symbol (get_s h b) ->
  is_pos (get_s h a) = negb (is_pos (get_s h b)) ->
  s_mutex_test o h a b = true /\ s_mutex_test o h b a = true.
Proof.
  intros Es Ep. unfold s_mutex_test, negation_mutex.
  rewrite Es, Ep, expr_eqb_refl.
  destruct (is_pos (get_s h b)); simpl; auto.
Qed.

Lemma serial_forced (o : set_order) (h : Heap) (a b : aref) :
  is_persistent (get_a h a) = false -> is_persistent (get_a h b) = false ->
  a_mutex_test o true h a b = true /\ a_mutex_test o true h b a = true.
Proof.
  intros Ea Eb. unfold a_mutex_test, serialize_actions.
  rewrite Ea, Eb. simpl. auto.
Qed.

Lemma nth_error_snoc {A} (l : list A) (x : A) (i : nat) (y : A) :
  nth_error (l ++ [x]) i = Some y ->
  (i < length l /\ nth_error l i = Some y) \/ (i = length l /\ y = x).
Proof.
  intros H. destruct (Nat.lt_ge_cases i (length l)) as [Hlt | Hge].
  - left. split; [exact Hlt |]. now rewrite nth_error_app1 in H.
  - right. rewrite nth_error_app2 in H by exact Hge.
    destruct (i - length l) as [| j] eqn:E.
    + simpl in H. inversion H. split; [lia | reflexivity].
    + simpl in H. destruct j; discriminate.
Qed.

Lemma nth_error_last {A} (l : list A) (x : A) :
  nth_error (l ++ [x]) (length l) = Some x.
Proof. rewrite nth_error_app2, Nat.sub_diag by lia. reflexivity. Qed.

Lemma grow_spec (o : set_order) (pg : PlanningGraph) :
  graph_inv pg ->
  exists La Sn Sl h',
    grow o pg (length (a_levels pg))
    = Ok (mkPG (problem pg) (fs pg) (serial pg) (all_actions pg)
            (s_levels pg ++ [Sn]) (a_levels pg ++ [La]) h',
          s_set_eq h' Sn Sl) /\
    nth_error (s_levels pg) (length (a_levels pg)) = Some Sl /\
    agree (heap pg) h' /\
    graph_inv (mkPG (problem pg) (fs pg) (serial pg) (all_actions pg)
                 (s_levels pg ++ [Sn]) (a_levels pg ++ [La]) h').
Proof.
  intros (H0 & Hlen & HS & HL & HA).
  set (level := length (a_levels pg)) in *.
  set (h0 := heap pg) in *.
  destruct (nth_error (s_levels pg) level) as [Sl |] eqn:ESl;
    [| apply nth_error_None in ESl; lia].
  pose proof (HS level Sl ESl) as OkSl.
  pose proof (fun x => s_layer_ok_valid h0 Sl x OkSl) as VSl.
  (* the action layer *)
  destruct (add_action_level_spec pg level Sl) as (h1 & La & E1 & Hinv1);
    [unfold py_index; now rewrite ESl | exact VSl |].
  destruct Hinv1 as ((ss & aa & Es1 & Fs1 & Ea1) & Hacc & Hnd1 & Hcov1 & Hsep1).
  cbn [fst snd] in *. fold h0 in Es1, Ea1, Hacc, Hcov1.
  assert (OkA1 : a_layer_ok h1 La).
  { split; [| split; [| split]].
    - intros n Hn. apply Hacc in Hn. unfold a_valid. lia.
    - exact Hnd1.
    - intros n Hn. destruct (Hacc n Hn) as (_ & _ & _ & _ & Mn & _).
      unfold a_mx. rewrite Mn. intros y [].
    - intros n m Hn Hm. unfold a_mx.
      destruct (Hacc n Hn) as (_ & _ & _ & _ & Mn & _).
      destruct (Hacc m Hm) as (_ & _ & _ & _ & Mm & _).
      rewrite Mn, Mm. simpl. tauto. }
  (* its mutexes *)
  destruct (update_a_mutex_spec o (serial pg) La h1 OkA1)
    as (h2 & E2 & Hs2 & OkA2 & Ho2 & Hm2 & Hf2).
  (* the fact layer *)
  destruct (add_literal_level_spec o
              (mkPG (problem pg) (fs pg) (serial pg) (all_actions pg)
                 (s_levels pg) (a_levels pg ++ [La]) h2) (level + 1) La)
    as (h3 & Sn & E3 & Hc3 & Hoa3 & Hos3 & HSn & Hk3 & Hnd3 & Hpar3).
  { rewrite Nat.add_1_r. cbn [py_index_pred a_levels]. unfold py_index, level.
    now rewrite nth_error_last. }
  cbn [heap problem fs serial all_actions s_levels a_levels] in *.
  (* how the stores of the four steps relate *)
  pose proof Hs2 as (Es2 & La2 & St2).
  pose proof Hc3 as (Ls3 & La3 & Sc3 & Ac3).
  assert (K21 : forall i, skey h2 i = skey h1 i)
    by (intros i; unfold skey, get_s; now rewrite Es2).
  assert (K31 : forall i, skey h3 i = skey h1 i)
    by (intros i; rewrite (same_core_skey h2 h3 i Hc3); apply K21).
  assert (Sig21 : forall i, a_sig (get_a h2 i) = a_sig (get_a h1 i))
    by (intros i; apply a_static_sig, St2).
  assert (Sig31 : forall i, a_sig (get_a h3 i) = a_sig (get_a h1 i))
    by (intros i; rewrite <- Sig21; apply a_core_sig, Ac3).
  assert (BLa : forall n, In n La -> length (anodes h0) <= n < length (anodes h1))
    by (intros n Hn; now apply Hacc).
  assert (BSn : forall x, In x Sn -> length (snodes h0) <= x < length (snodes h1)).
  { intros x Hx. destruct (HSn x Hx) as (n & Hn & He).
    destruct (a_sig_fields _ _ (Sig21 n)) as (_ & _ & Ee & _).
    rewrite Ee in He.
    destruct (Hacc n Hn) as (_ & _ & _ & _ & _ & _ & Be & _). now apply Be. }
  assert (Fr3 : forall x, In x Sn -> s_mutex (get_s h3 x) = []).
  { intros x Hx. specialize (Sc3 x). unfold s_core in Sc3.
    assert (E : s_mutex (get_s h3 x) = s_mutex (get_s h2 x)) by now inversion Sc3.
    rewrite E. unfold get_s. rewrite Es2.
    now destruct (fresh_new h0 h1 ss x Es1 Fs1 (BSn x Hx)) as (_ & _ & M). }
  assert (OkS3 : s_layer_ok h3 Sn).
  { split; [| split; [| split]].
    - intros x Hx. apply BSn in Hx. unfold s_valid. rewrite Ls3, Es2. lia.
    - change (NoDup (skeys h3 Sn)).
      rewrite (skeys_same_keys h2 h3 Sn (fun i => same_core_skey h2 h3 i Hc3)).
      exact Hnd3.
    - intros x Hx. unfold s_mx. rewrite (Fr3 x Hx). intros y [].
    - intros x y Hx Hy. unfold s_mx. rewrite (Fr3 x Hx), (Fr3 y Hy).
      simpl. tauto. }
  (* its mutexes *)
  destruct (update_s_mutex_spec o Sn h3 OkS3)
    as (h4 & E4 & Hs4 & OkS4 & Ho4 & Hm4 & Hf4).
  pose proof Hs4 as (Ea4 & Ls4 & St4).
  assert (K41 : forall i, skey h4 i = skey h1 i)
    by (intros i; rewrite (same_but_s_mutex_key h3 h4 i Hs4); apply K31).
  assert (G43 : forall i, get_a h4 i = get_a h3 i)
    by (intros i; unfold get_a; now rewrite Ea4).
  assert (Sig41 : forall i, a_sig (get_a h4 i) = a_sig (get_a h1 i))
    by (intros i; rewrite G43; apply Sig31).
  assert (Mx42 : forall i, a_mutex (get_a h4 i) = a_mutex (get_a h2 i)).
  { intros i. rewrite G43. specialize (Ac3 i). unfold a_core in Ac3.
    now inversion Ac3. }
  assert (Ag : agree h0 h4).
  { split; [rewrite Ls4, Ls3, Es2, Es1, length_app; lia |].
    split; [rewrite Ea4, La3, La2, Ea1, length_app; lia |]. split.
    - intros i Hi.
      assert (Hn : ~ In i Sn) by (intros H; apply BSn in H; lia).
      rewrite (Ho4 i Hn), (Hos3 i Hn). unfold get_s at 1. rewrite Es2.
      eapply get_s_app_l; eauto.
    - intros i Hi.
      assert (Hn : ~ In i La) by (intros H; apply BLa in H; lia).
      rewrite G43, (Hoa3 i Hn), (Ho2 i Hn). eapply get_a_app_l; eauto. }
  assert (KSl : skeys h4 Sl = skeys h0 Sl)
    by (apply skeys_agree_valid; assumption).
  assert (KSl1 : skeys h1 Sl = skeys h0 Sl).
  { apply skeys_agree. intros x Hx. eapply get_s_app_l; eauto. }
  exists La, Sn, Sl, h4.
  split; [| split; [reflexivity | split; [exact Ag |]]].
  - unfold grow. rewrite E1. cbn [bind a_levels serial heap with_heap
      problem fs all_actions s_levels].
    unfold py_index at 1. fold level. unfold level at 1.
    rewrite nth_error_last. cbn [bind]. rewrite E2. cbn [bind].
    fold level. unfold with_heap at 1.
    cbn [a_levels serial heap problem fs all_actions s_levels].
    rewrite E3. cbn [bind]. unfold with_heap.
    cbn [a_levels serial heap problem fs all_actions s_levels].
    unfold py_index at 1. rewrite Nat.add_1_r.
    replace (S level) with (length (s_levels pg)) by (unfold level; lia).
    rewrite nth_error_last. cbn [bind]. rewrite E4. cbn [bind].
    replace (length (s_levels pg)) with (S level) by (unfold level; lia).
    cbn [py_index_pred]. unfold py_index.
    rewrite nth_error_app1 by (apply nth_error_Some; congruence).
    rewrite ESl. reflexivity.
  - unfold graph_inv. cbn [heap problem fs serial all_actions s_levels a_levels].
    split; [| split; [| split; [| split]]].
    + destruct H0 as (S0 & E0 & F0). exists S0. split.
      * rewrite nth_error_app1; [exact E0 | apply nth_error_Some; congruence].
      * eapply fact_layer0_agree; eauto.
    + rewrite !length_app. simpl. lia.
    + intros l Sl' Hl. apply nth_error_snoc in Hl.
      destruct Hl as [[_ Hl] | [_ ->]]; [| exact OkS4].
      eapply s_layer_ok_agree; eauto.
    + intros l Sl' Hl. apply nth_error_snoc in Hl.
      destruct Hl as [[_ Hl] | [_ ->]].
      * eapply fact_layer_later_agree; eauto.
      * split.
        -- intros s Hs. specialize (St4 s). unfold s_static in St4.
           assert (E : s_parents (get_s h4 s) = s_parents (get_s h3 s))
             by now inversion St4.
           rewrite E. apply Hpar3; [| exact Hs].
           intros n x Hn Hx.
           destruct (a_sig_fields _ _ (Sig21 n)) as (_ & _ & Ee & _).
           rewrite Ee in Hx. rewrite Es2.
           destruct (Hacc n Hn) as (_ & _ & _ & _ & _ & _ & Be & _).
           now apply Be.
        -- intros s1 s2 H1 H2 Esym Epos.
           apply (Hf4 s1 s2 H1 H2).
           ++ intros ->. destruct (is_pos (get_s h4 s2)); discriminate.
           ++ intros h'' Hs''. apply negation_forced.
              ** destruct Hs'' as (_ & _ & St'').
                 pose proof (St'' s1) as A1. pose proof (St'' s2) as A2.
                 pose proof (St4 s1) as B1. pose proof (St4 s2) as B2.
                 unfold s_static in *.
                 inversion A1; inversion A2; inversion B1; inversion B2.
                 congruence.
              ** destruct Hs'' as (_ & _ & St'').
                 pose proof (St'' s1) as A1. pose proof (St'' s2) as A2.
                 pose proof (St4 s1) as B1. pose proof (St4 s2) as B2.
                 unfold s_static in *.
                 inversion A1; inversion A2; inversion B1; inversion B2.
                 congruence.
    + intros l La' Sl' Sn' HLa HSl' HSn'.
      apply nth_error_snoc in HLa. destruct HLa as [[Hlt HLa] | [El ->]].
      * assert (HSn'' : nth_error (s_levels pg) (S l) = Some Sn').
        { rewrite nth_error_app1 in HSn' by (fold level in Hlt; lia).
          exact HSn'. }
        assert (HSl'' : nth_error (s_levels pg) l = Some Sl').
        { rewrite nth_error_app1 in HSl' by (fold level in Hlt; lia).
          exact HSl'. }
        eapply action_layer_agree; eauto.
      * fold level in El. subst l.
        rewrite nth_error_app1 in HSl' by lia.
        rewrite ESl in HSl'. inversion HSl'; subst Sl'.
        replace (S level) with (length (s_levels pg)) in HSn' by lia.
        rewrite nth_error_last in HSn'. inversion HSn'; subst Sn'.
        split; [| split; [| split; [| split; [| split]]]].
        -- revert OkA2. apply layer_ok_ext.
           ++ intros n Hn. unfold a_mx. apply Mx42.
           ++ intros n Hn. unfold akey. apply a_sig_key.
              rewrite Sig41. symmetry. apply Sig21.
           ++ intros n Hn. unfold a_valid. rewrite Ea4, La3. auto.
        -- intros n Hn.
           destruct (a_sig_fields _ _ (Sig41 n)) as (Eact & Epre & _ & _ & Epar).
           destruct (Hacc n Hn)
             as (_ & Hin & Hpar & _ & _ & Bp & _ & Kp & _ & Happ).
           rewrite Eact, Epre, Epar, KSl.
           rewrite (skeys_same_keys h1 h4 _ K41).
           split; [exact Hin |]. split; [exact Hpar |].
           split; [| split; [exact Kp | exact Happ]].
           intros x Hx. apply Bp in Hx. rewrite Ls4, Ls3, Es2. lia.
        -- intros act Hin Happ. rewrite KSl in Happ.
           assert (EK : akeys h4 La = akeys h1 La).
           { unfold akeys. apply map_ext. intros n. unfold akey.
             apply a_sig_key, Sig41. }
           rewrite EK. now apply Hcov1.
        -- intros Hser n1 n2 H1 H2 Hne P1 P2.
           unfold a_mx. rewrite Mx42.
           apply (Hf2 n1 n2 H1 H2 Hne). intros h'' Hs''. rewrite Hser.
           destruct Hs'' as (_ & _ & St'').
           destruct (a_sig_fields _ _ (Sig41 n1)) as (_ & _ & _ & Q1 & _).
           destruct (a_sig_fields _ _ (Sig41 n2)) as (_ & _ & _ & Q2 & _).
           destruct (a_sig_fields _ _ (a_static_sig _ _ (St'' n1)))
             as (_ & _ & _ & R1 & _).
           destruct (a_sig_fields _ _ (a_static_sig _ _ (St'' n2)))
             as (_ & _ & _ & R2 & _).
           apply serial_forced; congruence.
        -- intros k.
           rewrite (skeys_same_keys h1 h4 Sn K41).
           rewrite <- (skeys_same_keys h1 h2 Sn K21).
           rewrite Hk3. split; intros (n & Hn & Hk); exists n;
             (split; [exact Hn |]);
             destruct (a_sig_fields _ _ (Sig21 n)) as (_ & _ & Ee & _);
             destruct (a_sig_fields _ _ (Sig41 n)) as (Eact & _);
             destruct (Hacc n Hn) as (_ & _ & _ & _ & _ & _ & _ & _ & Ke & _).
           ++ rewrite Eact. apply Ke.
              rewrite <- (skeys_same_keys h1 h2 _ K21), <- Ee. exact Hk.
           ++ rewrite Eact in Hk. apply Ke in Hk.
              rewrite (skeys_same_keys h1 h2 _ K21), Ee. exact Hk.
        -- intros n p Hn Hp.
           destruct (a_sig_fields _ _ (Sig41 n)) as (_ & _ & _ & _ & Epar).
           destruct (Hacc n Hn) as (_ & _ & Hpar & _ & _ & Bp & _).
           rewrite Epar, Hpar in Hp.
           assert (NSn : ~ In p Sn).
           { intros Hin. destruct (HSn p Hin) as (m & Hm & He).
             destruct (a_sig_fields _ _ (Sig21 m)) as (_ & _ & Ee & _).
             rewrite Ee in He. exact (Hsep1 n m p Hn Hm Hp He). }
           split.
           ++ rewrite (Ho4 p NSn). specialize (Sc3 p). unfold s_core in Sc3.
              assert (E : s_mutex (get_s h3 p) = s_mutex (get_s h2 p))
                by now inversion Sc3.
              rewrite E. unfold get_s. rewrite Es2.
              now destruct (fresh_new h0 h1 ss p Es1 Fs1 (Bp p Hp)) as (_ & _ & M).
           ++ intros Hin. apply VSl in Hin. apply Bp in Hp. lia.
Qed.

(** ** The loop *)

Lemma s_set_eq_keys (h h' : Heap) (a b : list sref) :
  skeys h' a = skeys h a -> skeys h' b = skeys h b ->
  s_set_eq h' a b = s_set_eq h a b.
Proof.
  intros Ea Eb. apply eq_true_iff_eq. now rewrite !s_set_eq_iff, Ea, Eb.
Qed.

Lemma s_set_eq_agree (pg : PlanningGraph) (h' : Heap) l1 l2 A B :
  graph_inv pg -> agree (heap pg) h' ->
  nth_error (s_levels pg) l1 = Some A ->
  nth_error (s_levels pg) l2 = Some B ->
  s_set_eq h' A B = s_set_eq (heap pg) A B.
Proof.
  intros (_ & _ & HS & _) Ha HA HB.
  apply s_set_eq_keys; apply skeys_agree_valid; try exact Ha;
    intros x Hx.
  - apply (s_layer_ok_valid (heap pg) A x (HS l1 A HA) Hx).
  - apply (s_layer_ok_valid (heap pg) B x (HS l2 B HB) Hx).
Qed.

Lemma create_loop_spec (o : set_order) :
  forall fuel pg r,
  graph_inv pg -> no_repeat pg ->
  create_loop o fuel pg (length (a_levels pg)) = Some r ->
  exists pg', r = Ok pg' /\ graph_inv pg' /\ leveled pg' /\
              same_params pg pg' /\ agree (heap pg) (heap pg') /\
              exists Sn more, s_levels pg' = s_levels pg ++ Sn :: more.
Proof.
  induction fuel as [| fuel IH]; intros pg r Hinv Hnr Hrun; [discriminate |].
  cbn [create_loop] in Hrun.
  destruct (grow_spec o pg Hinv) as (La & Sn & Sl & h' & Eg & ESl & Ag & Hinv').
  rewrite Eg in Hrun.
  set (pg1 := mkPG (problem pg) (fs pg) (serial pg) (all_actions pg)
                (s_levels pg ++ [Sn]) (a_levels pg ++ [La]) h') in *.
  pose proof Hinv as (_ & Hlen & _).
  assert (Old : forall l A B,
            nth_error (s_levels pg) l = Some A ->
            nth_error (s_levels pg) (S l) = Some B ->
            s_set_eq h' B A = false).
  { intros l A B HA HB. rewrite (s_set_eq_agree pg h' (S l) l B A); eauto. }
  assert (Pairs : forall l A B,
            nth_error (s_levels pg ++ [Sn]) l = Some A ->
            nth_error (s_levels pg ++ [Sn]) (S l) = Some B ->
            (S l < length (s_levels pg) /\
             nth_error (s_levels pg) l = Some A /\
             nth_error (s_levels pg) (S l) = Some B)
            \/ (S l = length (s_levels pg) /\ A = Sl /\ B = Sn)).
  { intros l A B HA HB. apply nth_error_snoc in HB.
    destruct HB as [[Hlt HB] | [El ->]].
    - left. rewrite nth_error_app1 in HA by lia. auto.
    - right. rewrite nth_error_app1 in HA by lia.
      assert (l = length (a_levels pg)) as -> by lia.
      rewrite ESl in HA. inversion HA. auto. }
  destruct (s_set_eq h' Sn Sl) eqn:B.
  - inversion Hrun; subst r. exists pg1. split; [reflexivity |].
    split; [exact Hinv' |]. split; [| split; [| split]].
    + intros l A B' HA HB. cbn [s_levels heap pg1] in *.
      rewrite length_app. simpl.
      destruct (Pairs l A B' HA HB) as [(Hlt & HA' & HB') | (El & -> & ->)].
      * rewrite (Old l A B' HA' HB'). split; [discriminate | lia].
      * rewrite B. split; [lia | reflexivity].
    + repeat split.
    + exact Ag.
    + exists Sn, []. reflexivity.
  - assert (Hnr1 : no_repeat pg1).
    { intros l A B' HA HB. cbn [s_levels heap pg1] in *.
      destruct (Pairs l A B' HA HB) as [(Hlt & HA' & HB') | (El & -> & ->)].
      - exact (Old l A B' HA' HB').
      - exact B. }
    assert (El : length (a_levels pg) + 1 = length (a_levels pg1))
      by (cbn [a_levels pg1]; now rewrite length_app).
    rewrite El in Hrun.
    destruct (IH pg1 r Hinv' Hnr1 Hrun)
      as (pg' & Er & Hi & Hl & Hp & Ha & (Sn' & more & Em)).
    exists pg'. split; [exact Er |]. split; [exact Hi |].
    split; [exact Hl |]. split; [exact Hp |].
    split; [eapply agree_trans; [exact Ag | exact Ha] |].
    exists Sn, (Sn' :: more). rewrite Em. cbn [s_levels pg1].
    now rewrite <- app_assoc.
Qed.

(** The graph at the head of the loop. *)
Lemma initial_inv (pb : Problem) (fs0 : FluentState) (ser : bool)
  (acts : list Action) (h : Heap) :
  exists S0 h0,
    add_s_nodes (neg fs0) false (add_s_nodes (pos fs0) true ([], h))
    = (S0, h0) /\
    graph_inv (mkPG pb fs0 ser acts [S0] [] h0) /\
    no_repeat (mkPG pb fs0 ser acts [S0] [] h0).
Proof.
  destruct (signed_nodes_spec (pos fs0) (neg fs0) h)
    as (S0 & ss & E & F & B & K & D).
  set (h0 := mkHeap (snodes h ++ ss) (anodes h)) in *.
  exists S0, h0. split; [exact E |].
  assert (Fr : forall s, In s S0 -> fresh_s (get_s h0 s)).
  { intros s Hs. apply (fresh_new h h0 ss s); [reflexivity | exact F |].
    apply B in Hs. unfold h0. cbn [snodes]. rewrite length_app. lia. }
  split.
  - split; [| split; [| split; [| split]]]; cbn [s_levels a_levels heap fs].
    + exists S0. split; [reflexivity |]. split; [exact K | exact Fr].
    + reflexivity.
    + intros l Sl Hl. destruct l as [| l]; [| destruct l; discriminate].
      inversion Hl; subst Sl. split; [| split; [| split]].
      * intros s Hs. apply B in Hs. unfold s_valid, h0. cbn [snodes].
        rewrite length_app. lia.
      * exact D.
      * intros s Hs. unfold s_mx. destruct (Fr s Hs) as (_ & _ & ->).
        intros y [].
      * intros s t Hs Ht. unfold s_mx.
        destruct (Fr s Hs) as (_ & _ & ->). destruct (Fr t Ht) as (_ & _ & ->).
        simpl. tauto.
    + intros l Sl Hl. destruct l; discriminate.
    + intros l La Sl Sn Hl. destruct l; discriminate.
  - intros l A B' HA HB. cbn [s_levels] in HB. destruct l; discriminate.
Qed.

(** ** What every constructed graph satisfies *)

Lemma built_inv (o : set_order) (fuel : nat) (pb : Problem)
  (state : list bool) (ser : bool) (r : result PlanningGraph) :
  PlanningGraph_init o fuel pb state ser = Some r ->
  exists pg, r = Ok pg /\ graph_inv pg /\ leveled pg /\
    problem pg = pb /\ fs pg = decode_state state (state_map pb) /\
    serial pg = ser /\
    all_actions pg = actions_list pb ++ noop_actions (state_map pb) /\
    2 <= length (s_levels pg).
Proof.
  unfold PlanningGraph_init, create_graph.
  cbn [s_levels a_levels length Nat.eqb negb orb fs heap problem serial
       all_actions].
  destruct (initial_inv pb (decode_state state (state_map pb)) ser
              (actions_list pb ++ noop_actions (state_map pb)) empty_heap)
    as (S0 & h0 & E & Hinv & Hnr).
  rewrite E. cbn [fst snd]. intros Hrun.
  destruct (create_loop_spec o fuel _ r Hinv Hnr Hrun)
    as (pg & Er & Hi & Hl & (P1 & P2 & P3 & P4) & _ & (Sn & more & Em)).
  cbn [problem fs serial all_actions s_levels] in P1, P2, P3, P4, Em.
  exists pg. split; [exact Er |]. split; [exact Hi |]. split; [exact Hl |].
  repeat (split; [assumption |]). rewrite Em. simpl. lia.
Qed.

Lemma is_mutex_s_layer (h : Heap) (L : list sref) (a b : sref) :
  s_layer_ok h L -> In a L -> In b L ->
  (is_mutex h (SNode a) (SNode b) = true <-> In b (s_mx h a)).
Proof.
  intros Hok Ha Hb. cbn [is_mutex]. rewrite s_in_iff.
  apply (layer_member s_mx skey s_valid h L a b Hok Ha Hb).
Qed.

Lemma is_mutex_a_layer (h : Heap) (L : list aref) (a b : aref) :
  a_layer_ok h L -> In a L -> In b L ->
  (is_mutex h (ANode a) (ANode b) = true <-> In b (a_mx h a)).
Proof.
  intros Hok Ha Hb. cbn [is_mutex]. rewrite a_in_iff.
  apply (layer_member a_mx akey a_valid h L a b Hok Ha Hb).
Qed.

Lemma enum_nil (o : set_order) : enum o [] = [].
Proof. apply Permutation_nil, Permutation_sym, enum_perm. Qed.

Lemma a_levels_have_facts (pg : PlanningGraph) (l : nat) (La : list aref) :
  graph_inv pg -> nth_error (a_levels pg) l = Some La ->
  exists Sl Sn, nth_error (s_levels pg) l = Some Sl /\
                nth_error (s_levels pg) (S l) = Some Sn.
Proof.
  intros (_ & Hlen & _) HLa.
  assert (Hl : l < length (a_levels pg)) by (apply nth_error_Some; congruence).
  destruct (nth_error (s_levels pg) l) as [Sl |] eqn:E1;
    [| apply nth_error_None in E1; lia].
  destruct (nth_error (s_levels pg) (S l)) as [Sn |] eqn:E2;
    [| apply nth_error_None in E2; lia].
  eauto.
Qed.

(** ** Growth of the fact layers *)

Lemma decode_state_fluents (state : list bool) (fm : list Expr) (f : Expr) :
  In f (pos (decode_state state fm)) \/ In f (neg (decode_state state fm)) ->
  In f fm.
Proof.
  revert fm; induction state as [| b state IH]; intros [| g fm]; simpl;
    try tauto.
  specialize (IH fm).
  destruct b; cbn [pos neg In]; intros H; intuition auto.
Qed.

Lemma noop_actions_present (fm : list Expr) (f : Expr) (p : bool) :
  In f fm ->
  exists act, In act (noop_actions fm) /\
              precond_lits act = [(f, p)] /\ effect_lits act = [(f, p)].
Proof.
  intros Hf. destruct p.
  - exists (mkAction "Noop_pos" [f] [f] [] [f] []). split; [| split; reflexivity].
    unfold noop_actions. apply in_flat_map. exists f. simpl. auto.
  - exists (mkAction "Noop_neg" [f] [] [f] [] [f]). split; [| split; reflexivity].
    unfold noop_actions. apply in_flat_map. exists f. simpl. auto.
Qed.

Lemma persistence_of_init (pb : Problem) (state : list bool) :
  persistence_present (decode_state state (state_map pb))
    (actions_list pb ++ noop_actions (state_map pb)).
Proof.
  intros [f p] Hk.
  assert (Hf : In f (state_map pb)).
  { apply (decode_state_fluents state). apply in_app_or in Hk.
    unfold lits_of in Hk. rewrite !in_map_iff in Hk.
    destruct Hk as [(e & E & He) | (e & E & He)]; inversion E; subst; auto. }
  destruct (noop_actions_present (state_map pb) f p Hf) as (act & Hin & Hp & He).
  exists act. split; [apply in_or_app; now right | auto].
Qed.

(** The content of a fact layer is the set of signed effects of the
    actions applicable in the layer before it. *)
Lemma layer_step (pg : PlanningGraph) (l : nat) (Sl Sn : list sref) (k : lit) :
  graph_inv pg -> catalog_consistent (all_actions pg) ->
  nth_error (s_levels pg) l = Some Sl ->
  nth_error (s_levels pg) (S l) = Some Sn ->
  (In k (skeys (heap pg) Sn) <->
   exists act, In act (all_actions pg) /\
               incl (precond_lits act) (skeys (heap pg) Sl) /\
               In k (effect_lits act)).
Proof.
  intros Hinv Hcat HSl HSn.
  pose proof Hinv as (_ & Hlen & _ & _ & HA).
  destruct (nth_error (a_levels pg) l) as [La |] eqn:HLa.
  2:{ apply nth_error_None in HLa.
      assert (S l < length (s_levels pg)) by (apply nth_error_Some; congruence).
      lia. }
  destruct (HA l La Sl Sn HLa HSl HSn) as (Hok & Hn & Hcov & _ & Heff & _).
  rewrite Heff. split.
  - intros (n & Hin & Hk). exists (action (get_a (heap pg) n)).
    destruct (Hn n Hin) as (H1 & _ & _ & _ & H5). auto.
  - intros (act & Hin & Happ & Hk).
    pose proof (Hcov act Hin Happ) as Hkey.
    unfold akeys in Hkey. apply in_map_iff in Hkey as (n & Ek & Hn').
    exists n. split; [exact Hn' |].
    destruct (Hn n Hn') as (H1 & _).
    rewrite (Hcat (action (get_a (heap pg) n)) act H1 Hin Ek). exact Hk.
Qed.

(** Fact layers never shrink. *)
Lemma layers_grow (pg : PlanningGraph) :
  graph_inv pg -> catalog_consistent (all_actions pg) ->
  persistence_present (fs pg) (all_actions pg) ->
  forall l Sl Sn,
    nth_error (s_levels pg) l = Some Sl ->
    nth_error (s_levels pg) (S l) = Some Sn ->
    incl (skeys (heap pg) Sl) (skeys (heap pg) Sn).
Proof.
  intros Hinv Hcat Hper. induction l as [| l IH]; intros Sl Sn HSl HSn k Hk.
  - pose proof Hinv as ((S0 & E0 & (K0 & _)) & _).
    rewrite HSl in E0. inversion E0; subst S0.
    destruct (Hper k (proj1 (K0 k) Hk)) as (act & Hin & Hp & He).
    apply (layer_step pg 0 Sl Sn k); auto.
    exists act. split; [exact Hin |]. rewrite Hp, He. split; [| now left].
    intros k' [<- | []]. exact Hk.
  - destruct (nth_error (s_levels pg) l) as [Sp |] eqn:HSp.
    2:{ apply nth_error_None in HSp.
        assert (S l < length (s_levels pg)) by (apply nth_error_Some; congruence).
        lia. }
    apply (layer_step pg l Sp Sl k Hinv Hcat HSp HSl) in Hk.
    destruct Hk as (act & Hin & Happ & Hk).
    apply (layer_step pg (S l) Sl Sn k Hinv Hcat HSl HSn).
    exists act. split; [exact Hin |]. split; [| exact Hk].
    intros k' Hk'. apply (IH Sp Sl eq_refl HSl). now apply Happ.
Qed.

Lemma layer_in_universe (pg : PlanningGraph) (l : nat) (Sl : list sref) :
  graph_inv pg -> nth_error (s_levels pg) l = Some Sl ->
  incl (skeys (heap pg) Sl) (distinct_literals (fs pg) (all_actions pg)).
Proof.
  intros Hinv HSl k Hk. unfold distinct_literals. apply nodup_In.
  destruct l as [| l].
  - destruct Hinv as ((S0 & E0 & (K0 & _)) & _).
    rewrite HSl in E0. inversion E0; subst S0. apply K0 in Hk.
    rewrite app_assoc. apply in_or_app. now left.
  - pose proof Hinv as (_ & Hlen & _ & _ & HA).
    assert (Hl : S l < length (s_levels pg)) by (apply nth_error_Some; congruence).
    destruct (nth_error (a_levels pg) l) as [La |] eqn:HLa;
      [| apply nth_error_None in HLa; lia].
    destruct (nth_error (s_levels pg) l) as [Sp |] eqn:HSp;
      [| apply nth_error_None in HSp; lia].
    destruct (HA l La Sp Sl HLa HSp HSl) as (_ & Hn & _ & _ & Heff & _).
    apply Heff in Hk as (n & Hin & Hk).
    destruct (Hn n Hin) as (H1 & _).
    apply in_or_app. right. apply in_or_app. right.
    apply in_flat_map. eauto.
Qed.

Lemma create_loop_more_fuel (o : set_order) :
  forall fuel fuel' pg level r,
  fuel <= fuel' ->
  create_loop o fuel pg level = Some r ->
  create_loop o fuel' pg level = Some r.
Proof.
  induction fuel as [| fuel IH]; intros fuel' pg level r Hle Hrun;
    [discriminate |].
  destruct fuel' as [| fuel']; [lia |].
  cbn [create_loop] in *.
  destruct (grow o pg level) as [[pg1 b] | e]; [| exact Hrun].
  destruct b; [exact Hrun |]. apply (IH fuel'); [lia | exact Hrun].
Qed.

(** The loop stops: each pass that does not stop adds a literal. *)
Lemma create_loop_terminates (o : set_order) :
  forall fuel pg Sl,
  graph_inv pg ->
  catalog_consistent (all_actions pg) ->
  persistence_present (fs pg) (all_actions pg) ->
  nth_error (s_levels pg) (length (a_levels pg)) = Some Sl ->
  length (distinct_literals (fs pg) (all_actions pg)) - length Sl < fuel ->
  exists pg',
    create_loop o fuel pg (length (a_levels pg)) = Some (Ok pg') /\
    length (s_levels pg') + length Sl
    <= length (s_levels pg)
       + length (distinct_literals (fs pg) (all_actions pg)) + 1.
Proof.
  induction fuel as [| fuel IH]; intros pg Sl Hinv Hcat Hper HSl Hfuel; [lia |].
  destruct (grow_spec o pg Hinv) as (La & Sn & Sl' & h' & Eg & ESl & Ag & Hinv').
  rewrite HSl in ESl. inversion ESl; subst Sl'. clear ESl.
  set (pg1 := mkPG (problem pg) (fs pg) (serial pg) (all_actions pg)
                (s_levels pg ++ [Sn]) (a_levels pg ++ [La]) h') in *.
  pose proof Hinv as (_ & Hlen & _).
  assert (HSl1 : nth_error (s_levels pg1) (length (a_levels pg)) = Some Sl).
  { cbn [pg1 s_levels]. rewrite nth_error_app1 by lia. exact HSl. }
  assert (HSn1 : nth_error (s_levels pg1) (S (length (a_levels pg))) = Some Sn).
  { cbn [pg1 s_levels]. rewrite <- Hlen. apply nth_error_last. }
  assert (USl : length Sl <= length (distinct_literals (fs pg) (all_actions pg))).
  { pose proof (layer_in_universe pg1 _ Sl Hinv' HSl1) as Hi.
    destruct Hinv' as (_ & _ & HS' & _).
    destruct (HS' _ Sl HSl1) as (_ & Hnd & _).
    apply NoDup_incl_length in Hi; [| exact Hnd].
    unfold skeys in Hi. now rewrite length_map in Hi. }
  cbn [create_loop]. rewrite Eg.
  destruct (s_set_eq h' Sn Sl) eqn:B.
  - exists pg1. split; [reflexivity |]. cbn [pg1 s_levels].
    rewrite length_app. simpl. lia.
  - assert (Hgrow : incl (skeys h' Sl) (skeys h' Sn)).
    { apply (layers_grow pg1 Hinv' Hcat Hper _ Sl Sn HSl1 HSn1). }
    assert (Hlt : length Sl < length Sn).
    { destruct (Nat.lt_ge_cases (length Sl) (length Sn)) as [H | H];
        [exact H | exfalso].
      assert (Hback : incl (skeys h' Sn) (skeys h' Sl)).
      { destruct Hinv' as (_ & _ & HS' & _).
        destruct (HS' _ Sl HSl1) as (_ & Hnd & _).
        apply NoDup_length_incl; [exact Hnd | | exact Hgrow].
        unfold skeys. now rewrite !length_map. }
      assert (T : s_set_eq h' Sn Sl = true) by (apply s_set_eq_iff; auto).
      congruence. }
    assert (USn : length Sn <= length (distinct_literals (fs pg) (all_actions pg))).
    { pose proof (layer_in_universe pg1 _ Sn Hinv' HSn1) as Hi.
      destruct Hinv' as (_ & _ & HS' & _).
      destruct (HS' _ Sn HSn1) as (_ & Hnd & _).
      apply NoDup_incl_length in Hi; [| exact Hnd].
      unfold skeys in Hi. now rewrite length_map in Hi. }
    assert (El : length (a_levels pg) + 1 = length (a_levels pg1))
      by (cbn [a_levels pg1]; now rewrite length_app).
    rewrite El.
    destruct (IH pg1 Sn Hinv' Hcat Hper) as (pg' & Erun & Hb).
    + rewrite <- El, Nat.add_1_r. exact HSn1.
    + cbn [pg1 fs all_actions]. lia.
    + exists pg'. split; [exact Erun |].
      cbn [pg1 fs all_actions s_levels] in Hb. rewrite length_app in Hb.
      simpl in Hb. lia.
Qed.

(** The iteration order of sets changes the references of a graph, not
    the content of its layers: the cake graph built with sets iterated
    backwards has the fact layers of [cake_graph]. *)
Example cake_layers_any_order :
  match PlanningGraph_init reverse_order 10 cake [true; false] true with
  | Some (Ok pg) =>
      map (fun l => length l) (s_levels pg) = [2; 4; 4] /\
      map (fun l => length l) (s_levels cake_graph) = [2; 4; 4] /\
      forallb (fun '(l, l') =>
                 forallb (fun k => if in_dec lit_eq_dec k
                                        (skeys (heap cake_graph) l')
                                   then true else false)
                         (skeys (heap pg) l))
              (combine (s_levels pg) (s_levels cake_graph)) = true
  | _ => False
  end.
Proof. vm_compute. repeat split. Qed.

(** * The statements of the specification *)

(** C9.  Fact layer 0 of a constructed graph holds exactly one node per
    decoded literal of the start state, positive for the positive
    literals and negative for the negative ones, and every one of these
    nodes has empty parents, children and mutex sets, also after the whole
    construction. *)
Theorem level0_identity (o : set_order) (fuel : nat) (pb : Problem)
  (state : list bool) (ser : bool) (pg : PlanningGraph) :
  PlanningGraph_init o fuel pb state ser = Some (Ok pg) ->
  exists S0,
    nth_error (s_levels pg) 0 = Some S0 /\
    (forall k, In k (skeys (heap pg) S0) <->
       In k (lits_of (pos (decode_state state (state_map pb))) true
             ++ lits_of (neg (decode_state state (state_map pb))) false)) /\
    NoDup (skeys (heap pg) S0) /\
    (forall s, In s S0 ->
       s_parents (get_s (heap pg) s) = [] /\
       s_children (get_s (heap pg) s) = [] /\
       s_mutex (get_s (heap pg) s) = []).
Proof.
  intros Hrun.
  destruct (built_inv o fuel pb state ser _ Hrun)
    as (pg' & E & Hinv & _ & _ & Efs & _).
  inversion E; subst pg'. clear E.
  destruct Hinv as ((S0 & E0 & (K0 & F0)) & _ & HS & _).
  exists S0. split; [exact E0 |]. rewrite <- Efs. split; [exact K0 |].
  split; [| exact F0].
  now destruct (HS 0 S0 E0) as (_ & Hnd & _).
Qed.

Lemma level0_identity_witness :
  exists S0,
    nth_error (s_levels cake_graph) 0 = Some S0 /\
    (forall k, In k (skeys (heap cake_graph) S0) <->
       In k (lits_of (pos (decode_state [true; false] (state_map cake))) true
             ++ lits_of (neg (decode_state [true; false] (state_map cake)))
                  false)) /\
    NoDup (skeys (heap cake_graph) S0) /\
    (forall s, In s S0 ->
       s_parents (get_s (heap cake_graph) s) = [] /\
       s_children (get_s (heap cake_graph) s) = [] /\
       s_mutex (get_s (heap cake_graph) s) = []).
Proof.
  apply (level0_identity insertion_order 10 cake [true; false] true cake_graph).
  vm_compute. reflexivity.
Defined.

(** C5.  In a graph constructed with [serial_planning] true, any two
    distinct action nodes of one action layer that are both
    non-persistence actions are mutex (each is in the other's mutex set);
    and the serial test itself answers False as soon as one of the two
    actions is a persistence action. *)
Theorem serial_exclusivity (o : set_order) (fuel : nat) (pb : Problem)
  (state : list bool) (pg : PlanningGraph) :
  PlanningGraph_init o fuel pb state true = Some (Ok pg) ->
  (forall l La n1 n2,
     nth_error (a_levels pg) l = Some La -> In n1 La -> In n2 La ->
     n1 <> n2 ->
     is_persistent (get_a (heap pg) n1) = false ->
     is_persistent (get_a (heap pg) n2) = false ->
     is_mutex (heap pg) (ANode n1) (ANode n2) = true /\
     is_mutex (heap pg) (ANode n2) (ANode n1) = true) /\
  (forall ser h n1 n2,
     is_persistent (get_a h n1) = true \/ is_persistent (get_a h n2) = true ->
     serialize_actions ser h n1 n2 = false).
Proof.
  intros Hrun.
  destruct (built_inv o fuel pb state true _ Hrun)
    as (pg' & E & Hinv & _ & _ & _ & Eser & _).
  inversion E; subst pg'. clear E. split.
  - intros l La n1 n2 HLa H1 H2 Hne P1 P2.
    destruct (a_levels_have_facts pg l La Hinv HLa) as (Sl & Sn & HSl & HSn).
    destruct Hinv as (_ & _ & _ & _ & HA).
    destruct (HA l La Sl Sn HLa HSl HSn) as (Hok & _ & _ & Hser & _).
    split; apply a_in_self.
    + apply (Hser Eser n1 n2); auto.
    + apply (Hser Eser n2 n1); auto.
  - intros ser h n1 n2 Hp. unfold serialize_actions.
    destruct ser; [| reflexivity]. simpl.
    destruct Hp as [-> | ->]; [reflexivity |].
    now rewrite orb_true_r.
Qed.

Lemma serial_exclusivity_witness :
  is_mutex (heap cake_graph) (ANode 6) (ANode 7) = true /\
  is_mutex (heap cake_graph) (ANode 7) (ANode 6) = true.
Proof.
  refine (proj1 (serial_exclusivity insertion_order 10 cake [true; false]
                   cake_graph _) 1 [6; 7; 8; 9; 10; 11] 6 7 _ _ _ _ _ _);
    try (vm_compute; reflexivity); try (simpl; tauto); lia.
Defined.

(** C8.  In every fact layer after layer 0 of a constructed graph, two
    nodes that carry the same fluent with opposite polarities pass the
    negation test and are mutex, each in the other's mutex set. *)
Theorem negation_always_mutex (o : set_order) (fuel : nat) (pb : Problem)
  (state : list bool) (ser : bool) (pg : PlanningGraph) :
  PlanningGraph_init o fuel pb state ser = Some (Ok pg) ->
  forall l Sl s1 s2,
    nth_error (s_levels pg) (S l) = Some Sl -> In s1 Sl -> In s2 Sl ->
    symbol (get_s (heap pg) s1) = symbol (get_s (heap pg) s2) ->
    is_pos (get_s (heap pg) s1) = true ->
    is_pos (get_s (heap pg) s2) = false ->
    negation_mutex (heap pg) s1 s2 = true /\
    is_mutex (heap pg) (SNode s1) (SNode s2) = true /\
    is_mutex (heap pg) (SNode s2) (SNode s1) = true.
Proof.
  intros Hrun l Sl s1 s2 HSl H1 H2 Esym P1 P2.
  destruct (built_inv o fuel pb state ser _ Hrun) as (pg' & E & Hinv & _).
  inversion E; subst pg'. clear E.
  destruct Hinv as (_ & _ & _ & HL & _).
  destruct (HL l Sl HSl) as (_ & Hneg).
  split; [| split].
  - unfold negation_mutex. rewrite Esym, P1, P2, expr_eqb_refl. reflexivity.
  - apply s_in_self. apply (Hneg s1 s2); auto. now rewrite P1, P2.
  - apply s_in_self. apply (Hneg s2 s1); auto. now rewrite P1, P2.
Qed.

Lemma negation_always_mutex_witness :
  negation_mutex (heap cake_graph) 8 4 = true /\
  is_mutex (heap cake_graph) (SNode 8) (SNode 4) = true /\
  is_mutex (heap cake_graph) (SNode 4) (SNode 8) = true.
Proof.
  refine (negation_always_mutex insertion_order 10 cake [true; false] true
            cake_graph _ 0 [3; 4; 8; 14] 8 4 _ _ _ _ _ _);
    try (vm_compute; reflexivity); simpl; tauto.
Defined.

Lemma cake_catalog :
  catalog_consistent (actions_list cake ++ noop_actions (state_map cake)).
Proof.
  intros a b Ha Hb E. simpl in Ha, Hb.
  repeat (destruct Ha as [<- | Ha]; [| try contradiction]);
    repeat (destruct Hb as [<- | Hb]; [| try contradiction]);
    first [reflexivity | discriminate E].
Qed.

(** C7 as stated fails: the catalog of [homonyms] holds two actions K
    without preconditions, the first adding X and the second adding Y.
    The preconditions of the second hold, vacuously, in every fact layer,
    and no node of any action layer wraps it: its node is equal, by name
    and arguments, to the node of the first, which the layer set already
    holds.  The literal Y never enters a fact layer. *)
Lemma same_key_action_left_out :
  PlanningGraph_init insertion_order 10 homonyms [false; false] true
  = Some (Ok homonyms_graph) /\
  In K_Y (actions_list homonyms ++ noop_actions (state_map homonyms)) /\
  s_levels homonyms_graph = [[0; 1]; [2; 7; 11]; [12; 17; 21]] /\
  a_levels homonyms_graph = [[0; 3; 5]; [6; 8; 9; 11]] /\
  Forall (fun Sl =>
            (let '(new_action_node, h1) :=
               new_PgNode_a (heap homonyms_graph) K_Y in
             s_subset h1 (prenodes (get_a h1 new_action_node)) Sl = true) /\
            incl (precond_lits K_Y) (skeys (heap homonyms_graph) Sl) /\
            ~ In (Atom "Y", true) (skeys (heap homonyms_graph) Sl))
    (s_levels homonyms_graph) /\
  Forall (Forall (fun n => action (get_a (heap homonyms_graph) n) <> K_Y))
    (a_levels homonyms_graph).
Proof.
  split; [vm_compute; reflexivity |].
  split; [simpl; tauto |].
  split; [reflexivity |]. split; [reflexivity |]. split.
  - repeat constructor; try (intros x []);
      vm_compute; intuition discriminate.
  - repeat constructor; vm_compute; discriminate.
Qed.

(** C7 (as amended).  At every level of a constructed graph: every action
    node of the action layer wraps an action of the catalog (ground
    actions and no-ops) whose signed preconditions are all present, by
    content, in the fact layer of the same level, and its parents are its
    prenodes; every action of the catalog whose signed preconditions are
    all present is represented in the layer by a node equal to it (name
    and arguments).  When name and arguments identify the actions of the
    catalog, an action is admitted if and only if its preconditions are
    present. *)
Theorem admission_iff_preconditions (o : set_order) (fuel : nat)
  (pb : Problem) (state : list bool) (ser : bool) (pg : PlanningGraph) :
  PlanningGraph_init o fuel pb state ser = Some (Ok pg) ->
  forall l La, nth_error (a_levels pg) l = Some La ->
  exists Sl,
    nth_error (s_levels pg) l = Some Sl /\
    (forall n, In n La ->
       In (action (get_a (heap pg) n))
          (actions_list pb ++ noop_actions (state_map pb)) /\
       s_subset (heap pg) (prenodes (get_a (heap pg) n)) Sl = true /\
       a_parents (get_a (heap pg) n) = prenodes (get_a (heap pg) n) /\
       (forall k, In k (skeys (heap pg) (prenodes (get_a (heap pg) n))) <->
                  In k (precond_lits (action (get_a (heap pg) n))))) /\
    (forall act,
       In act (actions_list pb ++ noop_actions (state_map pb)) ->
       incl (precond_lits act) (skeys (heap pg) Sl) ->
       exists n, In n La /\ akey (heap pg) n = key_of act) /\
    (catalog_consistent (actions_list pb ++ noop_actions (state_map pb)) ->
     forall act,
       In act (actions_list pb ++ noop_actions (state_map pb)) ->
       ((exists n, In n La /\ action (get_a (heap pg) n) = act) <->
        incl (precond_lits act) (skeys (heap pg) Sl))).
Proof.
  intros Hrun l La HLa.
  destruct (built_inv o fuel pb state ser _ Hrun)
    as (pg' & E & Hinv & _ & _ & _ & _ & Eacts & _).
  inversion E; subst pg'. clear E.
  destruct (a_levels_have_facts pg l La Hinv HLa) as (Sl & Sn & HSl & HSn).
  destruct Hinv as (_ & _ & _ & _ & HA).
  destruct (HA l La Sl Sn HLa HSl HSn) as (_ & Hn & Hcov & _).
  rewrite Eacts in *.
  assert (Cov : forall act,
            In act (actions_list pb ++ noop_actions (state_map pb)) ->
            incl (precond_lits act) (skeys (heap pg) Sl) ->
            exists n, In n La /\ akey (heap pg) n = key_of act).
  { intros act Hin Happ. specialize (Hcov act Hin Happ).
    unfold akeys in Hcov. apply in_map_iff in Hcov as (n & Ek & Hn').
    eauto. }
  exists Sl. split; [exact HSl |]. split; [| split; [exact Cov |]].
  - intros n Hin. destruct (Hn n Hin) as (H1 & H2 & _ & H4 & H5).
    split; [exact H1 |]. split; [| split; [exact H2 | exact H4]].
    apply s_subset_iff. intros k Hk. apply H5. now apply H4.
  - intros Hcat act Hin. split.
    + intros (n & Hn' & <-). now destruct (Hn n Hn') as (_ & _ & _ & _ & H5).
    + intros Happ. destruct (Cov act Hin Happ) as (n & Hn' & Ek).
      exists n. split; [exact Hn' |].
      destruct (Hn n Hn') as (H1 & _). now apply Hcat.
Qed.

Lemma admission_iff_preconditions_witness :
  (exists n, In n [0; 2; 5] /\ action (get_a (heap cake_graph) n) = Bake) <->
  incl (precond_lits Bake) (skeys (heap cake_graph) [0; 1]).
Proof.
  destruct (admission_iff_preconditions insertion_order 10 cake [true; false]
              true cake_graph ltac:(vm_compute; reflexivity) 0 [0; 2; 5]
              ltac:(vm_compute; reflexivity))
    as (Sl & ESl & _ & _ & Hiff).
  assert (Sl = [0; 1]) as -> by (vm_compute in ESl; congruence).
  apply (Hiff cake_catalog Bake). simpl. tauto.
Defined.

(** C6 (as amended).  In a constructed graph mutual exclusion is symmetric
    among the nodes of one layer: for two fact nodes of the same fact
    layer, or two action nodes of the same action layer, [is_mutex] gives
    the same answer in both directions. *)
Theorem mutex_symmetric_among_siblings (o : set_order) (fuel : nat)
  (pb : Problem) (state : list bool) (ser : bool) (pg : PlanningGraph) :
  PlanningGraph_init o fuel pb state ser = Some (Ok pg) ->
  (forall l Sl a b,
     nth_error (s_levels pg) l = Some Sl -> In a Sl -> In b Sl ->
     is_mutex (heap pg) (SNode a) (SNode b)
     = is_mutex (heap pg) (SNode b) (SNode a)) /\
  (forall l La a b,
     nth_error (a_levels pg) l = Some La -> In a La -> In b La ->
     is_mutex (heap pg) (ANode a) (ANode b)
     = is_mutex (heap pg) (ANode b) (ANode a)).
Proof.
  intros Hrun.
  destruct (built_inv o fuel pb state ser _ Hrun) as (pg' & E & Hinv & _).
  inversion E; subst pg'. clear E. split.
  - intros l Sl a b HSl Ha Hb.
    destruct Hinv as (_ & _ & HS & _). pose proof (HS l Sl HSl) as Hok.
    apply eq_true_iff_eq.
    rewrite (is_mutex_s_layer _ Sl a b Hok Ha Hb).
    rewrite (is_mutex_s_layer _ Sl b a Hok Hb Ha).
    destruct Hok as (_ & _ & _ & Hsym). now apply Hsym.
  - intros l La a b HLa Ha Hb.
    destruct (a_levels_have_facts pg l La Hinv HLa) as (Sl & Sn & HSl & HSn).
    destruct Hinv as (_ & _ & _ & _ & HA).
    destruct (HA l La Sl Sn HLa HSl HSn) as (Hok & _).
    apply eq_true_iff_eq.
    rewrite (is_mutex_a_layer _ La a b Hok Ha Hb).
    rewrite (is_mutex_a_layer _ La b a Hok Hb Ha).
    destruct Hok as (_ & _ & _ & Hsym). now apply Hsym.
Qed.

Lemma mutex_symmetric_among_siblings_witness :
  is_mutex (heap cake_graph) (SNode 8) (SNode 3)
  = is_mutex (heap cake_graph) (SNode 3) (SNode 8).
Proof.
  refine (proj1 (mutex_symmetric_among_siblings insertion_order 10 cake
                   [true; false] true cake_graph _) 1 [3; 4; 8; 14] 8 3 _ _ _);
    try (vm_compute; reflexivity); simpl; tauto.
Defined.

(** C6 as stated fails: node 8 is the fact node Have(Cake) of fact layer
    1, node 16 the fact node Eaten(Cake) of fact layer 2.  Have and Eaten
    are mutex in layer 1 and not in layer 2; membership in a mutex set is
    by content, so node 16 is found in the mutex set of node 8 while node
    8 is not found in the mutex set of node 16. *)
Lemma mutex_asymmetric_across_layers :
  nth_error (s_levels cake_graph) 1 = Some [3; 4; 8; 14] /\
  nth_error (s_levels cake_graph) 2 = Some [16; 17; 19; 27] /\
  is_mutex (heap cake_graph) (SNode 8) (SNode 16) = true /\
  is_mutex (heap cake_graph) (SNode 16) (SNode 8) = false.
Proof. vm_compute. repeat split. Qed.

(** ** The inconsistent-support test on parentless facts *)

(** The test itself has no fallback to the negation test: when one of
    the two nodes has no parents it answers True, the condition on the
    pairs of parents being vacuous. *)
Lemma inconsistent_support_no_parents (o : set_order) (h : Heap)
  (s1 s2 : sref) :
  s_parents (get_s h s1) = [] \/ s_parents (get_s h s2) = [] ->
  inconsistent_support_mutex o h s1 s2 = true.
Proof.
  intros Hp. unfold inconsistent_support_mutex. apply orb_true_iff. right.
  destruct Hp as [-> | ->]; rewrite enum_nil; [reflexivity |].
  apply forallb_forall. reflexivity.
Qed.

(** C3.  In a constructed graph, two fact nodes of the same fact layer of
    which at least one has no parents are mutex only if the negation test
    applies to them.  Such a pair lies in fact layer 0, the only layer
    with parentless nodes, on which no mutex pass is run: neither node is
    in the mutex set of the other, so the answer of the
    inconsistent-support test on it marks nothing. *)
Theorem parentless_pair_not_mutex (o : set_order) (fuel : nat)
  (pb : Problem) (state : list bool) (ser : bool) (pg : PlanningGraph) :
  PlanningGraph_init o fuel pb state ser = Some (Ok pg) ->
  forall l Sl s1 s2,
    nth_error (s_levels pg) l = Some Sl -> In s1 Sl -> In s2 Sl ->
    s_parents (get_s (heap pg) s1) = [] \/
    s_parents (get_s (heap pg) s2) = [] ->
    (is_mutex (heap pg) (SNode s1) (SNode s2) = true ->
     negation_mutex (heap pg) s1 s2 = true) /\
    l = 0 /\
    s_mutex (get_s (heap pg) s1) = [] /\
    s_mutex (get_s (heap pg) s2) = [] /\
    is_mutex (heap pg) (SNode s1) (SNode s2) = false /\
    is_mutex (heap pg) (SNode s2) (SNode s1) = false.
Proof.
  intros Hrun l Sl s1 s2 HSl H1 H2 Hp.
  destruct (built_inv o fuel pb state ser _ Hrun) as (pg' & E & Hinv & _).
  inversion E; subst pg'. clear E.
  destruct Hinv as ((S0 & E0 & (_ & F0)) & _ & _ & HL & _).
  destruct l as [| l].
  - rewrite E0 in HSl. inversion HSl; subst S0.
    destruct (F0 s1 H1) as (_ & _ & M1).
    destruct (F0 s2 H2) as (_ & _ & M2).
    assert (A : is_mutex (heap pg) (SNode s1) (SNode s2) = false)
      by (cbn [is_mutex]; rewrite M1; reflexivity).
    assert (B : is_mutex (heap pg) (SNode s2) (SNode s1) = false)
      by (cbn [is_mutex]; rewrite M2; reflexivity).
    repeat split; auto. rewrite A. discriminate.
  - exfalso. destruct (HL l Sl HSl) as (Hpar & _).
    destruct Hp as [P | P]; [now apply (Hpar s1 H1) | now apply (Hpar s2 H2)].
Qed.

Lemma parentless_pair_not_mutex_witness :
  (is_mutex (heap cake_graph) (SNode 0) (SNode 1) = true ->
   negation_mutex (heap cake_graph) 0 1 = true) /\
  0 = 0 /\
  s_mutex (get_s (heap cake_graph) 0) = [] /\
  s_mutex (get_s (heap cake_graph) 1) = [] /\
  is_mutex (heap cake_graph) (SNode 0) (SNode 1) = false /\
  is_mutex (heap cake_graph) (SNode 1) (SNode 0) = false.
Proof.
  refine (parentless_pair_not_mutex insertion_order 10 cake [true; false]
            true cake_graph _ 0 [0; 1] 0 1 _ _ _ _);
    try (vm_compute; reflexivity); simpl; tauto.
Defined.

(** ** [mutexify] and node kinds *)

Lemma mutexify_s_is_mutex (h : Heap) (a b : sref) :
  a < length (snodes h) -> b < length (snodes h) ->
  is_mutex (mutexify_s a b h) (SNode a) (SNode b) = true /\
  is_mutex (mutexify_s a b h) (SNode b) (SNode a) = true.
Proof.
  intros Ha Hb.
  assert (K : forall i, skey (mutexify_s a b h) i = skey h i)
    by (intros i; apply same_but_s_mutex_key, mutexify_s_same).
  assert (Half : forall x y, x < length (snodes h) -> y < length (snodes h) ->
            (forall z, In z (s_mutex (get_s h x)) ->
                       In z (s_mutex (get_s (mutexify_s a b h) x))) ->
            (s_in h y (s_mutex (get_s h x)) = false ->
             In y (s_mutex (get_s (mutexify_s a b h) x))) ->
            s_in (mutexify_s a b h) y (s_mutex (get_s (mutexify_s a b h) x)) = true).
  { intros x y Hx Hy Hmono Hnew.
    destruct (s_in h y (s_mutex (get_s h x))) eqn:E.
    - apply s_in_iff in E. apply s_in_iff. rewrite K.
      unfold skeys in *. apply in_map_iff in E as (z & Ez & Hz).
      apply in_map_iff. exists z. split; [now rewrite K | now apply Hmono].
    - apply s_in_self. now apply Hnew. }
  cbn [is_mutex]. split; apply Half; auto.
  - intros z Hz. apply mutexify_s_mutex; auto.
  - intros E. apply mutexify_s_mutex; auto.
  - intros z Hz. apply mutexify_s_mutex; auto.
  - intros E. apply mutexify_s_mutex; auto.
Qed.

Lemma mutexify_a_is_mutex (h : Heap) (a b : aref) :
  a < length (anodes h) -> b < length (anodes h) ->
  is_mutex (mutexify_a a b h) (ANode a) (ANode b) = true /\
  is_mutex (mutexify_a a b h) (ANode b) (ANode a) = true.
Proof.
  intros Ha Hb.
  assert (K : forall i, akey (mutexify_a a b h) i = akey h i)
    by (intros i; apply same_but_a_mutex_key, mutexify_a_same).
  assert (Half : forall x y, x < length (anodes h) -> y < length (anodes h) ->
            (forall z, In z (a_mutex (get_a h x)) ->
                       In z (a_mutex (get_a (mutexify_a a b h) x))) ->
            (a_in h y (a_mutex (get_a h x)) = false ->
             In y (a_mutex (get_a (mutexify_a a b h) x))) ->
            a_in (mutexify_a a b h) y (a_mutex (get_a (mutexify_a a b h) x)) = true).
  { intros x y Hx Hy Hmono Hnew.
    destruct (a_in h y (a_mutex (get_a h x))) eqn:E.
    - apply a_in_iff in E. apply a_in_iff. rewrite K.
      unfold akeys in *. apply in_map_iff in E as (z & Ez & Hz).
      apply in_map_iff. exists z. split; [now rewrite K | now apply Hmono].
    - apply a_in_self. now apply Hnew. }
  cbn [is_mutex]. split; apply Half; auto.
  - intros z Hz. apply mutexify_a_mutex; auto.
  - intros E. apply mutexify_a_mutex; auto.
  - intros z Hz. apply mutexify_a_mutex; auto.
  - intros E. apply mutexify_a_mutex; auto.
Qed.

(** C10.  [mutexify] raises, and then a TypeError, exactly when the two
    nodes are of different kinds.  For two nodes of the same kind it
    returns, whatever their layers and even when they are one and the same
    node, and afterwards each is found in the mutex set of the other. *)
Theorem mutexify_type_error (h : Heap) (n1 n2 : node) :
  ((exists e, mutexify n1 n2 h = Raise e) <-> same_kind n1 n2 = false) /\
  (forall e, mutexify n1 n2 h = Raise e -> e = TypeError) /\
  (same_kind n1 n2 = true ->
   exists h', mutexify n1 n2 h = Ok h' /\
     (node_valid h n1 -> node_valid h n2 ->
      is_mutex h' n1 n2 = true /\ is_mutex h' n2 n1 = true)).
Proof.
  destruct n1 as [a | a], n2 as [b | b]; cbn [mutexify same_kind node_valid].
  - split; [split; [intros (e & E); discriminate | discriminate] |].
    split; [intros e E; discriminate |]. intros _.
    eexists. split; [reflexivity |]. apply mutexify_s_is_mutex.
  - split; [split; [reflexivity | intros _; now exists TypeError] |].
    split; [intros e E; now inversion E | discriminate].
  - split; [split; [reflexivity | intros _; now exists TypeError] |].
    split; [intros e E; now inversion E | discriminate].
  - split; [split; [intros (e & E); discriminate | discriminate] |].
    split; [intros e E; discriminate |]. intros _.
    eexists. split; [reflexivity |]. apply mutexify_a_is_mutex.
Qed.

(** A node of fact layer 0 paired with a node of fact layer 2. *)
Lemma mutexify_type_error_witness :
  exists h', mutexify (SNode 0) (SNode 16) (heap cake_graph) = Ok h' /\
             is_mutex h' (SNode 0) (SNode 16) = true /\
             is_mutex h' (SNode 16) (SNode 0) = true.
Proof.
  destruct (proj2 (proj2 (mutexify_type_error (heap cake_graph)
                            (SNode 0) (SNode 16))) eq_refl)
    as (h' & E & H).
  exists h'. split; [exact E |]. apply H; vm_compute; lia.
Defined.

(** A node paired with itself is accepted as well. *)
Example mutexify_self :
  exists h', mutexify (SNode 0) (SNode 0) two_facts = Ok h' /\
             is_mutex h' (SNode 0) (SNode 0) = true.
Proof. eexists. split; reflexivity. Qed.

(** ** Competing needs *)

(** C2 fails on the code.  In action layer 1 of the cake graph the
    persistence actions of Have(Cake) (action node 8) and of Eaten(Cake)
    (action node 10) need the facts Have(Cake) and Eaten(Cake), which are
    mutex in fact layer 1 (fact nodes 8 and 3).  The parents of the two
    action nodes are their own prenodes (fact nodes 20 and 24), objects
    that are not in the fact layer and whose mutex sets are empty; the
    competing-needs test answers False and the pair is left non-mutex. *)
Lemma competing_needs_missed :
  nth_error (s_levels cake_graph) 1 = Some [3; 4; 8; 14] /\
  nth_error (a_levels cake_graph) 1 = Some [6; 7; 8; 9; 10; 11] /\
  skey (heap cake_graph) 8 = (Have, true) /\
  skey (heap cake_graph) 3 = (Eaten, true) /\
  is_mutex (heap cake_graph) (SNode 8) (SNode 3) = true /\
  precond_lits (action (get_a (heap cake_graph) 8)) = [(Have, true)] /\
  precond_lits (action (get_a (heap cake_graph) 10)) = [(Eaten, true)] /\
  a_parents (get_a (heap cake_graph) 8) = [20] /\
  a_parents (get_a (heap cake_graph) 10) = [24] /\
  s_mutex (get_s (heap cake_graph) 20) = [] /\
  s_mutex (get_s (heap cake_graph) 24) = [] /\
  competing_needs_mutex insertion_order (heap cake_graph) 8 10 = false /\
  is_mutex (heap cake_graph) (ANode 8) (ANode 10) = false /\
  is_mutex (heap cake_graph) (ANode 10) (ANode 8) = false.
Proof. vm_compute. repeat split. Qed.

Lemma existsb_none {A} (f : A -> bool) (l : list A) :
  (forall x, In x l -> f x = false) -> existsb f l = false.
Proof.
  induction l as [| x l IH]; intros H; [reflexivity |].
  simpl. rewrite (H x (or_introl eq_refl)). apply IH.
  intros y Hy. apply H. now right.
Qed.

(** X4.  The same holds in every constructed graph: the parents of an
    action node are never node objects of the fact layer it was admitted
    against, their mutex sets are empty, and the competing-needs test
    answers False for every pair of action nodes of a layer. *)
Theorem parents_are_private_copies (o : set_order) (fuel : nat)
  (pb : Problem) (state : list bool) (ser : bool) (pg : PlanningGraph) :
  PlanningGraph_init o fuel pb state ser = Some (Ok pg) ->
  forall l La Sl,
    nth_error (a_levels pg) l = Some La ->
    nth_error (s_levels pg) l = Some Sl ->
    (forall n p, In n La -> In p (a_parents (get_a (heap pg) n)) ->
       ~ In p Sl /\ s_mutex (get_s (heap pg) p) = []) /\
    (forall n1 n2, In n1 La -> In n2 La ->
       competing_needs_mutex o (heap pg) n1 n2 = false).
Proof.
  intros Hrun l La Sl HLa HSl.
  destruct (built_inv o fuel pb state ser _ Hrun) as (pg' & E & Hinv & _).
  inversion E; subst pg'. clear E.
  destruct (a_levels_have_facts pg l La Hinv HLa) as (Sl' & Sn & HSl' & HSn).
  rewrite HSl in HSl'. inversion HSl'; subst Sl'.
  destruct Hinv as (_ & _ & _ & _ & HA).
  destruct (HA l La Sl Sn HLa HSl HSn) as (_ & _ & _ & _ & _ & Hpriv).
  split.
  - intros n p Hn Hp. destruct (Hpriv n p Hn Hp). auto.
  - intros n1 n2 H1 H2. unfold competing_needs_mutex.
    apply existsb_none. intros p Hp. apply enum_In in Hp.
    apply existsb_none. intros p2 _. cbn [is_mutex].
    destruct (Hpriv n1 p H1 Hp) as (-> & _). reflexivity.
Qed.

(** ** Termination *)

(** C4 as stated fails on its bound: one fluent, true in the start state,
    and one action that deletes it.  The literals are On and its negation;
    the graph has the three fact layers {On}, {On, ~On}, {On, ~On}. *)
Lemma layer_count_exceeds_literals :
  exists pg,
    PlanningGraph_init insertion_order 10 lamp [true] true = Some (Ok pg) /\
    length (s_levels pg) = 3 /\
    length (distinct_literals (decode_state [true] (state_map lamp))
              (actions_list lamp ++ noop_actions (state_map lamp))) = 2.
Proof.
  eexists. split; [vm_compute; reflexivity |]. split; reflexivity.
Qed.

(** C4 (as amended).  When name and arguments identify the actions of the
    catalog, construction terminates for every start state: with enough
    fuel the loop returns a graph, whatever the iteration order of sets.
    The graph has at least two fact layers; two consecutive fact layers
    have the same literals exactly when they are the last two, so the loop
    stopped at the first repeat; fact layers never lose a literal; and
    the number of fact layers is at most the number of distinct literals
    minus the number of literals of layer 0, plus 2. *)
Theorem construction_terminates (o : set_order) (pb : Problem)
  (state : list bool) (ser : bool) :
  catalog_consistent (actions_list pb ++ noop_actions (state_map pb)) ->
  exists pg,
    (forall fuel,
       length (distinct_literals (decode_state state (state_map pb))
                 (actions_list pb ++ noop_actions (state_map pb))) < fuel ->
       PlanningGraph_init o fuel pb state ser = Some (Ok pg)) /\
    2 <= length (s_levels pg) /\
    leveled pg /\
    (forall l Sl Sn,
       nth_error (s_levels pg) l = Some Sl ->
       nth_error (s_levels pg) (S l) = Some Sn ->
       incl (skeys (heap pg) Sl) (skeys (heap pg) Sn)) /\
    (forall S0,
       nth_error (s_levels pg) 0 = Some S0 ->
       length (s_levels pg) + length S0
       <= length (distinct_literals (decode_state state (state_map pb))
                    (actions_list pb ++ noop_actions (state_map pb))) + 2).
Proof.
  intros Hcat.
  set (fs0 := decode_state state (state_map pb)).
  set (acts := actions_list pb ++ noop_actions (state_map pb)) in *.
  set (U := distinct_literals fs0 acts).
  destruct (initial_inv pb fs0 ser acts empty_heap)
    as (S0 & h0 & E & Hinv0 & Hnr0).
  set (pg0 := mkPG pb fs0 ser acts [S0] [] h0) in *.
  assert (Hper : persistence_present (fs pg0) (all_actions pg0))
    by apply persistence_of_init.
  destruct (create_loop_terminates o (S (length U)) pg0 S0 Hinv0 Hcat Hper
              eq_refl) as (pg & Erun & Hbound).
  { cbn [pg0 fs all_actions]. fold U. lia. }
  destruct (create_loop_spec o _ pg0 _ Hinv0 Hnr0 Erun)
    as (pg' & Epg & Hinv & Hlev & (_ & Efs & _ & Eacts) & _ & (Sn & more & Em)).
  inversion Epg; subst pg'. clear Epg.
  cbn [pg0 fs all_actions s_levels a_levels length] in *.
  exists pg. split; [| split; [| split; [exact Hlev | split]]].
  - intros fuel Hfuel. unfold PlanningGraph_init, create_graph.
    cbn [s_levels a_levels length Nat.eqb negb orb fs heap problem serial
         all_actions].
    fold fs0 acts. rewrite E. cbn [fst snd].
    apply (create_loop_more_fuel o (S (length U))); [lia | exact Erun].
  - rewrite Em. simpl. lia.
  - apply layers_grow; [exact Hinv | now rewrite Eacts |].
    rewrite Efs, Eacts. exact Hper.
  - intros S0' E0. rewrite Em in E0. inversion E0; subst S0'.
    fold U in Hbound. lia.
Qed.

Lemma construction_terminates_witness :
  exists pg,
    (forall fuel,
       length (distinct_literals (decode_state [true; false] (state_map cake))
                 (actions_list cake ++ noop_actions (state_map cake))) < fuel ->
       PlanningGraph_init insertion_order fuel cake [true; false] true
       = Some (Ok pg)) /\
    2 <= length (s_levels pg) /\
    leveled pg /\
    (forall l Sl Sn,
       nth_error (s_levels pg) l = Some Sl ->
       nth_error (s_levels pg) (S l) = Some Sn ->
       incl (skeys (heap pg) Sl) (skeys (heap pg) Sn)) /\
    (forall S0,
       nth_error (s_levels pg) 0 = Some S0 ->
       length (s_levels pg) + length S0
       <= length (distinct_literals (decode_state [true; false] (state_map cake))
                    (actions_list cake ++ noop_actions (state_map cake))) + 2).
Proof.
  apply (construction_terminates insertion_order cake [true; false] true).
  exact cake_catalog.
Defined.

Example twin_keeps_running :
  PlanningGraph_init insertion_order 40 twin [] true = None.
Proof. vm_compute. reflexivity. Qed.

(** ** The level sum *)

Lemma dict_set_fresh (h : Heap) (g : sref) (v : nat) (d : list (sref * nat)) :
  ~ In (skey h g) (dkeys h d) -> dict_set h g v d = d ++ [(g, v)].
Proof.
  induction d as [| [k' v'] d IH]; intros Hn; [reflexivity |].
  cbn [dict_set]. destruct (PgNode_s_eq (get_s h k') (get_s h g)) eqn:E.
  - exfalso. apply Hn. left. apply PgNode_s_eq_key in E. exact E.
  - simpl. f_equal. apply IH. intros H. apply Hn. now right.
Qed.

Lemma dict_get_in (h : Heap) (d : list (sref * nat)) (g : sref) (v : nat) :
  NoDup (dkeys h d) -> In (g, v) d -> dict_get h g d = v.
Proof.
  induction d as [| [k' v'] d IH]; intros Hnd Hin; [contradiction |].
  inversion Hnd as [| ? ? Hk Hd]; subst.
  cbn [dict_get]. destruct Hin as [E | Hin].
  - inversion E; subst.
    assert (T : PgNode_s_eq (get_s h g) (get_s h g) = true)
      by now apply PgNode_s_eq_key.
    now rewrite T.
  - destruct (PgNode_s_eq (get_s h k') (get_s h g)) eqn:E.
    + exfalso. apply Hk. apply PgNode_s_eq_key in E. cbn [fst].
      unfold skey. rewrite E. unfold dkeys.
      apply in_map_iff. exists (g, v). auto.
    + now apply IH.
Qed.

Lemma fold_sum (A : Type) (f : A -> nat) (l : list A) (a : nat) :
  fold_left (fun s x => s + f x) l a = a + list_sum (map f l).
Proof.
  revert a; induction l as [| x l IH]; intros a; simpl; [lia |].
  rewrite IH. lia.
Qed.

Lemma total_sum (h : Heap) (d : list (sref * nat)) :
  NoDup (dkeys h d) ->
  fold_left (fun s g => s + dict_get h g d) (map fst d) 0
  = list_sum (map snd d).
Proof.
  intros Hnd. rewrite fold_sum, map_map. simpl. f_equal.
  apply map_ext_in. intros [g v] Hin. simpl. now apply dict_get_in.
Qed.

Lemma Permutation_filter_compat {A} (f : A -> bool) (l l' : list A) :
  Permutation l l' -> Permutation (filter f l) (filter f l').
Proof.
  induction 1 as [| x l l' _ IH | x y l | l l' l'' _ IH1 _ IH2]; simpl.
  - constructor.
  - destruct (f x); [now constructor | exact IH].
  - destruct (f x), (f y); try apply Permutation_refl. apply perm_swap.
  - eapply Permutation_trans; eassumption.
Qed.

Lemma filter_split_perm {A} (f : A -> bool) (l : list A) :
  Permutation (filter f l ++ filter (fun x => negb (f x)) l) l.
Proof.
  induction l as [| x l IH]; simpl; [constructor |].
  destruct (f x); simpl.
  - now constructor.
  - apply Permutation_sym, Permutation_cons_app, Permutation_sym, IH.
Qed.

(** The inner loop of [h_levelsum] on one layer. *)
Lemma find_loop_spec (h : Heap) (index : nat) (level : list sref)
  (L : list sref) :
  forall (d : list (sref * nat)) (found : list sref),
  NoDup (skeys h L) ->
  (forall g, In g L -> ~ In (skey h g) (dkeys h d)) ->
  (forall g, In g L -> ~ In (skey h g) (skeys h found)) ->
  fold_left (fun st g =>
      if s_in h g level
      then (dict_set h g index (fst st), s_add h g (snd st))
      else st) L (d, found)
  = (d ++ map (fun g => (g, index)) (filter (fun g => s_in h g level) L),
     found ++ filter (fun g => s_in h g level) L).
Proof.
  induction L as [| g L IH]; intros d found Hnd Hd Hf.
  - simpl. now rewrite !app_nil_r.
  - cbn [fold_left filter]. cbn [skeys map] in Hnd.
    inversion Hnd as [| ? ? Hg HL]; subst.
    destruct (s_in h g level) eqn:E; cbn [fst snd].
    + rewrite dict_set_fresh by (apply Hd; now left).
      assert (Ea : s_add h g found = found ++ [g]).
      { unfold s_add.
        destruct (s_in h g found) eqn:E'; [| reflexivity].
        apply s_in_iff in E'. exfalso. apply (Hf g); [now left | exact E']. }
      rewrite Ea, IH.
      * cbn [map]. now rewrite <- !app_assoc.
      * exact HL.
      * intros g' Hg' Hin. unfold dkeys in Hin. rewrite map_app in Hin.
        apply in_app_or in Hin. destruct Hin as [Hin | [Hin | []]].
        -- apply (Hd g'); [now right | exact Hin].
        -- cbn [fst] in Hin. apply Hg. rewrite Hin.
           unfold skeys. now apply in_map.
      * intros g' Hg' Hin. unfold skeys in Hin. rewrite map_app in Hin.
        apply in_app_or in Hin. destruct Hin as [Hin | [Hin | []]].
        -- apply (Hf g'); [now right | exact Hin].
        -- apply Hg. rewrite Hin. unfold skeys. now apply in_map.
    + apply IH; [exact HL | |]; intros g' Hg'; [apply Hd | apply Hf]; now right.
Qed.

Lemma list_sum_cons (x : nat) (l : list nat) :
  list_sum (x :: l) = x + list_sum l.
Proof. reflexivity. Qed.

Lemma cost_split (h : Heap) (i : nat) (level : list sref)
  (rest : list (list lit)) (U : list sref) :
  list_sum (map (cost_from i (skeys h level :: rest)) (skeys h U))
  = i * length (filter (fun g => s_in h g level) U)
    + list_sum (map (cost_from (S i) rest)
                  (skeys h (filter (fun g => negb (s_in h g level)) U))).
Proof.
  induction U as [| g U IH]; [simpl; lia |].
  change (skeys h (g :: U)) with (skey h g :: skeys h U).
  cbn [map filter]. rewrite list_sum_cons, IH.
  assert (C : cost_from i (skeys h level :: rest) (skey h g)
              = if s_in h g level then i else cost_from (S i) rest (skey h g)).
  { unfold cost_from. cbn [first_level].
    destruct (in_dec lit_eq_dec (skey h g) (skeys h level)) as [Hin | Hn].
    - apply s_in_iff in Hin. now rewrite Hin.
    - destruct (s_in h g level) eqn:E; [apply s_in_iff in E; tauto | reflexivity]. }
  rewrite C. destruct (s_in h g level); cbn [negb length].
  - lia.
  - change (skeys h (g :: filter (fun g0 => negb (s_in h g0 level)) U))
      with (skey h g :: skeys h (filter (fun g0 => negb (s_in h g0 level)) U)).
    cbn [map]. rewrite list_sum_cons. lia.
Qed.

Lemma NoDup_app_disjoint {A} (l1 l2 : list A) (a : A) :
  NoDup (l1 ++ l2) -> In a l1 -> In a l2 -> False.
Proof.
  induction l1 as [| x l1 IH]; simpl; [tauto |].
  intros Hnd [-> | H1] H2; inversion Hnd as [| ? ? Hx Hl]; subst.
  - apply Hx, in_or_app. now right.
  - now apply IH.
Qed.

Lemma skeys_perm (o : set_order) (h : Heap) (l : list sref) :
  Permutation (skeys h (enum o l)) (skeys h l).
Proof. unfold skeys. apply Permutation_map, enum_perm. Qed.

Lemma find_goals_spec (o : set_order) (h : Heap) (index : nat)
  (level U : list sref) (d : list (sref * nat)) :
  NoDup (dkeys h d ++ skeys h U) ->
  find_goals o h index level U d
  = (d ++ map (fun g => (g, index))
            (filter (fun g => s_in h g level) (enum o U)),
     filter (fun g => s_in h g level) (enum o U)) /\
  s_diff h U (filter (fun g => s_in h g level) (enum o U))
  = filter (fun g => negb (s_in h g level)) U.
Proof.
  intros Hnd.
  pose proof (NoDup_app_remove_l _ _ Hnd) as HU.
  split.
  - unfold find_goals.
    rewrite (find_loop_spec h index level (enum o U) d []).
    + reflexivity.
    + eapply Permutation_NoDup; [apply Permutation_sym, skeys_perm | exact HU].
    + intros g Hg Hin. apply enum_In in Hg.
      apply (NoDup_app_disjoint _ _ _ Hnd Hin).
      unfold skeys. now apply in_map.
    + intros g _ [].
  - unfold s_diff. apply filter_ext_in. intros x Hx. f_equal.
    apply eq_true_iff_eq. split.
    + intros H. apply s_in_iff in H. unfold skeys in H.
      apply in_map_iff in H as (y & Ey & Hy).
      apply filter_In in Hy as (Hy & Hl). apply enum_In in Hy.
      now rewrite <- (NoDup_map_inj (skey h) U y x HU Hy Hx Ey).
    + intros H. apply s_in_self. apply filter_In.
      split; [now apply enum_In | exact H].
Qed.

(** The scan of the layers: what the dictionary sums to. *)
Lemma scan_levels_sum (o : set_order) (h : Heap) (levels : list (list sref)) :
  forall (index : nat) (U : list sref) (d : list (sref * nat)),
  NoDup (dkeys h d ++ skeys h U) ->
  NoDup (dkeys h (scan_levels o h index levels U d)) /\
  list_sum (map snd (scan_levels o h index levels U d))
  = list_sum (map snd d)
    + list_sum (map (cost_from index (map (skeys h) levels)) (skeys h U)).
Proof.
  induction levels as [| level rest IH]; intros index U d Hnd.
  - cbn [scan_levels map]. split; [exact (NoDup_app_remove_r _ _ Hnd) |].
    unfold cost_from. cbn [first_level].
    assert (Z : forall l : list lit, list_sum (map (fun _ => 0) l) = 0)
      by (induction l; simpl; auto).
    rewrite Z. lia.
  - cbn [scan_levels map].
    destruct (find_goals_spec o h index level U d Hnd) as (Ef & Ed).
    rewrite Ef. cbn [fst snd]. rewrite Ed.
    set (F := filter (fun g => s_in h g level) (enum o U)).
    set (U' := filter (fun g => negb (s_in h g level)) U).
    set (d' := d ++ map (fun g => (g, index)) F).
    assert (PF : Permutation F (filter (fun g => s_in h g level) U))
      by (apply Permutation_filter_compat, enum_perm).
    assert (Kd : dkeys h d' = dkeys h d ++ skeys h F).
    { unfold d', dkeys, skeys. rewrite map_app, map_map. reflexivity. }
    assert (Hnd' : NoDup (dkeys h d' ++ skeys h U')).
    { rewrite Kd, <- app_assoc.
      eapply Permutation_NoDup; [| exact Hnd].
      apply Permutation_app_head. unfold skeys. rewrite <- map_app.
      apply Permutation_map. apply Permutation_sym.
      eapply Permutation_trans; [| apply (filter_split_perm (fun g => s_in h g level) U)].
      apply Permutation_app_tail. exact PF. }
    assert (Sd : list_sum (map snd d')
                 = list_sum (map snd d) + index * length (filter (fun g => s_in h g level) U)).
    { unfold d'. rewrite map_app, list_sum_app, map_map. cbn [snd].
      rewrite <- (Permutation_length PF). f_equal.
      clear. induction F as [| g F IHF]; simpl; [lia |]. rewrite IHF. lia. }
    rewrite cost_split. fold U'.
    destruct U' as [| u U''] eqn:EU.
    + split.
      * rewrite <- (app_nil_r (dkeys h d')). exact Hnd'.
      * rewrite Sd. simpl. lia.
    + destruct (IH (S index) (u :: U'') d' Hnd') as (N & Sm).
      split; [exact N |]. rewrite Sm, Sd. lia.
Qed.

Lemma first_level_absent (i : nat) (levels : list (list lit)) (k : lit) :
  (forall lv, In lv levels -> ~ In k lv) -> first_level i levels k = None.
Proof.
  revert i; induction levels as [| lv rest IH]; intros i H; [reflexivity |].
  cbn [first_level]. destruct (in_dec lit_eq_dec k lv) as [Hin | _].
  - exfalso. apply (H lv); [now left | exact Hin].
  - apply IH. intros lv' Hlv'. apply H. now right.
Qed.

(** C1 as stated fails: the goal Gone(Cake) is in no fact layer of the
    leveled graph; [h_levelsum] returns the number 1, the level of the
    other goal. *)
Lemma absent_goal_counts_zero :
  exists pg,
    PlanningGraph_init insertion_order 10 cake_gone [true; false] true
    = Some (Ok pg) /\
    first_level 0 (map (skeys (heap pg)) (s_levels pg))
      (Atom "Gone(Cake)", true) = None /\
    h_levelsum insertion_order pg = Ok 1.
Proof.
  eexists. split; [vm_compute; reflexivity |].
  split; vm_compute; reflexivity.
Qed.

(** C1 (as amended).  On a constructed graph [h_levelsum] never fails: it
    returns the sum, over the distinct goal literals (taken as positive
    literals), of the index of the first fact layer that holds the
    literal, where a goal literal that is in no fact layer counts for
    zero. *)
Theorem level_sum_skips_absent (o : set_order) (fuel : nat) (pb : Problem)
  (state : list bool) (ser : bool) (pg : PlanningGraph) :
  PlanningGraph_init o fuel pb state ser = Some (Ok pg) ->
  (exists G,
     NoDup G /\
     (forall k, In k G <-> In k (lits_of (goal pb) true)) /\
     h_levelsum o pg
     = Ok (list_sum
             (map (cost_from 0 (map (skeys (heap pg)) (s_levels pg))) G))) /\
  (forall k,
     (forall lv, In lv (s_levels pg) -> ~ In k (skeys (heap pg) lv)) ->
     cost_from 0 (map (skeys (heap pg)) (s_levels pg)) k = 0).
Proof.
  intros Hrun.
  destruct (built_inv o fuel pb state ser _ Hrun)
    as (pg' & E & Hinv & _ & Epb & _).
  inversion E; subst pg'. clear E. split.
  - destruct (add_s_nodes_spec (goal (problem pg)) true [] (heap pg))
      as ((ss & Es & _) & _ & _ & _ & K & D); [intros x [] |].
    unfold h_levelsum.
    destruct (add_s_nodes (goal (problem pg)) true ([], heap pg))
      as [U0 h'] eqn:R.
    cbn [fst snd] in *.
    assert (Hnd : NoDup (dkeys h' [] ++ skeys h' U0))
      by (apply D; constructor).
    destruct (scan_levels_sum o h' (s_levels pg) 0 U0 [] Hnd) as (N & Sm).
    rewrite (total_sum h' _ N), Sm.
    assert (EL : map (skeys h') (s_levels pg)
                 = map (skeys (heap pg)) (s_levels pg)).
    { apply map_ext_in. intros lv Hlv.
      apply In_nth_error in Hlv as (l & Hl).
      destruct Hinv as (_ & _ & HS & _).
      apply skeys_agree. intros x Hx. eapply get_s_app_l; [exact Es |].
      exact (s_layer_ok_valid _ lv x (HS l lv Hl) Hx). }
    rewrite EL. exists (skeys h' U0). split; [exact Hnd |]. split.
    + intros k. rewrite K, <- Epb. simpl. tauto.
    + reflexivity.
  - intros k Habs. unfold cost_from. rewrite first_level_absent; [reflexivity |].
    intros lv Hlv. apply in_map_iff in Hlv as (lv' & <- & Hlv'). now apply Habs.
Qed.

Lemma level_sum_skips_absent_witness :
  exists G,
    NoDup G /\
    (forall k, In k G <-> In k (lits_of (goal cake) true)) /\
    h_levelsum insertion_order cake_graph
    = Ok (list_sum
            (map (cost_from 0 (map (skeys (heap cake_graph))
                                 (s_levels cake_graph))) G)).
Proof.
  apply (proj1 (level_sum_skips_absent insertion_order 10 cake [true; false]
                  true cake_graph ltac:(vm_compute; reflexivity))).
Defined.

(** * Further properties of the code *)

(** ** The tests of [update_a_mutex] on the lists of the actions *)

Lemma existsb_same {A} (f : A -> bool) (l l' : list A) :
  (forall x, In x l <-> In x l') -> existsb f l = existsb f l'.
Proof.
  intros H. apply eq_true_iff_eq. rewrite !existsb_exists.
  split; intros (x & Hx & Fx); exists x; (split; [now apply H | exact Fx]).
Qed.

Lemma existsb_ext_in {A} (f g : A -> bool) (l : list A) :
  (forall x, In x l -> f x = g x) -> existsb f l = existsb g l.
Proof.
  induction l as [| x l IH]; intros H; [reflexivity |].
  simpl. rewrite (H x (or_introl eq_refl)), IH; [reflexivity |].
  intros y Hy. apply H. now right.
Qed.

Lemma literal_lit_expr (h : Heap) (c : sref) :
  literal (get_s h c) = lit_expr (skey h c).
Proof. reflexivity. Qed.

Lemma effect_exprs_lits (act : Action) :
  get_expressions_effect act = map lit_expr (effect_lits act).
Proof.
  unfold get_expressions_effect, effect_lits, lits_of.
  rewrite map_app, !map_map. simpl. now rewrite map_id.
Qed.

Lemma cond_exprs_lits (act : Action) :
  get_expressions_cond act = map lit_expr (precond_lits act).
Proof.
  unfold get_expressions_cond, precond_lits, lits_of.
  rewrite map_app, !map_map. simpl. now rewrite map_id.
Qed.

Lemma negates_sym (e e2 : Expr) : negates e e2 = negates e2 e.
Proof.
  assert (S : forall a b, expr_eqb a b = expr_eqb b a).
  { intros a b. apply eq_true_iff_eq. rewrite !expr_eqb_eq. split; congruence. }
  destruct e, e2; simpl; auto.
Qed.

Section PureTests.

Variable o : set_order.

Lemma effects_of_set (h : Heap) (n : aref) :
  a_node_shape h n ->
  forall x, In x (effects_of o h n)
            <-> In x (get_expressions_effect (action (get_a h n))).
Proof.
  intros (Hc & _) x. unfold effects_of. rewrite in_app_iff. split; [| auto].
  intros [H | H]; [exact H |].
  apply in_map_iff in H as (c & <- & Hin). apply enum_In in Hin.
  rewrite literal_lit_expr, effect_exprs_lits. apply in_map. now apply Hc.
Qed.

Lemma preconds_of_set (h : Heap) (n : aref) :
  a_node_shape h n ->
  forall x, In x (preconds_of o h n)
            <-> In x (get_expressions_cond (action (get_a h n))).
Proof.
  intros (_ & Hp) x. unfold preconds_of. rewrite in_app_iff. split; [| auto].
  intros [H | H]; [exact H |].
  apply in_map_iff in H as (c & <- & Hin). apply enum_In in Hin.
  rewrite literal_lit_expr, cond_exprs_lits. apply in_map. now apply Hp.
Qed.

Lemma inconsistent_effects_pure (h : Heap) (n1 n2 : aref) :
  a_node_shape h n1 -> a_node_shape h n2 ->
  inconsistent_effects_mutex o h n1 n2
  = act_inconsistent_effects (action (get_a h n1)) (action (get_a h n2)).
Proof.
  intros S1 S2. unfold inconsistent_effects_mutex, act_inconsistent_effects.
  rewrite (existsb_same _ _ _ (effects_of_set h n1 S1)).
  apply existsb_ext_in. intros e _.
  apply existsb_same, effects_of_set, S2.
Qed.

Lemma interference_pure (h : Heap) (n1 n2 : aref) :
  a_node_shape h n1 -> a_node_shape h n2 ->
  interference_mutex o h n1 n2
  = act_interference (action (get_a h n1)) (action (get_a h n2)).
Proof.
  intros S1 S2. unfold interference_mutex, act_interference.
  rewrite (existsb_same _ _ _ (preconds_of_set h n1 S1)).
  rewrite (existsb_same _ (preconds_of o h n2) _ (preconds_of_set h n2 S2)).
  f_equal; apply existsb_ext_in; intros e _; apply existsb_same, effects_of_set;
    assumption.
Qed.

Lemma competing_needs_never (h : Heap) (n1 n2 : aref) :
  a_node_shape h n1 -> competing_needs_mutex o h n1 n2 = false.
Proof.
  intros (_ & Hp). unfold competing_needs_mutex.
  apply existsb_none. intros p Hin. apply enum_In in Hin.
  apply existsb_none. intros p2 _. cbn [is_mutex].
  destruct (Hp p Hin) as (_ & ->). reflexivity.
Qed.

Lemma a_mutex_test_pure (ser : bool) (h : Heap) (n1 n2 : aref) :
  a_node_shape h n1 -> a_node_shape h n2 ->
  a_mutex_test o ser h n1 n2 = act_mutex_test ser (get_a h n1) (get_a h n2).
Proof.
  intros S1 S2. unfold a_mutex_test, act_mutex_test.
  rewrite inconsistent_effects_pure, interference_pure, competing_needs_never
    by assumption.
  rewrite orb_false_r. f_equal. f_equal.
  unfold serialize_actions.
  destruct ser, (is_persistent (get_a h n1)), (is_persistent (get_a h n2));
    reflexivity.
Qed.

End PureTests.

Lemma act_inconsistent_effects_sym (a1 a2 : Action) :
  act_inconsistent_effects a1 a2 = act_inconsistent_effects a2 a1.
Proof.
  unfold act_inconsistent_effects. apply eq_true_iff_eq.
  rewrite !existsb_exists. split; intros (x & Hx & F);
    apply existsb_exists in F as (y & Hy & N);
    exists y; (split; [exact Hy |]); apply existsb_exists; exists x;
    (split; [exact Hx |]); now rewrite negates_sym.
Qed.

Lemma act_interference_sym (a1 a2 : Action) :
  act_interference a1 a2 = act_interference a2 a1.
Proof. unfold act_interference. apply orb_comm. Qed.

Lemma act_mutex_test_sym (ser : bool) (nd1 nd2 : PgNode_a) :
  act_mutex_test ser nd1 nd2 = act_mutex_test ser nd2 nd1.
Proof.
  unfold act_mutex_test.
  rewrite (act_inconsistent_effects_sym (action nd1)),
          (act_interference_sym (action nd1)), (orb_comm (is_persistent nd1)).
  reflexivity.
Qed.

(** ** What the mutex passes add *)

(** What the mutex loop adds, it adds because the test held. *)
Section MutexOnly.

Context {K : Type}.
Variable mx : Heap -> nat -> list nat.
Variable ky : Heap -> nat -> K.
Variable valid : Heap -> nat -> Prop.
Variable mfy : nat -> nat -> Heap -> Heap.
Variable same : Heap -> Heap -> Prop.
Variable mk : nat -> node.

Hypothesis same_refl : forall h, same h h.
Hypothesis same_trans : forall h1 h2 h3, same h1 h2 -> same h2 h3 -> same h1 h3.
Hypothesis same_ky : forall h h' i, same h h' -> ky h' i = ky h i.
Hypothesis same_valid : forall h h' i, same h h' -> valid h i -> valid h' i.
Hypothesis mfy_same : forall h a b, same h (mfy a b h).
Hypothesis mfy_mx : forall h a b i y, valid h a -> valid h b ->
  (In y (mx (mfy a b h) i) <->
   In y (mx h i)
   \/ (i = a /\ y = b /\ ~ In (ky h b) (map (ky h) (mx h a)))
   \/ (i = b /\ y = a /\ ~ In (ky h a) (map (ky h) (mx h b)))).
Hypothesis mfy_run : forall h a b, mutexify (mk a) (mk b) h = Ok (mfy a b h).

Lemma mutex_loop_only (test : Heap -> nat -> nat -> bool) (L : list nat)
  (P : list (nat * nat)) :
  forall h h', layer_ok mx ky valid h L ->
  (forall a b, In (a, b) P -> In a L /\ In b L) ->
  mutex_loop mk test P h = Ok h' ->
  forall i y, In y (mx h' i) ->
    In y (mx h i)
    \/ exists h'' a b,
         same h h'' /\ layer_ok mx ky valid h'' L /\ In (a, b) P /\
         test h'' a b = true /\ ~ In b (mx h'' a) /\ ~ In a (mx h'' b) /\
         ((i = a /\ y = b) \/ (i = b /\ y = a)).
Proof.
  induction P as [| [a b] P IH]; intros h h' Hok HP Hrun i y Hy.
  - unfold mutex_loop in Hrun. cbn [for_each] in Hrun. inversion Hrun; subst h'.
    now left.
  - destruct (HP a b (or_introl eq_refl)) as [Ha Hb].
    assert (HP' : forall a b, In (a, b) P -> In a L /\ In b L)
      by (intros; apply HP; now right).
    unfold mutex_loop in Hrun. cbn [for_each] in Hrun.
    destruct (test h a b) eqn:T.
    + rewrite mfy_run in Hrun. cbn [bind] in Hrun.
      pose proof (mfy_layer_ok mx ky valid mfy same same_ky same_valid mfy_same
                    mfy_mx h L a b Hok Ha Hb) as Hok1.
      destruct (IH (mfy a b h) h' Hok1 HP' Hrun i y Hy)
        as [H1 | (h'' & a' & b' & Hs & Hok'' & Hin & R)].
      * assert (Va : valid h a) by (now apply Hok).
        assert (Vb : valid h b) by (now apply Hok).
        apply mfy_mx in H1; auto.
        pose proof Hok as (_ & _ & _ & Hsym).
        destruct H1 as [H1 | [(-> & -> & N) | (-> & -> & N)]]; [now left | |];
          right; exists h, a, b; (split; [apply same_refl |]);
          (split; [exact Hok |]); (split; [now left |]); (split; [exact T |]).
        -- assert (N1 : ~ In b (mx h a)) by (intros H; apply N; now apply in_map).
           split; [exact N1 |]. split; [| left; auto].
           intros H. apply N1. now apply (Hsym a b Ha Hb).
        -- assert (N1 : ~ In a (mx h b)) by (intros H; apply N; now apply in_map).
           split; [| split; [exact N1 | right; auto]].
           intros H. apply N1. now apply (Hsym a b Ha Hb).
      * right. exists h'', a', b'.
        split; [eapply same_trans; [apply mfy_same | exact Hs] |].
        split; [exact Hok'' |]. split; [now right | exact R].
    + cbn [bind] in Hrun.
      destruct (IH h h' Hok HP' Hrun i y Hy)
        as [H1 | (h'' & a' & b' & Hs & Hok'' & Hin & R)]; [now left |].
      right. exists h'', a', b'. split; [exact Hs |]. split; [exact Hok'' |].
      split; [now right | exact R].
Qed.

End MutexOnly.

Lemma pairs_rec_neq {A} (l : list A) (a b : A) :
  NoDup l -> In (a, b) (pairs_rec l) -> a <> b.
Proof.
  induction l as [| x r IH]; simpl; [tauto |].
  intros Hnd H. inversion Hnd as [| ? ? Hx Hr]; subst.
  apply in_app_iff in H. destruct H as [H | H].
  - apply in_map_iff in H as (y & E & Hy). inversion E; subst.
    intros ->. contradiction.
  - now apply IH.
Qed.

Lemma sibling_pairs_neq (o : set_order) (l : list nat) (a b : nat) :
  NoDup l -> In (a, b) (sibling_pairs (enum o l)) -> a <> b.
Proof.
  intros Hnd. rewrite sibling_pairs_rec. apply pairs_rec_neq.
  apply (Permutation_NoDup (Permutation_sym (enum_perm o l)) Hnd).
Qed.

(** ** The two instances *)

Lemma update_a_mutex_only (o : set_order) (ser : bool) (L : list aref)
  (h h' : Heap) :
  a_layer_ok h L -> update_a_mutex o ser L h = Ok h' ->
  forall i y, In y (a_mx h' i) ->
    In y (a_mx h i)
    \/ exists h'' a b,
         same_but_a_mutex h h'' /\ a_layer_ok h'' L /\ In a L /\ In b L /\
         a <> b /\
         a_mutex_test o ser h'' a b = true /\
         ~ In b (a_mx h'' a) /\ ~ In a (a_mx h'' b) /\
         ((i = a /\ y = b) \/ (i = b /\ y = a)).
Proof.
  intros Hok Hrun i y Hy.
  destruct (mutex_loop_only a_mx akey a_valid mutexify_a same_but_a_mutex ANode
              same_but_a_mutex_refl same_but_a_mutex_trans
              (fun h h' i H => same_but_a_mutex_key h h' i H))
    with (test := a_mutex_test o ser) (L := L)
         (P := sibling_pairs (enum o L)) (h := h) (h' := h') (i := i) (y := y)
    as [H | (h'' & a & b & Hs & Hok'' & Hin & R)]; auto.
  - intros h0 h1 j (_ & E & _). unfold a_valid. now rewrite E.
  - apply mutexify_a_same.
  - intros h0 a b j z Ha Hb. unfold a_mx.
    rewrite mutexify_a_mutex by assumption.
    now rewrite !a_in_false_iff.
  - intros a b. apply sibling_pairs_In.
  - right. exists h'', a, b. split; [exact Hs |]. split; [exact Hok'' |].
    destruct (sibling_pairs_In o L a b Hin) as (Ha & Hb).
    split; [exact Ha |]. split; [exact Hb |]. split; [| exact R].
    apply (sibling_pairs_neq o L a b); [| exact Hin].
    eapply layer_ok_NoDup; exact Hok.
Qed.

Lemma update_s_mutex_only (o : set_order) (L : list sref) (h h' : Heap) :
  s_layer_ok h L -> update_s_mutex o L h = Ok h' ->
  forall i y, In y (s_mx h' i) ->
    In y (s_mx h i)
    \/ exists h'' a b,
         same_but_s_mutex h h'' /\ s_layer_ok h'' L /\ In a L /\ In b L /\
         a <> b /\
         s_mutex_test o h'' a b = true /\
         ~ In b (s_mx h'' a) /\ ~ In a (s_mx h'' b) /\
         ((i = a /\ y = b) \/ (i = b /\ y = a)).
Proof.
  intros Hok Hrun i y Hy.
  destruct (mutex_loop_only s_mx skey s_valid mutexify_s same_but_s_mutex SNode
              same_but_s_mutex_refl same_but_s_mutex_trans
              (fun h h' i H => same_but_s_mutex_key h h' i H))
    with (test := s_mutex_test o) (L := L)
         (P := sibling_pairs (enum o L)) (h := h) (h' := h') (i := i) (y := y)
    as [H | (h'' & a & b & Hs & Hok'' & Hin & R)]; auto.
  - intros h0 h1 j (_ & E & _). unfold s_valid. now rewrite E.
  - apply mutexify_s_same.
  - intros h0 a b j z Ha Hb. unfold s_mx.
    rewrite mutexify_s_mutex by assumption.
    now rewrite !s_in_false_iff.
  - intros a b. apply sibling_pairs_In.
  - right. exists h'', a, b. split; [exact Hs |]. split; [exact Hok'' |].
    destruct (sibling_pairs_In o L a b Hin) as (Ha & Hb).
    split; [exact Ha |]. split; [exact Hb |]. split; [| exact R].
    apply (sibling_pairs_neq o L a b); [| exact Hin].
    eapply layer_ok_NoDup; exact Hok.
Qed.

(** ** Children and parents set by [add_literal_level] *)

Lemma effects_loop_children (n : aref) (es : list sref) :
  forall (h h' : Heap) (lits lits' : list sref),
  n < length (anodes h) ->
  fold_left (fun st' e =>
      (mut_a (fst st') n (add_a_child e (fst st')),
       s_add (fst st') e (snd st'))) es (h, lits) = (h', lits') ->
  (forall c, In c (a_children (get_a h' n)) ->
     In c (a_children (get_a h n)) \/ In c es) /\
  (forall k, In k (skeys h (a_children (get_a h' n))) <->
     In k (skeys h (a_children (get_a h n))) \/ In k (skeys h es)).
Proof.
  induction es as [| e es IH]; intros h h' lits lits' Hn Hrun.
  - simpl in Hrun. inversion Hrun; subst. split; [auto |].
    intros k. simpl. tauto.
  - cbn [fold_left fst snd] in Hrun.
    set (h1 := mut_a h n (add_a_child e h)) in *.
    assert (L1 : n < length (anodes h1))
      by (unfold h1; cbn [anodes mut_a]; now rewrite length_upd).
    destruct (IH h1 h' _ _ L1 Hrun) as (C & Kk).
    assert (G : a_children (get_a h1 n) = s_add h e (a_children (get_a h n))).
    { unfold h1. rewrite get_a_mut_a_same by exact Hn. reflexivity. }
    assert (E1 : snodes h1 = snodes h) by reflexivity.
    split.
    + intros c Hc. apply C in Hc. rewrite G in Hc.
      destruct Hc as [Hc | Hc]; [| simpl; auto].
      apply s_add_In in Hc. destruct Hc as [Hc | [-> _]]; simpl; auto.
    + intros k. rewrite <- (skeys_snodes h h1 _ E1), Kk.
      rewrite !(skeys_snodes h h1 _ E1), G, s_add_keys. simpl.
      intuition (subst; auto).
Qed.

Lemma connect_effects_children (o : set_order) (ns : list aref) :
  forall (h h' : Heap) (lits lits' : list sref),
  (forall n, In n ns -> n < length (anodes h)) ->
  fold_left (connect_effects o) ns (h, lits) = (h', lits') ->
  forall n,
    (forall c, In c (a_children (get_a h' n)) ->
       In c (a_children (get_a h n))
       \/ (In n ns /\ In c (effnodes (get_a h n)))) /\
    (forall k, In k (skeys h (a_children (get_a h' n))) <->
       In k (skeys h (a_children (get_a h n)))
       \/ (In n ns /\ In k (skeys h (effnodes (get_a h n))))).
Proof.
  induction ns as [| n0 ns IH]; intros h h' lits lits' Hv Hrun n.
  - simpl in Hrun. inversion Hrun; subst. split; [auto |].
    intros k. simpl. tauto.
  - cbn [fold_left] in Hrun. unfold connect_effects at 2 in Hrun.
    cbn [fst snd] in Hrun.
    destruct (effects_loop_spec n0 (enum o (effnodes (get_a h n0))) h lits)
      as (h1 & lits1 & E1 & Es1 & Hc1 & Ho1 & _).
    rewrite E1 in Hrun.
    assert (V0 : n0 < length (anodes h)) by (apply Hv; now left).
    destruct (effects_loop_children n0 _ h h1 lits lits1 V0 E1) as (C0 & K0).
    assert (L1 : length (anodes h1) = length (anodes h))
      by (now destruct Hc1 as (_ & L & _)).
    assert (Hv1 : forall m, In m ns -> m < length (anodes h1))
      by (intros m Hm; rewrite L1; apply Hv; now right).
    destruct (IH h1 h' lits1 lits' Hv1 Hrun n) as (C & Kk).
    assert (Eff : effnodes (get_a h1 n) = effnodes (get_a h n))
      by (now apply same_core_effnodes).
    split.
    + intros c Hc. apply C in Hc. rewrite Eff in Hc.
      destruct Hc as [Hc | (Hin & Hc)]; [| right; split; [now right | exact Hc]].
      destruct (Nat.eq_dec n n0) as [-> | Hne].
      * apply C0 in Hc. destruct Hc as [Hc | Hc]; [now left | right].
        split; [now left | now apply enum_In in Hc].
      * left. now rewrite <- (Ho1 n Hne).
    + intros k. rewrite <- (skeys_snodes h h1 _ Es1), Kk.
      rewrite !(skeys_snodes h h1 _ Es1), Eff.
      destruct (Nat.eq_dec n n0) as [-> | Hne].
      * rewrite K0, skeys_enum. simpl. tauto.
      * rewrite (Ho1 n Hne). simpl. intuition congruence.
Qed.

Lemma parents_loop_exact (nd : sref) (ans : list aref) :
  forall (h : Heap),
  nd < length (snodes h) ->
  let h' := fold_left (fun h' an =>
                if s_in h' nd (effnodes (get_a h' an))
                then mut_s h' nd (add_s_parent an h')
                else h') ans h in
  (forall a, In a (s_parents (get_s h' nd)) ->
     In a (s_parents (get_s h nd))
     \/ (In a ans /\ s_in h nd (effnodes (get_a h a)) = true)) /\
  (forall k, In k (akeys h (s_parents (get_s h' nd))) <->
     In k (akeys h (s_parents (get_s h nd)))
     \/ exists a, In a ans /\ s_in h nd (effnodes (get_a h a)) = true /\
                  k = akey h a).
Proof.
  induction ans as [| an ans IH]; intros h Hnd.
  - simpl. split; [auto |]. intros k. split; [auto |].
    intros [H | (a & [] & _)]. exact H.
  - cbn [fold_left].
    set (h1 := if s_in h nd (effnodes (get_a h an))
               then mut_s h nd (add_s_parent an h) else h).
    assert (A1 : anodes h1 = anodes h).
    { unfold h1. now destruct (s_in h nd (effnodes (get_a h an))). }
    assert (C1 : same_core h h1).
    { unfold h1. destruct (s_in h nd (effnodes (get_a h an)));
        [apply mut_s_parent_core | apply same_core_refl]. }
    assert (L1 : nd < length (snodes h1))
      by (destruct C1 as (L & _); now rewrite L).
    assert (G : forall a, get_a h1 a = get_a h a)
      by (intros a; unfold get_a; now rewrite A1).
    assert (T : forall a, s_in h1 nd (effnodes (get_a h1 a))
                          = s_in h nd (effnodes (get_a h a))).
    { intros a. rewrite G. apply s_in_ext. intros i. now apply same_core_skey. }
    assert (AK : forall l, akeys h1 l = akeys h l).
    { intros l. apply akeys_agree. intros x _. apply G. }
    assert (P1 : s_parents (get_s h1 nd)
                 = if s_in h nd (effnodes (get_a h an))
                   then a_add h an (s_parents (get_s h nd))
                   else s_parents (get_s h nd)).
    { unfold h1. destruct (s_in h nd (effnodes (get_a h an))); [| reflexivity].
      rewrite get_s_mut_s_same by exact Hnd. reflexivity. }
    destruct (IH h1 L1) as (C & Kk). split.
    + intros a Ha. apply C in Ha. rewrite T in Ha.
      destruct Ha as [Ha | (Hin & Ha)]; [| right; split; [now right | exact Ha]].
      rewrite P1 in Ha.
      destruct (s_in h nd (effnodes (get_a h an))) eqn:S; [| now left].
      apply a_add_In in Ha. destruct Ha as [Ha | [-> _]]; [now left | right].
      split; [now left | exact S].
    + intros k. rewrite <- AK, Kk, !AK, P1.
      assert (AKy : forall a, akey h1 a = akey h a)
        by (intros a; unfold akey; now rewrite G).
      split.
      * intros [H | (a & Hin & Ha & Ek)].
        -- destruct (s_in h nd (effnodes (get_a h an))) eqn:S; [| now left].
           apply a_add_keys in H. destruct H as [-> | H]; [right | now left].
           exists an. split; [now left |]. split; [exact S | reflexivity].
        -- right. exists a. rewrite T in Ha. rewrite AKy in Ek.
           split; [now right |]. split; assumption.
      * intros [H | (a & [<- | Hin] & Ha & Ek)].
        -- left. destruct (s_in h nd (effnodes (get_a h an))); [| exact H].
           apply a_add_keys. now right.
        -- left. rewrite Ha. apply a_add_keys. now left.
        -- right. exists a. split; [exact Hin |]. rewrite T, AKy.
           split; assumption.
Qed.

Lemma connect_parents_exact (o : set_order) (alevel : list aref)
  (nds : list sref) :
  forall (h : Heap),
  (forall nd, In nd nds -> nd < length (snodes h)) ->
  forall nd,
  (forall a, In a (s_parents (get_s (fold_left (connect_parents o alevel) nds h) nd)) ->
     In a (s_parents (get_s h nd))
     \/ (In nd nds /\ In a alevel /\
         s_in h nd (effnodes (get_a h a)) = true)) /\
  (forall k, In k (akeys h (s_parents
                     (get_s (fold_left (connect_parents o alevel) nds h) nd))) <->
     In k (akeys h (s_parents (get_s h nd)))
     \/ (In nd nds /\ exists a, In a alevel /\
           s_in h nd (effnodes (get_a h a)) = true /\ k = akey h a)).
Proof.
  induction nds as [| nd0 nds IH]; intros h Hv nd.
  - simpl. split; [auto |]. intros k. split; [auto |].
    intros [H | ([] & _)]. exact H.
  - cbn [fold_left]. unfold connect_parents at 2 4.
    assert (V0 : nd0 < length (snodes h)) by (apply Hv; now left).
    destruct (parents_loop_exact nd0 (enum o alevel) h V0) as (C0 & K0).
    destruct (parents_loop_spec nd0 (enum o alevel) h)
      as (h1 & E1 & A1 & C1 & O1 & _).
    rewrite E1 in *.
    assert (G : forall a, get_a h1 a = get_a h a)
      by (intros a; unfold get_a; now rewrite A1).
    assert (T : forall x a, s_in h1 x (effnodes (get_a h1 a))
                            = s_in h x (effnodes (get_a h a))).
    { intros x a. rewrite G. apply s_in_ext. intros i. now apply same_core_skey. }
    assert (AK : forall l, akeys h1 l = akeys h l).
    { intros l. apply akeys_agree. intros x _. apply G. }
    assert (AKy : forall a, akey h1 a = akey h a)
      by (intros a; unfold akey; now rewrite G).
    assert (Hv1 : forall x, In x nds -> x < length (snodes h1)).
    { intros x Hx. destruct C1 as (L & _). rewrite L. apply Hv. now right. }
    destruct (IH h1 Hv1 nd) as (C & Kk). split.
    + intros a Ha. apply C in Ha. rewrite T in Ha.
      destruct Ha as [Ha | (Hin & Ha)];
        [| right; split; [now right | exact Ha]].
      destruct (Nat.eq_dec nd nd0) as [-> | Hne].
      * apply C0 in Ha. destruct Ha as [Ha | (Hin & Ha)]; [now left | right].
        split; [now left |]. split; [now apply enum_In in Hin | exact Ha].
      * left. now rewrite <- (O1 nd Hne).
    + intros k. rewrite <- AK, Kk, !AK.
      destruct (Nat.eq_dec nd nd0) as [-> | Hne].
      * rewrite K0. split.
        -- intros [[H | (a & Hin & Ha & Ek)] | (Hin & a & Ha & Hs & Ek)].
           ++ now left.
           ++ right. split; [now left |]. exists a.
              split; [now apply enum_In in Hin | auto].
           ++ right. split; [now left |]. exists a. rewrite T in Hs.
              rewrite AKy in Ek. auto.
        -- intros [H | (_ & a & Ha & Hs & Ek)]; [left; now left |].
           left. right. exists a. split; [now apply enum_In |]. auto.
      * rewrite (O1 nd Hne). split.
        -- intros [H | (Hin & a & Ha & Hs & Ek)]; [now left | right].
           split; [now right |]. exists a. rewrite T in Hs. rewrite AKy in Ek.
           auto.
        -- intros [H | ([E | Hin] & a & Ha & Hs & Ek)];
             [now left | congruence | right].
           split; [exact Hin |]. exists a. rewrite T, AKy. auto.
Qed.

(** ** The persistence flag *)

Lemma new_PgNode_a_persistent (h : Heap) (act : Action) :
  action (get_a (snd (new_PgNode_a h act)) (fst (new_PgNode_a h act))) = act /\
  (is_persistent (get_a (snd (new_PgNode_a h act)) (fst (new_PgNode_a h act)))
   = true
   <-> (forall k, In k (precond_lits act) <-> In k (effect_lits act))).
Proof.
  unfold new_PgNode_a, precond_s_nodes, effect_s_nodes.
  destruct (signed_nodes_spec (precond_pos act) (precond_neg act) h)
    as (pre & ss1 & -> & F1 & B1 & K1 & _).
  set (h1 := mkHeap (snodes h ++ ss1) (anodes h)) in *.
  destruct (signed_nodes_spec (effect_add act) (effect_rem act) h1)
    as (eff & ss2 & -> & F2 & B2 & K2 & _).
  set (h2 := mkHeap (snodes h1 ++ ss2) (anodes h1)) in *.
  cbn [fst snd]. unfold get_a. cbn [anodes]. rewrite nth_middle.
  cbn [action is_persistent]. split; [reflexivity |].
  assert (Kp : skeys h2 pre = skeys h1 pre).
  { apply skeys_agree. intros x Hx. apply (get_s_app_l h1 h2 ss2); [reflexivity |].
    apply B1 in Hx. unfold h1. cbn [snodes]. rewrite length_app. lia. }
  rewrite s_set_eq_iff, Kp. unfold precond_lits, effect_lits. split.
  - intros (I1 & I2) k. rewrite <- K1, <- K2. split; [apply I1 | apply I2].
  - intros H. split; intros k Hk.
    + apply K2, H, K1, Hk.
    + apply K1, H, K2, Hk.
Qed.

(** A property of freshly constructed action nodes holds of every node
    admitted by [add_action_level]. *)
Lemma admit_loop_nodes (P : PgNode_a -> Prop) (slevels : list (list sref))
  (level : nat) :
  (forall h act,
     P (get_a (snd (new_PgNode_a h act)) (fst (new_PgNode_a h act)))) ->
  (forall nd ps, P nd -> P (set_a_parents ps nd)) ->
  forall acts h acc h' acc',
  (forall n, In n acc -> n < length (anodes h) /\ P (get_a h n)) ->
  for_each (admit_action slevels level) acts (h, acc) = Ok (h', acc') ->
  forall n, In n acc' -> n < length (anodes h') /\ P (get_a h' n).
Proof.
  intros Hnew Hset. induction acts as [| act acts IH];
    intros h acc h' acc' Hacc Hrun.
  - cbn [for_each] in Hrun. inversion Hrun; subst. exact Hacc.
  - cbn [for_each] in Hrun. unfold admit_action at 1 in Hrun.
    cbn [fst snd] in Hrun. pose proof (Hnew h act) as Pn.
    destruct (new_PgNode_a_spec h act) as (ss & nd & E & _).
    rewrite E in Hrun, Pn. cbn [fst snd] in Pn.
    set (h1 := mkHeap (snodes h ++ ss) (anodes h ++ [nd])) in *.
    set (n0 := length (anodes h)) in *.
    cbv beta iota in Hrun.
    destruct (py_index slevels level) as [slevel | e]; [| discriminate].
    cbn [bind] in Hrun.
    assert (Old1 : forall m, m < length (anodes h) -> get_a h1 m = get_a h m).
    { intros m Hm. eapply get_a_app_l; [reflexivity | exact Hm]. }
    assert (L1 : length (anodes h1) = S (length (anodes h)))
      by (unfold h1; cbn [anodes]; rewrite length_app; simpl; lia).
    destruct (s_subset h1 (prenodes (get_a h1 n0)) slevel).
    + cbn [bind] in Hrun. eapply IH; [| exact Hrun].
      intros n Hn. cbn [anodes mut_a]. rewrite length_upd, L1.
      apply a_add_In in Hn. destruct Hn as [Hn | [-> _]].
      * destruct (Hacc n Hn) as (Hlt & Hp). split; [lia |].
        rewrite get_a_mut_a_other by (unfold n0; lia). now rewrite Old1.
      * split; [unfold n0; lia |].
        rewrite get_a_mut_a_same by (rewrite L1; unfold n0; lia).
        now apply Hset.
    + cbn [bind] in Hrun. eapply IH; [| exact Hrun].
      intros n Hn. destruct (Hacc n Hn) as (Hlt & Hp). rewrite L1.
      split; [lia |]. now rewrite Old1.
Qed.

(** ** The detailed invariant of the construction *)

Lemma negation_mutex_sym (h : Heap) (a b : sref) :
  negation_mutex h a b = negation_mutex h b a.
Proof.
  unfold negation_mutex.
  assert (S : expr_eqb (symbol (get_s h a)) (symbol (get_s h b))
              = expr_eqb (symbol (get_s h b)) (symbol (get_s h a))).
  { apply eq_true_iff_eq. rewrite !expr_eqb_eq. split; congruence. }
  rewrite S. destruct (is_pos (get_s h a)), (is_pos (get_s h b)); reflexivity.
Qed.

Lemma negation_mutex_ext (h h' : Heap) (a b : sref) :
  skey h' a = skey h a -> skey h' b = skey h b ->
  negation_mutex h' a b = negation_mutex h a b.
Proof.
  unfold skey, s_key, negation_mutex. intros Ea Eb.
  inversion Ea. inversion Eb. congruence.
Qed.

Lemma act_mutex_test_ext (ser : bool) (n1 n2 m1 m2 : PgNode_a) :
  a_sig n1 = a_sig m1 -> a_sig n2 = a_sig m2 ->
  act_mutex_test ser n1 n2 = act_mutex_test ser m1 m2.
Proof.
  intros E1 E2.
  destruct (a_sig_fields _ _ E1) as (A1 & _ & _ & P1 & _).
  destruct (a_sig_fields _ _ E2) as (A2 & _ & _ & P2 & _).
  unfold act_mutex_test. now rewrite A1, A2, P1, P2.
Qed.

(** [layer_detail] only reads objects that later passes leave alone. *)
Lemma layer_detail_agree (h h' : Heap) (ser : bool) (La : list aref)
  (Sn : list sref) :
  agree h h' -> a_layer_ok h La -> s_layer_ok h Sn ->
  layer_detail h ser La Sn -> layer_detail h' ser La Sn.
Proof.
  intros Ha OkA OkS (Dn & Dm & Dp & Ds & Ia & Is).
  pose proof (fun x => a_layer_ok_valid h La x OkA) as VLa.
  pose proof (fun x => s_layer_ok_valid h Sn x OkS) as VSn.
  pose proof Ha as (A & B & C & D).
  assert (G : forall n, In n La -> get_a h' n = get_a h n) by (intros; auto).
  assert (Gs : forall s, In s Sn -> get_s h' s = get_s h s) by (intros; auto).
  split; [| split; [| split; [| split; [| split]]]].
  - intros n Hn. rewrite (G n Hn).
    destruct (Dn n Hn) as (D1 & D2 & D3 & D4 & D5).
    assert (VC : forall c, In c (a_children (get_a h n)) ->
                           c < length (snodes h)) by (intros c Hc; auto).
    rewrite (skeys_agree_valid h h' _ Ha D2).
    rewrite (skeys_agree_valid h h' _ Ha VC).
    split; [exact D1 |]. split; [| split; [exact D3 | split; [exact D4 | exact D5]]].
    intros x Hx. apply D2 in Hx. lia.
  - intros n1 n2 H1 H2 Hne. unfold a_mx. rewrite !G by assumption.
    now apply Dm.
  - intros s n Hs. rewrite (Gs s Hs). unfold skey. rewrite (Gs s Hs).
    fold (skey h s). rewrite (Dp s n Hs). split.
    + intros (Hn & Hk). rewrite (G n Hn). auto.
    + intros (Hn & Hk). rewrite (G n Hn) in Hk. auto.
  - intros s1 s2 H1 H2 Hne. unfold s_mx. rewrite !Gs by assumption.
    fold (s_mx h s1).
    rewrite (negation_mutex_ext h h' s1 s2)
      by (unfold skey; now rewrite Gs).
    rewrite (Ds s1 s2 H1 H2 Hne). split.
    + intros [N | Hsup]; [now left | right]. intros p1 p2 P1 P2.
      assert (In p1 La) by (now apply (Dp s1 p1 H1)).
      unfold a_mx. rewrite G by assumption. now apply Hsup.
    + intros [N | Hsup]; [now left | right]. intros p1 p2 P1 P2.
      assert (In p1 La) by (now apply (Dp s1 p1 H1)).
      specialize (Hsup p1 p2 P1 P2). unfold a_mx in Hsup.
      now rewrite G in Hsup by assumption.
  - intros n Hn. unfold a_mx. rewrite (G n Hn). now apply Ia.
  - intros s Hs. unfold s_mx. rewrite (Gs s Hs). now apply Is.
Qed.

Lemma get_s_overflow (h : Heap) (i : sref) :
  length (snodes h) <= i -> get_s h i = null_s.
Proof. intros H. unfold get_s. now apply nth_overflow. Qed.

Lemma s_static_fields n m :
  s_static n = s_static m ->
  symbol n = symbol m /\ is_pos n = is_pos m /\
  s_parents n = s_parents m /\ s_children n = s_children m.
Proof. unfold s_static. intros E. inversion E. auto. Qed.

Lemma a_static_fields n m :
  a_static n = a_static m ->
  action n = action m /\ prenodes n = prenodes m /\ effnodes n = effnodes m /\
  is_persistent n = is_persistent m /\ a_parents n = a_parents m /\
  a_children n = a_children m.
Proof. unfold a_static. intros E. inversion E. repeat split; assumption. Qed.

Lemma s_core_fields n m :
  s_core n = s_core m ->
  symbol n = symbol m /\ is_pos n = is_pos m /\
  s_children n = s_children m /\ s_mutex n = s_mutex m.
Proof. unfold s_core. intros E. inversion E. auto. Qed.

Lemma a_core_fields n m :
  a_core n = a_core m -> a_mutex n = a_mutex m.
Proof. unfold a_core. intros E. now inversion E. Qed.

Lemma forallb2_iff {A B} (f : A -> B -> bool) (l1 : list A) (l2 : list B) :
  forallb (fun x => forallb (f x) l2) l1 = true
  <-> (forall x y, In x l1 -> In y l2 -> f x y = true).
Proof.
  rewrite forallb_forall. split.
  - intros H x y Hx Hy. specialize (H x Hx). rewrite forallb_forall in H. auto.
  - intros H x Hx. apply forallb_forall. auto.
Qed.

(** One pass of the loop keeps the detailed invariant. *)
Lemma grow_detail (o : set_order) (pg : PlanningGraph) :
  graph_inv pg -> graph_detail pg ->
  forall pg' b, grow o pg (length (a_levels pg)) = Ok (pg', b) ->
  graph_detail pg'.
Proof.
  intros Hinv (Hch & Hdet) pg' bl Hgrow.
  destruct (grow_spec o pg Hinv) as (La0 & Sn0 & Sl & h40 & Eg & ESl & Ag & Hinv').
  pose proof Hinv as (H0 & Hlen & HS & HL & HA).
  set (h0 := heap pg) in *.
  pose proof (HS _ Sl ESl) as OkSl.
  pose proof (fun x => s_layer_ok_valid h0 Sl x OkSl) as VSl.
  (* the action layer *)
  destruct (add_action_level_spec pg (length (a_levels pg)) Sl)
    as (h1 & La & E1 & Hinv1);
    [unfold py_index; now rewrite ESl | exact VSl |].
  assert (F1 : for_each (admit_action (s_levels pg) (length (a_levels pg)))
                 (all_actions pg) (h0, []) = Ok (h1, La)).
  { unfold add_action_level in E1. fold h0 in E1.
    destruct (for_each (admit_action (s_levels pg) (length (a_levels pg)))
                (all_actions pg) (h0, [])) as [[h1' La'] | e]; [| discriminate].
    cbn [bind fst snd] in E1.
    assert (X := f_equal (fun r => match r with
                                   | Ok p => (a_levels p, heap p)
                                   | Raise _ => ([], empty_heap)
                                   end) E1).
    cbn in X. injection X as A B. apply app_inv_head in A.
    injection A as A. now subst. }
  destruct Hinv1 as ((ss & aa & Es1 & Fs1 & Ea1) & Hacc & Hnd1 & Hcov1 & Hsep1).
  cbn [fst snd] in *. fold h0 in Es1, Ea1, Hacc, Hcov1.
  assert (OkA1 : a_layer_ok h1 La).
  { split; [| split; [| split]].
    - intros n Hn. apply Hacc in Hn. unfold a_valid. lia.
    - exact Hnd1.
    - intros n Hn. destruct (Hacc n Hn) as (_ & _ & _ & _ & Mn & _).
      unfold a_mx. rewrite Mn. intros y [].
    - intros n m Hn Hm. unfold a_mx.
      destruct (Hacc n Hn) as (_ & _ & _ & _ & Mn & _).
      destruct (Hacc m Hm) as (_ & _ & _ & _ & Mm & _).
      rewrite Mn, Mm. simpl. tauto. }
  (* its mutexes *)
  destruct (update_a_mutex_spec o (serial pg) La h1 OkA1)
    as (h2 & E2 & Hs2 & OkA2 & Ho2 & Hm2 & Hf2).
  (* the fact layer, its two passes *)
  destruct (connect_effects_spec o (enum o La) h2 [])
    as (h2' & Sn & Est & Es2' & Hc2' & Ho2' & Hin2' & Hk2' & Hnd2').
  destruct (connect_parents_spec o La (enum o Sn) h2')
    as (h3 & Ep & Ea3 & Hc3' & Ho3' & Hm3' & Hw3').
  destruct (add_literal_level_spec o
              (mkPG (problem pg) (fs pg) (serial pg) (all_actions pg)
                 (s_levels pg) (a_levels pg ++ [La]) h2)
              (length (a_levels pg) + 1) La)
    as (h3_ & Sn_ & E3 & Hc3 & Hoa3 & Hos3 & HSn & Hk3 & Hnd3 & Hpar3).
  { rewrite Nat.add_1_r. cbn [py_index_pred a_levels]. unfold py_index.
    now rewrite nth_error_last. }
  assert (h3_ = h3 /\ Sn_ = Sn) as (-> & ->).
  { unfold add_literal_level in E3. rewrite Nat.add_1_r in E3.
    cbn [py_index_pred a_levels heap] in E3. unfold py_index in E3.
    rewrite nth_error_last in E3. cbn [bind] in E3. rewrite Est in E3.
    cbn [fst snd] in E3. rewrite Ep in E3.
    assert (X := f_equal (fun r => match r with
                                   | Ok p => (s_levels p, heap p)
                                   | Raise _ => ([], empty_heap)
                                   end) E3).
    cbn in X. injection X as A B. apply app_inv_head in A.
    injection A as A. now subst. }
  cbn [heap problem fs serial all_actions s_levels a_levels] in *.
  pose proof Hs2 as (Es2 & La2 & St2).
  pose proof Hc3 as (Ls3 & La3 & Sc3 & Ac3).
  assert (K21 : forall i, skey h2 i = skey h1 i)
    by (intros i; unfold skey, get_s; now rewrite Es2).
  assert (K2'2 : forall i, skey h2' i = skey h2 i)
    by (intros i; unfold skey, get_s; now rewrite Es2').
  assert (K31 : forall i, skey h3 i = skey h1 i)
    by (intros i; rewrite (same_core_skey h2 h3 i Hc3); apply K21).
  assert (Sig21 : forall i, a_sig (get_a h2 i) = a_sig (get_a h1 i))
    by (intros i; apply a_static_sig, St2).
  assert (Sig31 : forall i, a_sig (get_a h3 i) = a_sig (get_a h1 i))
    by (intros i; rewrite <- Sig21; apply a_core_sig, Ac3).
  assert (BLa : forall n, In n La -> length (anodes h0) <= n < length (anodes h1))
    by (intros n Hn; now apply Hacc).
  assert (BSn : forall x, In x Sn -> length (snodes h0) <= x < length (snodes h1)).
  { intros x Hx. destruct (HSn x Hx) as (n & Hn & He).
    destruct (a_sig_fields _ _ (Sig21 n)) as (_ & _ & Ee & _).
    rewrite Ee in He.
    destruct (Hacc n Hn) as (_ & _ & _ & _ & _ & _ & Be & _). now apply Be. }
  assert (Fr1 : forall x, length (snodes h0) <= x < length (snodes h1) ->
                          fresh_s (get_s h1 x))
    by (intros x Hx; eapply fresh_new; eauto).
  assert (G21s : forall i, get_s h2 i = get_s h1 i)
    by (intros i; unfold get_s; now rewrite Es2).
  assert (Fr3 : forall x, In x Sn -> s_mutex (get_s h3 x) = []).
  { intros x Hx. destruct (s_core_fields _ _ (Sc3 x)) as (_ & _ & _ & ->).
    rewrite G21s. now destruct (Fr1 x (BSn x Hx)) as (_ & _ & M). }
  assert (OkS3 : s_layer_ok h3 Sn).
  { split; [| split; [| split]].
    - intros x Hx. apply BSn in Hx. unfold s_valid. rewrite Ls3, Es2. lia.
    - change (NoDup (skeys h3 Sn)).
      rewrite (skeys_same_keys h2 h3 Sn (fun i => same_core_skey h2 h3 i Hc3)).
      exact Hnd3.
    - intros x Hx. unfold s_mx. rewrite (Fr3 x Hx). intros y [].
    - intros x y Hx Hy. unfold s_mx. rewrite (Fr3 x Hx), (Fr3 y Hy).
      simpl. tauto. }
  destruct (update_s_mutex_spec o Sn h3 OkS3)
    as (h4 & E4 & Hs4 & OkS4 & Ho4 & Hm4 & Hf4).
  pose proof Hs4 as (Ea4 & Ls4 & St4).
  assert (K41 : forall i, skey h4 i = skey h1 i)
    by (intros i; rewrite (same_but_s_mutex_key h3 h4 i Hs4); apply K31).
  assert (G43 : forall i, get_a h4 i = get_a h3 i)
    by (intros i; unfold get_a; now rewrite Ea4).
  assert (G32' : forall i, get_a h3 i = get_a h2' i)
    by (intros i; unfold get_a; now rewrite Ea3).
  assert (Sig41 : forall i, a_sig (get_a h4 i) = a_sig (get_a h1 i))
    by (intros i; rewrite G43; apply Sig31).
  assert (Mx42 : forall i, a_mx h4 i = a_mx h2 i).
  { intros i. unfold a_mx. rewrite G43. apply a_core_fields, Ac3. }
  (* the graph that [grow] returns *)
  assert (EG : grow o pg (length (a_levels pg))
               = Ok (mkPG (problem pg) (fs pg) (serial pg) (all_actions pg)
                       (s_levels pg ++ [Sn]) (a_levels pg ++ [La]) h4,
                     s_set_eq h4 Sn Sl)).
  { unfold grow. rewrite E1. cbn [bind a_levels serial heap with_heap
      problem fs all_actions s_levels].
    unfold py_index at 1. rewrite nth_error_last. cbn [bind]. rewrite E2.
    cbn [bind]. unfold with_heap at 1.
    cbn [a_levels serial heap problem fs all_actions s_levels].
    rewrite E3. cbn [bind]. unfold with_heap.
    cbn [a_levels serial heap problem fs all_actions s_levels].
    unfold py_index at 1. rewrite Nat.add_1_r.
    replace (S (length (a_levels pg))) with (length (s_levels pg)) by lia.
    rewrite nth_error_last. cbn [bind]. rewrite E4. cbn [bind].
    replace (length (s_levels pg)) with (S (length (a_levels pg))) by lia.
    cbn [py_index_pred]. unfold py_index.
    rewrite nth_error_app1 by (apply nth_error_Some; congruence).
    rewrite ESl. reflexivity. }
  rewrite EG in Hgrow, Eg.
  assert (pg' = mkPG (problem pg) (fs pg) (serial pg) (all_actions pg)
                  (s_levels pg ++ [Sn]) (a_levels pg ++ [La]) h4) as ->
    by (now inversion Hgrow).
  assert (h40 = h4) as ->.
  { assert (X := f_equal (fun r => match r with
                                   | Ok (p, _) => heap p
                                   | Raise _ => empty_heap
                                   end) Eg).
    cbn in X. now symmetry. }
  clear Hgrow Eg.
  (* the new action layer *)
  assert (Ch1 : forall n, In n La -> a_children (get_a h1 n) = []).
  { intros n Hn. now destruct (Hacc n Hn) as (_ & _ & _ & C & _). }
  assert (Shape : forall h'' n, same_but_a_mutex h1 h'' -> In n La ->
                                a_node_shape h'' n).
  { intros h'' n (Es'' & _ & St'') Hn.
    destruct (a_static_fields _ _ (St'' n)) as (Eact & _ & _ & _ & Epar & Ech).
    destruct (Hacc n Hn) as (_ & _ & Hpar & _ & _ & Bp & _ & Kp & _).
    unfold a_node_shape. rewrite Eact, Epar, Ech, (Ch1 n Hn), Hpar.
    split; [intros c [] |]. intros p Hp.
    assert (Gp : get_s h'' p = get_s h1 p) by (unfold get_s; now rewrite Es'').
    unfold skey. rewrite Gp. split.
    - apply Kp. unfold skeys. apply in_map_iff. exists p. auto.
    - now destruct (Fr1 p (Bp p Hp)) as (_ & _ & M). }
  assert (Pure : forall h'' a b, same_but_a_mutex h1 h'' -> In a La -> In b La ->
            a_mutex_test o (serial pg) h'' a b
            = act_mutex_test (serial pg) (get_a h1 a) (get_a h1 b)).
  { intros h'' a b Hs Ha Hb.
    rewrite a_mutex_test_pure by (apply Shape; auto).
    destruct Hs as (_ & _ & St'').
    apply act_mutex_test_ext; apply a_static_sig, St''. }
  assert (Mchar : forall n1 n2, In n1 La -> In n2 La -> n1 <> n2 ->
            (In n2 (a_mx h2 n1) <->
             act_mutex_test (serial pg) (get_a h1 n1) (get_a h1 n2) = true)).
  { intros n1 n2 H1 H2 Hne. split.
    - intros Hin.
      destruct (update_a_mutex_only o (serial pg) La h1 h2 OkA1 E2 n1 n2 Hin)
        as [Hold | (h'' & a & b & Hs & _ & Ha & Hb & _ & T & _ & _ & R)].
      + unfold a_mx in Hold.
        destruct (Hacc n1 H1) as (_ & _ & _ & _ & Mn & _).
        rewrite Mn in Hold. contradiction.
      + rewrite (Pure h'' a b Hs Ha Hb) in T.
        destruct R as [(-> & ->) | (-> & ->)]; [exact T |].
        now rewrite act_mutex_test_sym.
    - intros T. apply (Hf2 n1 n2 H1 H2 Hne). intros h'' Hs.
      rewrite !Pure by assumption. split; [exact T |].
      now rewrite act_mutex_test_sym. }
  assert (Pers : forall n, In n La ->
            (is_persistent (get_a h1 n) = true
             <-> same_lits (action (get_a h1 n)))).
  { intros n Hn.
    apply (admit_loop_nodes
             (fun nd => is_persistent nd = true <-> same_lits (action nd))
             (s_levels pg) (length (a_levels pg)))
      with (acts := all_actions pg) (h := h0) (acc := []) (acc' := La);
      auto.
    - intros h act. destruct (new_PgNode_a_persistent h act) as (-> & H). exact H.
    - intros m []. }
  assert (VLa2 : forall n, In n (enum o La) -> n < length (anodes h2)).
  { intros n Hn. apply enum_In in Hn. apply BLa in Hn. rewrite La2. lia. }
  assert (Kids : forall n, In n La ->
            (forall c, In c (a_children (get_a h4 n)) ->
                       In c (effnodes (get_a h1 n))) /\
            (forall k, In k (skeys h1 (a_children (get_a h4 n))) <->
                       In k (skeys h1 (effnodes (get_a h1 n))))).
  { intros n Hn.
    destruct (connect_effects_children o (enum o La) h2 h2' [] Sn VLa2 Est n)
      as (C & Kk).
    destruct (a_static_fields _ _ (St2 n)) as (_ & _ & Ee & _ & _ & Ech).
    rewrite Ech, Ee, (Ch1 n Hn) in C, Kk. rewrite G43, G32'. split.
    - intros c Hc. destruct (C c Hc) as [[] | (_ & H)]. exact H.
    - intros k. rewrite <- !(skeys_same_keys h1 h2 _ K21), Kk. simpl.
      rewrite enum_In. tauto. }
  (* the parents of the new fact layer *)
  assert (VSn2' : forall s, In s (enum o Sn) -> s < length (snodes h2')).
  { intros s Hs. apply enum_In in Hs. apply BSn in Hs. rewrite Es2', Es2. lia. }
  assert (Par3 : forall s n, In s Sn ->
            (In n (s_parents (get_s h3 s)) <->
             In n La /\ In (skey h1 s) (effect_lits (action (get_a h1 n))))).
  { intros s n Hs. rewrite <- Ep.
    destruct (connect_parents_exact o La (enum o Sn) h2' VSn2' s) as (C & Kk).
    assert (P0 : s_parents (get_s h2' s) = []).
    { unfold get_s. rewrite Es2'. fold (get_s h2 s). rewrite G21s.
      now destruct (Fr1 s (BSn s Hs)) as (P & _). }
    rewrite P0 in C, Kk.
    assert (G2'2 : forall a, In a La -> a_sig (get_a h2' a) = a_sig (get_a h1 a)).
    { intros a _. rewrite <- Sig21. apply a_core_sig.
      now destruct Hc2' as (_ & _ & _ & Ac). }
    assert (Test : forall a, In a La ->
              (s_in h2' s (effnodes (get_a h2' a)) = true <->
               In (skey h1 s) (effect_lits (action (get_a h1 a))))).
    { intros a Ha. rewrite s_in_iff, K2'2, K21.
      destruct (a_sig_fields _ _ (G2'2 a Ha)) as (_ & _ & -> & _).
      rewrite (skeys_same_keys h1 h2' _ (fun i => eq_trans (K2'2 i) (K21 i))).
      now destruct (Hacc a Ha) as (_ & _ & _ & _ & _ & _ & _ & _ & Ke & _). }
    split.
    - intros Hin. destruct (C n Hin) as [[] | (_ & Ha & T)].
      split; [exact Ha | now apply Test].
    - intros (Ha & Hk).
      assert (Hkey : In (akey h2' n) (akeys h2' (s_parents
                        (get_s (fold_left (connect_parents o La) (enum o Sn) h2') s)))).
      { apply Kk. right. split; [now apply enum_In |]. exists n.
        split; [exact Ha |]. split; [now apply Test | reflexivity]. }
      unfold akeys in Hkey. apply in_map_iff in Hkey as (n' & Ek & Hn').
      assert (Ha' : In n' La) by (destruct (C n' Hn') as [[] | (_ & H & _)]; exact H).
      assert (n' = n) as <-; [| exact Hn'].
      apply (NoDup_map_inj (akey h1) La); auto.
      unfold akey in *. rewrite <- (a_sig_key _ _ (G2'2 n' Ha')).
      rewrite <- (a_sig_key _ _ (G2'2 n Ha)). exact Ek. }
  (* the mutexes of the new fact layer *)
  assert (OkA'' : forall h'', anodes h'' = anodes h3 -> a_layer_ok h'' La).
  { intros h'' Ea''.
    assert (G : forall i, get_a h'' i = get_a h3 i)
      by (intros i; unfold get_a; now rewrite Ea'').
    revert OkA2. apply layer_ok_ext.
    - intros n Hn. unfold a_mx. rewrite G. apply a_core_fields, Ac3.
    - intros n Hn. unfold akey. rewrite G. apply a_sig_key.
      rewrite Sig31. symmetry. apply Sig21.
    - intros n Hn. unfold a_valid. rewrite Ea'', La3. auto. }
  set (Sup := fun a b : sref =>
         forall p1 p2, In p1 (s_parents (get_s h3 a)) ->
                       In p2 (s_parents (get_s h3 b)) -> In p2 (a_mx h2 p1)).
  assert (Sup_sym : forall a b, In a Sn -> In b Sn -> Sup a b -> Sup b a).
  { intros a b Ha Hb H p1 p2 P1 P2.
    assert (In p1 La) by (now apply (Par3 b p1 Hb)).
    assert (In p2 La) by (now apply (Par3 a p2 Ha)).
    destruct OkA2 as (_ & _ & _ & Hsym). apply (Hsym p2 p1); auto. }
  assert (Ind : forall h'' a b, same_but_s_mutex h3 h'' -> In a Sn -> In b Sn ->
            (forallb (fun parent =>
                forallb (fun parent2 => is_mutex h'' (ANode parent) (ANode parent2))
                  (enum o (s_parents (get_s h'' b))))
              (enum o (s_parents (get_s h'' a))) = true <-> Sup a b)).
  { intros h'' a b (Ea'' & _ & St'') Ha Hb.
    destruct (s_static_fields _ _ (St'' a)) as (_ & _ & Pa & _).
    destruct (s_static_fields _ _ (St'' b)) as (_ & _ & Pb & _).
    rewrite Pa, Pb, forallb2_iff. unfold Sup.
    assert (Mx : forall p, a_mx h'' p = a_mx h2 p).
    { intros p. unfold a_mx, get_a. rewrite Ea''. fold (get_a h3 p).
      apply a_core_fields, Ac3. }
    split; intros H p1 p2 P1 P2.
    - assert (L1 : In p1 La) by (now apply (Par3 a p1 Ha)).
      assert (L2 : In p2 La) by (now apply (Par3 b p2 Hb)).
      rewrite <- Mx.
      apply (is_mutex_a_layer h'' La p1 p2 (OkA'' h'' Ea'') L1 L2).
      apply H; now apply enum_In.
    - apply enum_In in P1. apply enum_In in P2.
      assert (L1 : In p1 La) by (now apply (Par3 a p1 Ha)).
      assert (L2 : In p2 La) by (now apply (Par3 b p2 Hb)).
      apply (is_mutex_a_layer h'' La p1 p2 (OkA'' h'' Ea'') L1 L2).
      rewrite Mx. now apply H. }
  assert (Neg : forall h'' a b, same_but_s_mutex h3 h'' ->
            negation_mutex h'' a b = negation_mutex h3 a b).
  { intros h'' a b Hs. apply negation_mutex_ext;
      now apply same_but_s_mutex_key. }
  assert (Schar : forall s1 s2, In s1 Sn -> In s2 Sn -> s1 <> s2 ->
            (In s2 (s_mx h4 s1) <-> negation_mutex h3 s1 s2 = true \/ Sup s1 s2)).
  { intros s1 s2 H1 H2 Hne. split.
    - intros Hin.
      destruct (update_s_mutex_only o Sn h3 h4 OkS3 E4 s1 s2 Hin)
        as [Hold | (h'' & a & b & Hs & Hok'' & Ha & Hb & _ & T & N1 & _ & R)].
      + unfold s_mx in Hold. rewrite (Fr3 s1 H1) in Hold. contradiction.
      + assert (Q : negation_mutex h3 a b = true \/ Sup a b).
        { unfold s_mutex_test, inconsistent_support_mutex in T.
          apply orb_true_iff in T as [T | T];
            [left; now rewrite <- (Neg h'' a b Hs) |].
          apply orb_true_iff in T as [T | T].
          - exfalso. apply N1.
            now apply (is_mutex_s_layer h'' Sn a b Hok'' Ha Hb).
          - right. now apply (Ind h'' a b Hs Ha Hb). }
        destruct R as [(-> & ->) | (-> & ->)]; [exact Q |].
        destruct Q as [Q | Q]; [left; now rewrite negation_mutex_sym |].
        right. now apply Sup_sym.
    - intros Q. apply (Hf4 s1 s2 H1 H2 Hne). intros h'' Hs.
      unfold s_mutex_test, inconsistent_support_mutex.
      destruct Q as [Q | Q].
      + rewrite !(Neg h'' _ _ Hs), (negation_mutex_sym h3 s2 s1), Q. auto.
      + rewrite (proj2 (Ind h'' s1 s2 Hs H1 H2) Q).
        rewrite (proj2 (Ind h'' s2 s1 Hs H2 H1) (Sup_sym s1 s2 H1 H2 Q)).
        rewrite !orb_true_r. auto. }
  (* the invariant *)
  destruct (Ag) as (AgS & AgA & AgGs & AgGa).
  split; cbn [heap serial s_levels a_levels].
  - intros i. destruct (s_static_fields _ _ (St4 i)) as (_ & _ & _ & ->).
    destruct (s_core_fields _ _ (Sc3 i)) as (_ & _ & -> & _).
    rewrite G21s.
    destruct (Nat.lt_ge_cases i (length (snodes h0))) as [Hlt | Hge].
    + rewrite (get_s_app_l h0 h1 ss i Es1 Hlt). apply Hch.
    + destruct (Nat.lt_ge_cases i (length (snodes h1))) as [Hlt1 | Hge1].
      * now destruct (Fr1 i (conj Hge Hlt1)) as (_ & C & _).
      * now rewrite get_s_overflow.
  - intros l La' Sn' HLa' HSn'.
    apply nth_error_snoc in HLa'. destruct HLa' as [[Hlt HLa'] | [El ->]].
    + rewrite nth_error_app1 in HSn' by lia.
      destruct (a_levels_have_facts pg l La' Hinv HLa') as (Sl' & Sn'' & HSl' & HSn'').
      rewrite HSn' in HSn''. inversion HSn''; subst Sn''.
      destruct (HA l La' Sl' Sn' HLa' HSl' HSn') as (OkLa' & _).
      apply (layer_detail_agree h0 h4); auto.
      * exact (HS _ Sn' HSn').
      * exact (Hdet l La' Sn' HLa' HSn').
    + subst l. rewrite <- Hlen, nth_error_last in HSn'.
      inversion HSn'; subst Sn'. clear HSn'.
      split; [| split; [| split; [| split; [| split]]]].
      * intros n Hn.
        destruct (a_sig_fields _ _ (Sig41 n)) as (Eact & _ & Eeff & Eper & _).
        destruct (Kids n Hn) as (C & Kk).
        destruct (Hacc n Hn) as (_ & _ & _ & _ & _ & _ & Be & _ & Ke & _).
        rewrite Eact, Eeff, Eper, !(skeys_same_keys h1 h4 _ K41).
        split; [now apply Pers |]. split; [| split; [exact Ke | split; [exact C |]]].
        -- intros x Hx. apply Be in Hx. rewrite Ls4, Ls3, Es2. lia.
        -- intros k. rewrite Kk. apply Ke.
      * intros n1 n2 H1 H2 Hne. rewrite Mx42.
        rewrite (act_mutex_test_ext (serial pg) _ _ _ _ (Sig41 n1) (Sig41 n2)).
        now apply Mchar.
      * intros s n Hs.
        destruct (s_static_fields _ _ (St4 s)) as (_ & _ & -> & _).
        destruct (a_sig_fields _ _ (Sig41 n)) as (-> & _).
        rewrite K41. now apply Par3.
      * intros s1 s2 H1 H2 Hne. rewrite (Schar s1 s2 H1 H2 Hne).
        rewrite (Neg h4 s1 s2 Hs4).
        destruct (s_static_fields _ _ (St4 s1)) as (_ & _ & P1 & _).
        destruct (s_static_fields _ _ (St4 s2)) as (_ & _ & P2 & _).
        rewrite P1, P2. unfold Sup.
        split; (intros [Q | Q]; [now left | right]); intros p1 p2 Q1 Q2.
        -- rewrite Mx42. now apply Q.
        -- rewrite <- Mx42. now apply Q.
      * intros n Hn. rewrite Mx42. intros Hin.
        destruct (update_a_mutex_only o (serial pg) La h1 h2 OkA1 E2 n n Hin)
          as [Hold | (h'' & a & b & _ & _ & _ & _ & Hne & _ & _ & _ & R)].
        -- unfold a_mx in Hold.
           destruct (Hacc n Hn) as (_ & _ & _ & _ & Mn & _).
           rewrite Mn in Hold. contradiction.
        -- destruct R as [(E1' & E2') | (E1' & E2')]; congruence.
      * intros s Hs Hin.
        destruct (update_s_mutex_only o Sn h3 h4 OkS3 E4 s s Hin)
          as [Hold | (h'' & a & b & _ & _ & _ & _ & Hne & _ & _ & _ & R)].
        -- unfold s_mx in Hold. rewrite (Fr3 s Hs) in Hold. contradiction.
        -- destruct R as [(E1' & E2') | (E1' & E2')]; congruence.
Qed.

Lemma create_loop_detail (o : set_order) :
  forall fuel pg r,
  graph_inv pg -> graph_detail pg ->
  create_loop o fuel pg (length (a_levels pg)) = Some (Ok r) ->
  graph_detail r.
Proof.
  induction fuel as [| fuel IH]; intros pg r Hinv Hdet Hrun; [discriminate |].
  cbn [create_loop] in Hrun.
  destruct (grow_spec o pg Hinv) as (La & Sn & Sl & h' & Eg & ESl & Ag & Hinv').
  pose proof (grow_detail o pg Hinv Hdet _ _ Eg) as Hdet'.
  rewrite Eg in Hrun. destruct (s_set_eq h' Sn Sl).
  - inversion Hrun; subst r. exact Hdet'.
  - apply (IH _ r Hinv' Hdet'). cbn [a_levels]. rewrite length_app. exact Hrun.
Qed.

(** Every constructed graph satisfies the detailed invariant. *)
Lemma built_detail (o : set_order) (fuel : nat) (pb : Problem)
  (state : list bool) (ser : bool) (pg : PlanningGraph) :
  PlanningGraph_init o fuel pb state ser = Some (Ok pg) -> graph_detail pg.
Proof.
  unfold PlanningGraph_init, create_graph.
  cbn [s_levels a_levels length Nat.eqb negb orb fs heap problem serial
       all_actions].
  destruct (initial_inv pb (decode_state state (state_map pb)) ser
              (actions_list pb ++ noop_actions (state_map pb)) empty_heap)
    as (S0 & h0 & E & Hinv & Hnr).
  destruct (signed_nodes_spec (pos (decode_state state (state_map pb)))
              (neg (decode_state state (state_map pb))) empty_heap)
    as (S0' & ss & E' & F & _).
  rewrite E in E'. inversion E'; subst S0' h0. clear E'.
  rewrite E. cbn [fst snd]. intros Hrun.
  apply (create_loop_detail o fuel _ pg Hinv); [| exact Hrun].
  split; cbn [heap a_levels].
  - intros i. unfold get_s. cbn [snodes empty_heap app].
    destruct (Nat.lt_ge_cases i (length ss)) as [Hlt | Hge].
    + rewrite Forall_forall in F.
      now destruct (F (nth i ss null_s) (nth_In ss null_s Hlt)) as (_ & C & _).
    + now rewrite nth_overflow.
  - intros l La Sn HLa. destruct l; discriminate.
Qed.

(** The run, its invariant and the layers around an action layer. *)
Lemma built_all (o : set_order) (fuel : nat) (pb : Problem)
  (state : list bool) (ser : bool) (pg : PlanningGraph) :
  PlanningGraph_init o fuel pb state ser = Some (Ok pg) ->
  graph_inv pg /\ graph_detail pg /\ serial pg = ser /\
  all_actions pg = actions_list pb ++ noop_actions (state_map pb).
Proof.
  intros Hrun.
  destruct (built_inv o fuel pb state ser _ Hrun)
    as (pg' & E & Hinv & _ & _ & _ & Eser & Eacts & _).
  inversion E; subst pg'.
  split; [exact Hinv |]. split; [exact (built_detail o fuel pb state ser pg Hrun) |].
  auto.
Qed.

Lemma s_levels_have_actions (pg : PlanningGraph) (l : nat) (Sn : list sref) :
  graph_inv pg -> nth_error (s_levels pg) (S l) = Some Sn ->
  exists La Sl, nth_error (a_levels pg) l = Some La /\
                nth_error (s_levels pg) l = Some Sl.
Proof.
  intros (_ & Hlen & _) HSn.
  assert (Hl : S l < length (s_levels pg)) by (apply nth_error_Some; congruence).
  destruct (nth_error (a_levels pg) l) as [La |] eqn:E1;
    [| apply nth_error_None in E1; lia].
  destruct (nth_error (s_levels pg) l) as [Sl |] eqn:E2;
    [| apply nth_error_None in E2; lia].
  eauto.
Qed.

Lemma built_shape (pg : PlanningGraph) (l : nat) (La : list aref) (n : aref) :
  graph_inv pg -> graph_detail pg ->
  nth_error (a_levels pg) l = Some La -> In n La ->
  a_node_shape (heap pg) n.
Proof.
  intros Hinv (_ & Hdet) HLa Hn.
  destruct (a_levels_have_facts pg l La Hinv HLa) as (Sl & Sn & HSl & HSn).
  destruct Hinv as (_ & _ & _ & _ & HA).
  destruct (HA l La Sl Sn HLa HSl HSn) as (_ & Hnode & _ & _ & _ & Hpriv).
  destruct (Hdet l La Sn HLa HSn) as (Dn & _).
  destruct (Dn n Hn) as (_ & _ & _ & _ & Kc).
  destruct (Hnode n Hn) as (_ & Hpar & _ & Kp & _).
  split.
  - intros c Hc. apply Kc. unfold skeys. now apply in_map.
  - intros p Hp. split; [| now destruct (Hpriv n p Hn Hp)].
    apply Kp. rewrite <- Hpar. unfold skeys. now apply in_map.
Qed.

Lemma support_indicator_iff (o : set_order) (pg : PlanningGraph) (l : nat)
  (La : list aref) (Sn : list sref) (s1 s2 : sref) :
  graph_inv pg -> graph_detail pg ->
  nth_error (a_levels pg) l = Some La ->
  nth_error (s_levels pg) (S l) = Some Sn ->
  In s1 Sn -> In s2 Sn ->
  (support_indicator o (heap pg) s1 s2 = true <->
   forall p1 p2, In p1 (s_parents (get_s (heap pg) s1)) ->
                 In p2 (s_parents (get_s (heap pg) s2)) ->
                 In p2 (a_mx (heap pg) p1)).
Proof.
  intros Hinv (_ & Hdet) HLa HSn H1 H2.
  destruct (a_levels_have_facts pg l La Hinv HLa) as (Sl & Sn' & HSl & HSn').
  rewrite HSn in HSn'. inversion HSn'; subst Sn'.
  destruct Hinv as (_ & _ & _ & _ & HA).
  destruct (HA l La Sl Sn HLa HSl HSn) as (Hok & _).
  destruct (Hdet l La Sn HLa HSn) as (_ & _ & Dp & _).
  unfold support_indicator. rewrite forallb2_iff.
  split; intros H p1 p2 P1 P2.
  - apply (is_mutex_a_layer _ La p1 p2 Hok);
      [now apply (Dp s1 p1 H1) | now apply (Dp s2 p2 H2) |].
    apply H; now apply enum_In.
  - apply enum_In in P1. apply enum_In in P2.
    apply (is_mutex_a_layer _ La p1 p2 Hok);
      [now apply (Dp s1 p1 H1) | now apply (Dp s2 p2 H2) |].
    now apply H.
Qed.

(** ** The mutexes of a constructed graph *)

(** X1.  Between two distinct action nodes of one action layer of a
    constructed graph the mutex relation is exactly the pair test of
    [update_a_mutex], evaluated on the finished graph; the competing-needs
    test contributes nothing, so the test is the disjunction of the
    serial test, the inconsistent-effects test and the interference
    test. *)
Theorem action_mutex_exact (o : set_order) (fuel : nat) (pb : Problem)
  (state : list bool) (ser : bool) (pg : PlanningGraph) :
  PlanningGraph_init o fuel pb state ser = Some (Ok pg) ->
  forall l La n1 n2,
    nth_error (a_levels pg) l = Some La -> In n1 La -> In n2 La -> n1 <> n2 ->
    is_mutex (heap pg) (ANode n1) (ANode n2)
    = a_mutex_test o ser (heap pg) n1 n2 /\
    a_mutex_test o ser (heap pg) n1 n2
    = serialize_actions ser (heap pg) n1 n2
      || inconsistent_effects_mutex o (heap pg) n1 n2
      || interference_mutex o (heap pg) n1 n2.
Proof.
  intros Hrun l La n1 n2 HLa H1 H2 Hne.
  destruct (built_all o fuel pb state ser pg Hrun) as (Hinv & Hdet & Eser & _).
  pose proof (built_shape pg l La n1 Hinv Hdet HLa H1) as S1.
  pose proof (built_shape pg l La n2 Hinv Hdet HLa H2) as S2.
  destruct (a_levels_have_facts pg l La Hinv HLa) as (Sl & Sn & HSl & HSn).
  destruct Hinv as (_ & _ & _ & _ & HA).
  destruct (HA l La Sl Sn HLa HSl HSn) as (Hok & _).
  destruct Hdet as (_ & Hdet).
  destruct (Hdet l La Sn HLa HSn) as (_ & Dm & _).
  split.
  - apply eq_true_iff_eq.
    rewrite (is_mutex_a_layer _ La n1 n2 Hok H1 H2).
    rewrite (Dm n1 n2 H1 H2 Hne), Eser.
    now rewrite (a_mutex_test_pure o ser (heap pg) n1 n2 S1 S2).
  - unfold a_mutex_test.
    rewrite (competing_needs_never o (heap pg) n1 n2 S1). apply orb_false_r.
Qed.

Lemma action_mutex_exact_witness :
  is_mutex (heap cake_graph) (ANode 6) (ANode 8)
  = a_mutex_test insertion_order true (heap cake_graph) 6 8.
Proof.
  refine (proj1 (action_mutex_exact insertion_order 10 cake [true; false] true
                   cake_graph _ 1 [6; 7; 8; 9; 10; 11] 6 8 _ _ _ _));
    try (vm_compute; reflexivity); try (simpl; tauto); lia.
Defined.

Lemma negates_atom (e : Expr) :
  op_is_not e = false -> negates e (Not e) = true /\ negates (Not e) e = true.
Proof.
  destruct e as [s | x]; [| discriminate]. intros _. simpl.
  now rewrite String.eqb_refl.
Qed.

(** X2.  In every action layer of a constructed graph two distinct action
    nodes are mutex, each in the other's mutex set, as soon as a fluent
    that is not itself a negation is added by the one and deleted by the
    other, or is a positive precondition of the one and deleted by the
    other, or is a negative precondition of the one and added by the
    other. *)
Theorem conflicting_actions_are_mutex (o : set_order) (fuel : nat)
  (pb : Problem) (state : list bool) (ser : bool) (pg : PlanningGraph) :
  PlanningGraph_init o fuel pb state ser = Some (Ok pg) ->
  forall l La n1 n2 e,
    nth_error (a_levels pg) l = Some La -> In n1 La -> In n2 La -> n1 <> n2 ->
    op_is_not e = false ->
    (In e (effect_add (action (get_a (heap pg) n1))) /\
     In e (effect_rem (action (get_a (heap pg) n2))))
    \/ (In e (precond_pos (action (get_a (heap pg) n1))) /\
        In e (effect_rem (action (get_a (heap pg) n2))))
    \/ (In e (precond_neg (action (get_a (heap pg) n1))) /\
        In e (effect_add (action (get_a (heap pg) n2)))) ->
    is_mutex (heap pg) (ANode n1) (ANode n2) = true /\
    is_mutex (heap pg) (ANode n2) (ANode n1) = true.
Proof.
  intros Hrun l La n1 n2 e HLa H1 H2 Hne Hop Hc.
  destruct (built_all o fuel pb state ser pg Hrun) as (Hinv & (_ & Hdet) & _).
  destruct (a_levels_have_facts pg l La Hinv HLa) as (Sl & Sn & HSl & HSn).
  destruct Hinv as (_ & _ & _ & _ & HA).
  destruct (HA l La Sl Sn HLa HSl HSn) as (Hok & _).
  destruct (Hdet l La Sn HLa HSn) as (_ & Dm & _).
  destruct (negates_atom e Hop) as (N1 & N2).
  assert (T : act_mutex_test (serial pg) (get_a (heap pg) n1)
                (get_a (heap pg) n2) = true).
  { unfold act_mutex_test. rewrite !orb_true_iff.
    destruct Hc as [(A & R) | [(P & R) | (P & A)]].
    - left. right. unfold act_inconsistent_effects.
      apply existsb_exists. exists e. split.
      + unfold get_expressions_effect. apply in_or_app. now left.
      + apply existsb_exists. exists (Not e). split; [| exact N1].
        unfold get_expressions_effect. apply in_or_app. right. now apply in_map.
    - right. unfold act_interference. apply orb_true_iff. left.
      apply existsb_exists. exists e. split.
      + unfold get_expressions_cond. apply in_or_app. now left.
      + apply existsb_exists. exists (Not e). split; [| exact N1].
        unfold get_expressions_effect. apply in_or_app. right. now apply in_map.
    - right. unfold act_interference. apply orb_true_iff. left.
      apply existsb_exists. exists (Not e). split.
      + unfold get_expressions_cond. apply in_or_app. right. now apply in_map.
      + apply existsb_exists. exists e. split; [| exact N2].
        unfold get_expressions_effect. apply in_or_app. now left. }
  split.
  - apply (is_mutex_a_layer _ La n1 n2 Hok H1 H2). now apply Dm.
  - apply (is_mutex_a_layer _ La n2 n1 Hok H2 H1).
    apply Dm; auto. now rewrite act_mutex_test_sym.
Qed.

Lemma conflicting_actions_are_mutex_witness :
  is_mutex (heap cake_graph) (ANode 8) (ANode 6) = true /\
  is_mutex (heap cake_graph) (ANode 6) (ANode 8) = true.
Proof.
  refine (conflicting_actions_are_mutex insertion_order 10 cake [true; false]
            true cake_graph _ 1 [6; 7; 8; 9; 10; 11] 8 6 Have _ _ _ _ _ _);
    try (vm_compute; reflexivity); try (simpl; tauto); lia.
Defined.

(** X3.  On the action nodes of a layer of a constructed graph the
    inconsistent-effects test and the interference test give what they
    give on the effect and precondition lists of the two actions alone:
    the literals of the connected children and parents, which the tests
    append to these lists, never change the answer. *)
Theorem action_tests_read_actions_only (o : set_order) (fuel : nat)
  (pb : Problem) (state : list bool) (ser : bool) (pg : PlanningGraph) :
  PlanningGraph_init o fuel pb state ser = Some (Ok pg) ->
  forall l La n1 n2,
    nth_error (a_levels pg) l = Some La -> In n1 La -> In n2 La ->
    inconsistent_effects_mutex o (heap pg) n1 n2
    = act_inconsistent_effects (action (get_a (heap pg) n1))
        (action (get_a (heap pg) n2)) /\
    interference_mutex o (heap pg) n1 n2
    = act_interference (action (get_a (heap pg) n1))
        (action (get_a (heap pg) n2)).
Proof.
  intros Hrun l La n1 n2 HLa H1 H2.
  destruct (built_all o fuel pb state ser pg Hrun) as (Hinv & Hdet & _).
  pose proof (built_shape pg l La n1 Hinv Hdet HLa H1) as S1.
  pose proof (built_shape pg l La n2 Hinv Hdet HLa H2) as S2.
  split; [now apply inconsistent_effects_pure | now apply interference_pure].
Qed.

Lemma action_tests_read_actions_only_witness :
  inconsistent_effects_mutex insertion_order (heap cake_graph) 6 8
  = act_inconsistent_effects (action (get_a (heap cake_graph) 6))
      (action (get_a (heap cake_graph) 8)) /\
  interference_mutex insertion_order (heap cake_graph) 6 8
  = act_interference (action (get_a (heap cake_graph) 6))
      (action (get_a (heap cake_graph) 8)).
Proof.
  refine (action_tests_read_actions_only insertion_order 10 cake
            [true; false] true cake_graph _ 1 [6; 7; 8; 9; 10; 11] 6 8 _ _ _);
    try (vm_compute; reflexivity); simpl; tauto.
Defined.

Lemma parents_are_private_copies_witness :
  (forall n p, In n [6; 7; 8; 9; 10; 11] ->
     In p (a_parents (get_a (heap cake_graph) n)) ->
     ~ In p [3; 4; 8; 14] /\ s_mutex (get_s (heap cake_graph) p) = []) /\
  (forall n1 n2, In n1 [6; 7; 8; 9; 10; 11] -> In n2 [6; 7; 8; 9; 10; 11] ->
     competing_needs_mutex insertion_order (heap cake_graph) n1 n2 = false).
Proof.
  refine (parents_are_private_copies insertion_order 10 cake [true; false]
            true cake_graph _ 1 [6; 7; 8; 9; 10; 11] [3; 4; 8; 14] _ _);
    vm_compute; reflexivity.
Defined.

(** X5.  Between two distinct fact nodes of a fact layer after layer 0 of a
    constructed graph the mutex relation is exactly: the negation test
    holds, or every parent of the one is mutex with every parent of the
    other (the [indicator] of [inconsistent_support_mutex]). *)
Theorem fact_mutex_exact (o : set_order) (fuel : nat) (pb : Problem)
  (state : list bool) (ser : bool) (pg : PlanningGraph) :
  PlanningGraph_init o fuel pb state ser = Some (Ok pg) ->
  forall l Sn s1 s2,
    nth_error (s_levels pg) (S l) = Some Sn -> In s1 Sn -> In s2 Sn ->
    s1 <> s2 ->
    is_mutex (heap pg) (SNode s1) (SNode s2)
    = negation_mutex (heap pg) s1 s2 || support_indicator o (heap pg) s1 s2.
Proof.
  intros Hrun l Sn s1 s2 HSn H1 H2 Hne.
  destruct (built_all o fuel pb state ser pg Hrun) as (Hinv & Hdet & _).
  destruct (s_levels_have_actions pg l Sn Hinv HSn) as (La & Sl & HLa & HSl).
  pose proof (support_indicator_iff o pg l La Sn s1 s2 Hinv Hdet HLa HSn H1 H2)
    as Hind.
  destruct Hinv as (_ & _ & HS & _).
  destruct Hdet as (_ & Hdet).
  destruct (Hdet l La Sn HLa HSn) as (_ & _ & _ & Ds & _).
  apply eq_true_iff_eq.
  rewrite (is_mutex_s_layer _ Sn s1 s2 (HS _ Sn HSn) H1 H2).
  rewrite (Ds s1 s2 H1 H2 Hne), orb_true_iff, Hind. reflexivity.
Qed.

Lemma fact_mutex_exact_witness :
  is_mutex (heap cake_graph) (SNode 8) (SNode 3)
  = negation_mutex (heap cake_graph) 8 3
    || support_indicator insertion_order (heap cake_graph) 8 3.
Proof.
  refine (fact_mutex_exact insertion_order 10 cake [true; false] true
            cake_graph _ 0 [3; 4; 8; 14] 8 3 _ _ _ _);
    try (vm_compute; reflexivity); try (simpl; tauto); lia.
Defined.

(** X6.  In a constructed graph a mutex set holds only other nodes of the
    same layer: a member of the mutex set of a fact node (of an action
    node) of a layer is a node object of that layer, and is not the node
    itself. *)
Theorem mutex_within_layer (o : set_order) (fuel : nat) (pb : Problem)
  (state : list bool) (ser : bool) (pg : PlanningGraph) :
  PlanningGraph_init o fuel pb state ser = Some (Ok pg) ->
  (forall l Sl s m,
     nth_error (s_levels pg) l = Some Sl -> In s Sl ->
     In m (s_mutex (get_s (heap pg) s)) -> In m Sl /\ m <> s) /\
  (forall l La n m,
     nth_error (a_levels pg) l = Some La -> In n La ->
     In m (a_mutex (get_a (heap pg) n)) -> In m La /\ m <> n).
Proof.
  intros Hrun.
  destruct (built_all o fuel pb state ser pg Hrun) as (Hinv & (_ & Hdet) & _).
  split.
  - intros l Sl s m HSl Hs Hm.
    pose proof Hinv as (H0 & _ & HS & _).
    destruct (HS l Sl HSl) as (_ & _ & Hin & _).
    split; [now apply (Hin s Hs) |].
    destruct l as [| l].
    + destruct H0 as (S0 & E0 & (_ & F0)). rewrite HSl in E0.
      inversion E0; subst S0. destruct (F0 s Hs) as (_ & _ & M).
      rewrite M in Hm. contradiction.
    + destruct (s_levels_have_actions pg l Sl Hinv HSl) as (La & Sp & HLa & _).
      destruct (Hdet l La Sl HLa HSl) as (_ & _ & _ & _ & _ & Is).
      intros ->. now apply (Is s Hs).
  - intros l La n m HLa Hn Hm.
    destruct (a_levels_have_facts pg l La Hinv HLa) as (Sl & Sn & HSl & HSn).
    destruct Hinv as (_ & _ & _ & _ & HA).
    destruct (HA l La Sl Sn HLa HSl HSn) as ((_ & _ & Hin & _) & _).
    split; [now apply (Hin n Hn) |].
    destruct (Hdet l La Sn HLa HSn) as (_ & _ & _ & _ & Ia & _).
    intros ->. now apply (Ia n Hn).
Qed.

Lemma mutex_within_layer_witness :
  In 3 [3; 4; 8; 14] /\ 3 <> 8.
Proof.
  refine (proj1 (mutex_within_layer insertion_order 10 cake [true; false] true
                   cake_graph _) 1 [3; 4; 8; 14] 8 3 _ _ _);
    try (vm_compute; reflexivity); vm_compute; tauto.
Defined.

(** ** [mutexify], the mutex passes and [is_mutex_relation] *)

Lemma mut_s_add_mutex_mono (h : Heap) (a b i y : sref) :
  In y (s_mutex (get_s h i)) ->
  In y (s_mutex (get_s (mut_s h a (add_s_mutex b h)) i)).
Proof.
  intros H. destruct (Nat.eq_dec a i) as [-> | N];
    [| now rewrite get_s_mut_s_other by exact N].
  destruct (Nat.lt_ge_cases i (length (snodes h))) as [Hlt | Hge].
  - rewrite get_s_mut_s_same by exact Hlt.
    cbn [add_s_mutex s_mutex]. apply s_add_In. now left.
  - unfold get_s, mut_s in *. cbn [snodes]. now rewrite upd_out.
Qed.

Lemma mut_a_add_mutex_mono (h : Heap) (a b i y : aref) :
  In y (a_mutex (get_a h i)) ->
  In y (a_mutex (get_a (mut_a h a (add_a_mutex b h)) i)).
Proof.
  intros H. destruct (Nat.eq_dec a i) as [-> | N];
    [| now rewrite get_a_mut_a_other by exact N].
  destruct (Nat.lt_ge_cases i (length (anodes h))) as [Hlt | Hge].
  - rewrite get_a_mut_a_same by exact Hlt.
    cbn [add_a_mutex a_mutex]. apply a_add_In. now left.
  - unfold get_a, mut_a in *. cbn [anodes]. now rewrite upd_out.
Qed.

Lemma mutex_loop_s_frame (test : Heap -> nat -> nat -> bool)
  (L : list sref) (P : list (nat * nat)) :
  (forall a b, In (a, b) P -> In a L /\ In b L) ->
  forall h, exists h',
    mutex_loop SNode test P h = Ok h' /\ same_but_s_mutex h h' /\
    (forall i, ~ In i L -> get_s h' i = get_s h i) /\
    (forall i y, In y (s_mx h i) -> In y (s_mx h' i)).
Proof.
  induction P as [| [a b] P IH]; intros HP h.
  - exists h. split; [reflexivity |]. split; [apply same_but_s_mutex_refl |].
    split; auto.
  - assert (HP' : forall a b, In (a, b) P -> In a L /\ In b L)
      by (intros; apply HP; now right).
    destruct (HP a b (or_introl eq_refl)) as (Ha & Hb).
    unfold mutex_loop. cbn [for_each]. destruct (test h a b).
    + cbn [mutexify bind]. fold (mutexify_s a b h).
      destruct (IH HP' (mutexify_s a b h)) as (h' & E & Hs & Ho & Hm).
      exists h'. split; [exact E |].
      split; [eapply same_but_s_mutex_trans; [apply mutexify_s_same | exact Hs] |].
      split.
      * intros i Hi. rewrite (Ho i Hi).
        apply mutexify_s_other; intros ->; contradiction.
      * intros i y Hy. apply Hm. unfold s_mx, mutexify_s.
        now apply mut_s_add_mutex_mono, mut_s_add_mutex_mono.
    + cbn [bind]. destruct (IH HP' h) as (h' & E & R). exists h'. auto.
Qed.

Lemma mutex_loop_a_frame (test : Heap -> nat -> nat -> bool)
  (L : list aref) (P : list (nat * nat)) :
  (forall a b, In (a, b) P -> In a L /\ In b L) ->
  forall h, exists h',
    mutex_loop ANode test P h = Ok h' /\ same_but_a_mutex h h' /\
    (forall i, ~ In i L -> get_a h' i = get_a h i) /\
    (forall i y, In y (a_mx h i) -> In y (a_mx h' i)).
Proof.
  induction P as [| [a b] P IH]; intros HP h.
  - exists h. split; [reflexivity |]. split; [apply same_but_a_mutex_refl |].
    split; auto.
  - assert (HP' : forall a b, In (a, b) P -> In a L /\ In b L)
      by (intros; apply HP; now right).
    destruct (HP a b (or_introl eq_refl)) as (Ha & Hb).
    unfold mutex_loop. cbn [for_each]. destruct (test h a b).
    + cbn [mutexify bind]. fold (mutexify_a a b h).
      destruct (IH HP' (mutexify_a a b h)) as (h' & E & Hs & Ho & Hm).
      exists h'. split; [exact E |].
      split; [eapply same_but_a_mutex_trans; [apply mutexify_a_same | exact Hs] |].
      split.
      * intros i Hi. rewrite (Ho i Hi).
        apply mutexify_a_other; intros ->; contradiction.
      * intros i y Hy. apply Hm. unfold a_mx, mutexify_a.
        now apply mut_a_add_mutex_mono, mut_a_add_mutex_mono.
    + cbn [bind]. destruct (IH HP' h) as (h' & E & R). exists h'. auto.
Qed.

(** X7.  [update_a_mutex] and [update_s_mutex] return for every store and
    every node set, and change nothing but mutex sets: the pass over
    action nodes leaves the fact nodes alone and the pass over fact nodes
    the action nodes, every node keeps its other fields, the nodes
    outside the node set are unchanged, and no mutex set loses a member. *)
Theorem update_mutex_frame (o : set_order) (ser : bool) (h : Heap) :
  (forall nodeset, exists h',
     update_a_mutex o ser nodeset h = Ok h' /\
     snodes h' = snodes h /\ length (anodes h') = length (anodes h) /\
     (forall i, a_static (get_a h' i) = a_static (get_a h i)) /\
     (forall i, ~ In i nodeset -> get_a h' i = get_a h i) /\
     (forall i, incl (a_mutex (get_a h i)) (a_mutex (get_a h' i)))) /\
  (forall nodeset, exists h',
     update_s_mutex o nodeset h = Ok h' /\
     anodes h' = anodes h /\ length (snodes h') = length (snodes h) /\
     (forall i, s_static (get_s h' i) = s_static (get_s h i)) /\
     (forall i, ~ In i nodeset -> get_s h' i = get_s h i) /\
     (forall i, incl (s_mutex (get_s h i)) (s_mutex (get_s h' i)))).
Proof.
  split; intros nodeset.
  - destruct (mutex_loop_a_frame (a_mutex_test o ser) nodeset
                (sibling_pairs (enum o nodeset)) (sibling_pairs_In o nodeset) h)
      as (h' & E & (S1 & S2 & S3) & Ho & Hm).
    exists h'. split; [exact E |]. repeat (split; [assumption |]).
    intros i y. apply Hm.
  - destruct (mutex_loop_s_frame (s_mutex_test o) nodeset
                (sibling_pairs (enum o nodeset)) (sibling_pairs_In o nodeset) h)
      as (h' & E & (S1 & S2 & S3) & Ho & Hm).
    exists h'. split; [exact E |]. repeat (split; [assumption |]).
    intros i y. apply Hm.
Qed.

Lemma update_mutex_frame_witness :
  exists h',
    update_s_mutex insertion_order [0; 1] two_facts = Ok h' /\
    anodes h' = anodes two_facts /\
    length (snodes h') = length (snodes two_facts) /\
    (forall i, s_static (get_s h' i) = s_static (get_s two_facts i)) /\
    (forall i, ~ In i [0; 1] -> get_s h' i = get_s two_facts i) /\
    (forall i, incl (s_mutex (get_s two_facts i)) (s_mutex (get_s h' i))).
Proof.
  exact (proj2 (update_mutex_frame insertion_order true two_facts) [0; 1]).
Defined.

Lemma upd_id {A} (i : nat) (f : A -> A) (l : list A) (d : A) :
  f (nth i l d) = nth i l d -> upd i f l = l.
Proof.
  revert i; induction l as [| x l IH]; intros [| i] H; simpl in *; auto.
  - now rewrite H.
  - now rewrite IH.
Qed.

Lemma mut_s_id (h : Heap) (i : sref) (f : PgNode_s -> PgNode_s) :
  f (get_s h i) = get_s h i -> mut_s h i f = h.
Proof.
  intros H. destruct h as [ss aa]. unfold mut_s, get_s in *. simpl in *.
  now rewrite (upd_id i f ss null_s H).
Qed.

Lemma mut_a_id (h : Heap) (i : aref) (f : PgNode_a -> PgNode_a) :
  f (get_a h i) = get_a h i -> mut_a h i f = h.
Proof.
  intros H. destruct h as [ss aa]. unfold mut_a, get_a in *. simpl in *.
  now rewrite (upd_id i f aa null_a H).
Qed.

(** X8.  Applying [mutexify] a second time to the same two nodes changes
    nothing: the store after the first call is a fixed point. *)
Theorem mutexify_idempotent (h h' : Heap) (n1 n2 : node) :
  node_valid h n1 -> node_valid h n2 ->
  mutexify n1 n2 h = Ok h' -> mutexify n1 n2 h' = Ok h'.
Proof.
  intros V1 V2 E.
  destruct n1 as [a | a], n2 as [b | b]; cbn [mutexify] in E;
    try discriminate; inversion E; subst h'; cbn [node_valid] in V1, V2.
  - destruct (mutexify_s_is_mutex h a b V1 V2) as (A & B).
    unfold mutexify_s in A, B. cbn [is_mutex] in A, B.
    set (h2 := mut_s (mut_s h a (add_s_mutex b h)) b
                 (add_s_mutex a (mut_s h a (add_s_mutex b h)))) in *.
    cbn [mutexify].
    assert (E1 : mut_s h2 a (add_s_mutex b h2) = h2).
    { apply mut_s_id. unfold add_s_mutex, s_add. rewrite A.
      now destruct (get_s h2 a). }
    rewrite E1. f_equal. apply mut_s_id. unfold add_s_mutex, s_add.
    rewrite B. now destruct (get_s h2 b).
  - destruct (mutexify_a_is_mutex h a b V1 V2) as (A & B).
    unfold mutexify_a in A, B. cbn [is_mutex] in A, B.
    set (h2 := mut_a (mut_a h a (add_a_mutex b h)) b
                 (add_a_mutex a (mut_a h a (add_a_mutex b h)))) in *.
    cbn [mutexify].
    assert (E1 : mut_a h2 a (add_a_mutex b h2) = h2).
    { apply mut_a_id. unfold add_a_mutex, a_add. rewrite A.
      now destruct (get_a h2 a). }
    rewrite E1. f_equal. apply mut_a_id. unfold add_a_mutex, a_add.
    rewrite B. now destruct (get_a h2 b).
Qed.

Lemma mutexify_idempotent_witness :
  mutexify (SNode 0) (SNode 1)
    (mut_s (mut_s two_facts 0 (add_s_mutex 1 two_facts)) 1
       (add_s_mutex 0 (mut_s two_facts 0 (add_s_mutex 1 two_facts))))
  = Ok (mut_s (mut_s two_facts 0 (add_s_mutex 1 two_facts)) 1
          (add_s_mutex 0 (mut_s two_facts 0 (add_s_mutex 1 two_facts)))).
Proof.
  apply (mutexify_idempotent two_facts _ (SNode 0) (SNode 1)).
  - simpl. lia.
  - simpl. lia.
  - reflexivity.
Defined.

(** X9.  On two nodes of one layer of a constructed graph
    [is_mutex_relation] never raises: it returns what [is_mutex]
    returns. *)
Theorem is_mutex_relation_on_siblings (o : set_order) (fuel : nat)
  (pb : Problem) (state : list bool) (ser : bool) (pg : PlanningGraph)
  (n1 n2 : node) :
  PlanningGraph_init o fuel pb state ser = Some (Ok pg) ->
  siblings pg n1 n2 ->
  is_mutex_relation (heap pg) n1 n2 = Ok (is_mutex (heap pg) n1 n2).
Proof.
  intros Hrun Hsib.
  destruct (built_inv o fuel pb state ser _ Hrun) as (pg' & E & Hinv & _).
  inversion E; subst pg'. clear E.
  assert (Sym : is_mutex (heap pg) n1 n2 = is_mutex (heap pg) n2 n1).
  { destruct n1 as [a | a], n2 as [b | b]; cbn [siblings] in Hsib;
      try contradiction.
    - destruct Hsib as (l & Sl & HSl & Ha & Hb).
      destruct Hinv as (_ & _ & HS & _). pose proof (HS l Sl HSl) as Hok.
      apply eq_true_iff_eq.
      rewrite (is_mutex_s_layer _ Sl a b Hok Ha Hb).
      rewrite (is_mutex_s_layer _ Sl b a Hok Hb Ha).
      destruct Hok as (_ & _ & _ & Hsym). now apply Hsym.
    - destruct Hsib as (l & La & HLa & Ha & Hb).
      destruct (a_levels_have_facts pg l La Hinv HLa) as (Sl & Sn & HSl & HSn).
      destruct Hinv as (_ & _ & _ & _ & HA).
      destruct (HA l La Sl Sn HLa HSl HSn) as (Hok & _).
      apply eq_true_iff_eq.
      rewrite (is_mutex_a_layer _ La a b Hok Ha Hb).
      rewrite (is_mutex_a_layer _ La b a Hok Hb Ha).
      destruct Hok as (_ & _ & _ & Hsym). now apply Hsym. }
  unfold is_mutex_relation. rewrite <- Sym.
  now destruct (is_mutex (heap pg) n1 n2).
Qed.

Lemma is_mutex_relation_on_siblings_witness :
  is_mutex_relation (heap cake_graph) (SNode 8) (SNode 3)
  = Ok (is_mutex (heap cake_graph) (SNode 8) (SNode 3)).
Proof.
  apply (is_mutex_relation_on_siblings insertion_order 10 cake [true; false]
           true cake_graph (SNode 8) (SNode 3)).
  - vm_compute. reflexivity.
  - exists 1, [3; 4; 8; 14]. split; [reflexivity |]. simpl. tauto.
Defined.

(** Across layers the check does fire. *)
Example is_mutex_relation_across_layers :
  is_mutex_relation (heap cake_graph) (SNode 16) (SNode 8) = Ok true /\
  is_mutex_relation (heap cake_graph) (SNode 8) (SNode 16) = Raise ValueError.
Proof. vm_compute. split; reflexivity. Qed.

(** ** Nodes and their adjacency *)

(** X10.  An action node of a constructed graph is flagged persistent
    exactly when the signed preconditions and the signed effects of its
    action are the same set of literals; the nodes of the no-op actions
    are all flagged. *)
Theorem persistence_flag_exact (o : set_order) (fuel : nat) (pb : Problem)
  (state : list bool) (ser : bool) (pg : PlanningGraph) :
  PlanningGraph_init o fuel pb state ser = Some (Ok pg) ->
  forall l La n,
    nth_error (a_levels pg) l = Some La -> In n La ->
    (is_persistent (get_a (heap pg) n) = true
     <-> same_lits (action (get_a (heap pg) n))) /\
    (In (action (get_a (heap pg) n)) (noop_actions (state_map pb)) ->
     is_persistent (get_a (heap pg) n) = true).
Proof.
  intros Hrun l La n HLa Hn.
  destruct (built_all o fuel pb state ser pg Hrun) as (Hinv & (_ & Hdet) & _).
  destruct (a_levels_have_facts pg l La Hinv HLa) as (Sl & Sn & HSl & HSn).
  destruct (Hdet l La Sn HLa HSn) as (Dn & _).
  destruct (Dn n Hn) as (P & _).
  split; [exact P |]. intros Hnoop. apply P.
  unfold noop_actions in Hnoop. apply in_flat_map in Hnoop as (f & _ & Ha).
  simpl in Ha. destruct Ha as [<- | [<- | []]]; intros k; reflexivity.
Qed.

Lemma persistence_flag_exact_witness :
  is_persistent (get_a (heap cake_graph) 0) = true
  <-> same_lits (action (get_a (heap cake_graph) 0)).
Proof.
  refine (proj1 (persistence_flag_exact insertion_order 10 cake [true; false]
                   true cake_graph _ 0 [0; 2; 5] 0 _ _));
    try (vm_compute; reflexivity); simpl; tauto.
Defined.

(** X11.  In a constructed graph the parents of a fact node of layer l+1
    are exactly the action nodes of layer l whose effnodes contain the
    node (by content). *)
Theorem parents_are_producers (o : set_order) (fuel : nat) (pb : Problem)
  (state : list bool) (ser : bool) (pg : PlanningGraph) :
  PlanningGraph_init o fuel pb state ser = Some (Ok pg) ->
  forall l La Sn s n,
    nth_error (a_levels pg) l = Some La ->
    nth_error (s_levels pg) (S l) = Some Sn -> In s Sn ->
    (In n (s_parents (get_s (heap pg) s)) <->
     In n La /\ s_in (heap pg) s (effnodes (get_a (heap pg) n)) = true).
Proof.
  intros Hrun l La Sn s n HLa HSn Hs.
  destruct (built_all o fuel pb state ser pg Hrun) as (_ & (_ & Hdet) & _).
  destruct (Hdet l La Sn HLa HSn) as (Dn & _ & Dp & _).
  rewrite (Dp s n Hs). split; intros (Hn & H); (split; [exact Hn |]);
    destruct (Dn n Hn) as (_ & _ & Ke & _).
  - apply s_in_iff. now apply Ke.
  - apply Ke. now apply s_in_iff.
Qed.

Lemma parents_are_producers_witness :
  In 0 (s_parents (get_s (heap cake_graph) 3)) <->
  In 0 [0; 2; 5] /\
  s_in (heap cake_graph) 3 (effnodes (get_a (heap cake_graph) 0)) = true.
Proof.
  refine (parents_are_producers insertion_order 10 cake [true; false] true
            cake_graph _ 0 [0; 2; 5] [3; 4; 8; 14] 3 0 _ _ _);
    try (vm_compute; reflexivity); simpl; tauto.
Defined.

(** X12.  In a constructed graph the children of an action node are node
    objects of its own effnodes; as sets (by content) children and
    effnodes are equal; and every child is, by content, in the next fact
    layer. *)
Theorem children_are_effnodes (o : set_order) (fuel : nat) (pb : Problem)
  (state : list bool) (ser : bool) (pg : PlanningGraph) :
  PlanningGraph_init o fuel pb state ser = Some (Ok pg) ->
  forall l La Sn n,
    nth_error (a_levels pg) l = Some La ->
    nth_error (s_levels pg) (S l) = Some Sn -> In n La ->
    incl (a_children (get_a (heap pg) n)) (effnodes (get_a (heap pg) n)) /\
    s_set_eq (heap pg) (a_children (get_a (heap pg) n))
      (effnodes (get_a (heap pg) n)) = true /\
    s_subset (heap pg) (a_children (get_a (heap pg) n)) Sn = true.
Proof.
  intros Hrun l La Sn n HLa HSn Hn.
  destruct (built_all o fuel pb state ser pg Hrun) as (Hinv & (_ & Hdet) & _).
  destruct (Hdet l La Sn HLa HSn) as (Dn & _).
  destruct (Dn n Hn) as (_ & _ & Ke & C & Kc).
  destruct (a_levels_have_facts pg l La Hinv HLa) as (Sl & Sn' & HSl & HSn').
  rewrite HSn in HSn'. inversion HSn'; subst Sn'.
  destruct Hinv as (_ & _ & _ & _ & HA).
  destruct (HA l La Sl Sn HLa HSl HSn) as (_ & _ & _ & _ & Heff & _).
  split; [exact C |]. split.
  - apply s_set_eq_iff. split; intros k Hk.
    + now apply Ke, Kc.
    + now apply Kc, Ke.
  - apply s_subset_iff. intros k Hk. apply Heff. exists n.
    split; [exact Hn | now apply Kc].
Qed.

Lemma children_are_effnodes_witness :
  incl (a_children (get_a (heap cake_graph) 0))
       (effnodes (get_a (heap cake_graph) 0)) /\
  s_set_eq (heap cake_graph) (a_children (get_a (heap cake_graph) 0))
    (effnodes (get_a (heap cake_graph) 0)) = true /\
  s_subset (heap cake_graph) (a_children (get_a (heap cake_graph) 0))
    [3; 4; 8; 14] = true.
Proof.
  refine (children_are_effnodes insertion_order 10 cake [true; false] true
            cake_graph _ 0 [0; 2; 5] [3; 4; 8; 14] 0 _ _ _);
    try (vm_compute; reflexivity); simpl; tauto.
Defined.

(** X13.  No fact node of a constructed graph has a child: the
    construction never adds to the [children] set of a [PgNode_s]. *)
Theorem fact_nodes_childless (o : set_order) (fuel : nat) (pb : Problem)
  (state : list bool) (ser : bool) (pg : PlanningGraph) :
  PlanningGraph_init o fuel pb state ser = Some (Ok pg) ->
  Forall (fun n => s_children n = []) (snodes (heap pg)).
Proof.
  intros Hrun.
  destruct (built_all o fuel pb state ser pg Hrun) as (_ & (Hch & _) & _).
  apply Forall_forall. intros x Hx.
  apply (In_nth _ _ null_s) in Hx as (i & _ & <-). apply Hch.
Qed.

Lemma fact_nodes_childless_witness :
  Forall (fun n => s_children n = []) (snodes (heap cake_graph)).
Proof.
  apply (fact_nodes_childless insertion_order 10 cake [true; false] true
           cake_graph).
  vm_compute. reflexivity.
Defined.

(** X14.  Fact layer l+1 of a constructed graph holds exactly the signed
    effects of the actions of action layer l, one node per literal. *)
Theorem fact_layer_is_effects (o : set_order) (fuel : nat) (pb : Problem)
  (state : list bool) (ser : bool) (pg : PlanningGraph) :
  PlanningGraph_init o fuel pb state ser = Some (Ok pg) ->
  forall l La Sn,
    nth_error (a_levels pg) l = Some La ->
    nth_error (s_levels pg) (S l) = Some Sn ->
    NoDup (skeys (heap pg) Sn) /\
    (forall k, In k (skeys (heap pg) Sn) <->
       exists n, In n La /\ In k (effect_lits (action (get_a (heap pg) n)))).
Proof.
  intros Hrun l La Sn HLa HSn.
  destruct (built_all o fuel pb state ser pg Hrun) as (Hinv & _).
  destruct (a_levels_have_facts pg l La Hinv HLa) as (Sl & Sn' & HSl & HSn').
  rewrite HSn in HSn'. inversion HSn'; subst Sn'.
  destruct Hinv as (_ & _ & HS & _ & HA).
  destruct (HA l La Sl Sn HLa HSl HSn) as (_ & _ & _ & _ & Heff & _).
  split; [| exact Heff]. now destruct (HS _ Sn HSn) as (_ & Hnd & _).
Qed.

Lemma fact_layer_is_effects_witness :
  NoDup (skeys (heap cake_graph) [3; 4; 8; 14]) /\
  (forall k, In k (skeys (heap cake_graph) [3; 4; 8; 14]) <->
     exists n, In n [0; 2; 5] /\
               In k (effect_lits (action (get_a (heap cake_graph) n)))).
Proof.
  refine (fact_layer_is_effects insertion_order 10 cake [true; false] true
            cake_graph _ 0 [0; 2; 5] [3; 4; 8; 14] _ _);
    vm_compute; reflexivity.
Defined.

(** X15.  When name and arguments identify the actions of the catalog, an
    action admitted to an action layer is admitted to the next one as
    well. *)
Theorem action_layers_grow (o : set_order) (fuel : nat) (pb : Problem)
  (state : list bool) (ser : bool) (pg : PlanningGraph) :
  PlanningGraph_init o fuel pb state ser = Some (Ok pg) ->
  catalog_consistent (actions_list pb ++ noop_actions (state_map pb)) ->
  forall l La Lb,
    nth_error (a_levels pg) l = Some La ->
    nth_error (a_levels pg) (S l) = Some Lb ->
    forall n, In n La ->
    exists m, In m Lb /\
              action (get_a (heap pg) m) = action (get_a (heap pg) n).
Proof.
  intros Hrun Hcat l La Lb HLa HLb n Hn.
  destruct (built_inv o fuel pb state ser _ Hrun)
    as (pg' & E & Hinv & _ & Epb & Efs & _ & Eacts & _).
  inversion E; subst pg'. clear E.
  assert (Hper : persistence_present (fs pg) (all_actions pg)).
  { rewrite Efs, Eacts. apply persistence_of_init. }
  rewrite <- Eacts in Hcat.
  destruct (a_levels_have_facts pg l La Hinv HLa) as (Sl & Sn & HSl & HSn).
  destruct (a_levels_have_facts pg (S l) Lb Hinv HLb) as (Sn' & Sm & HSn' & HSm).
  rewrite HSn in HSn'. inversion HSn'; subst Sn'.
  pose proof (layers_grow pg Hinv Hcat Hper l Sl Sn HSl HSn) as Hgrow.
  destruct Hinv as (_ & _ & _ & _ & HA).
  destruct (HA l La Sl Sn HLa HSl HSn) as (_ & Hnode & _).
  destruct (HA (S l) Lb Sn Sm HLb HSn HSm) as (_ & Hnode' & Hcov & _).
  destruct (Hnode n Hn) as (Hin & _ & _ & _ & Happ).
  assert (Hkey : In (key_of (action (get_a (heap pg) n))) (akeys (heap pg) Lb)).
  { apply Hcov; [exact Hin |]. intros k Hk. now apply Hgrow, Happ. }
  unfold akeys in Hkey. apply in_map_iff in Hkey as (m & Ek & Hm).
  exists m. split; [exact Hm |].
  destruct (Hnode' m Hm) as (Hin' & _).
  now apply Hcat.
Qed.

Lemma action_layers_grow_witness :
  exists m, In m [6; 7; 8; 9; 10; 11] /\
            action (get_a (heap cake_graph) m)
            = action (get_a (heap cake_graph) 0).
Proof.
  refine (action_layers_grow insertion_order 10 cake [true; false] true
            cake_graph _ cake_catalog 0 [0; 2; 5] [6; 7; 8; 9; 10; 11] _ _ 0 _);
    try (vm_compute; reflexivity); simpl; tauto.
Defined.

(** ** Bounds and misuse *)



(** X17.  [add_literal_level] at level 0 reads [a_levels[-1]], the last
    action layer, and so does what it does at level [len(a_levels)];
    at a level beyond that it raises IndexError. *)
Theorem add_literal_level_edges (o : set_order) (pg : PlanningGraph) :
  add_literal_level o pg 0 = add_literal_level o pg (length (a_levels pg)) /\
  (forall level, length (a_levels pg) < level ->
     add_literal_level o pg level = Raise IndexError).
Proof.
  split.
  - unfold add_literal_level.
    destruct (a_levels pg) as [| La rest] eqn:E; [reflexivity |].
    cbn [length py_index_pred].
    replace (S (length rest) - 1) with (length rest) by lia. reflexivity.
  - intros level Hlt. unfold add_literal_level.
    destruct level as [| i]; [lia |]. cbn [py_index_pred]. unfold py_index.
    rewrite (proj2 (nth_error_None (a_levels pg) i)) by lia. reflexivity.
Qed.

Lemma add_literal_level_edges_witness :
  add_literal_level insertion_order cake_graph 3 = Raise IndexError.
Proof.
  apply (proj2 (add_literal_level_edges insertion_order cake_graph) 3).
  vm_compute. lia.
Defined.

(** X18.  [create_graph] on a graph that has been constructed raises
    [Exception], whatever the fuel and the iteration order of sets. *)
Theorem rebuild_is_refused (o o' : set_order) (fuel fuel' : nat)
  (pb : Problem) (state : list bool) (ser : bool) (pg : PlanningGraph) :
  PlanningGraph_init o fuel pb state ser = Some (Ok pg) ->
  create_graph o' fuel' pg = Some (Raise Exception_).
Proof.
  intros Hrun.
  destruct (built_inv o fuel pb state ser _ Hrun)
    as (pg' & E & _ & _ & _ & _ & _ & _ & Hlen).
  inversion E; subst pg'. unfold create_graph.
  destruct (s_levels pg); [simpl in Hlen; lia | reflexivity].
Qed.

Lemma rebuild_is_refused_witness :
  create_graph reverse_order 0 cake_graph = Some (Raise Exception_).
Proof.
  apply (rebuild_is_refused insertion_order reverse_order 10 0 cake
           [true; false] true cake_graph).
  vm_compute. reflexivity.
Defined.

Lemma noop_actions_In (literal_list : list Expr) (a : Action) :
  In a (noop_actions literal_list) ->
  exists f, In f literal_list /\
    (a = mkAction "Noop_pos" [f] [f] [] [f] []
     \/ a = mkAction "Noop_neg" [f] [] [f] [] [f]).
Proof.
  unfold noop_actions. intros H. apply in_flat_map in H as (f & Hf & Ha).
  exists f. split; [exact Hf |]. simpl in Ha. intuition auto.
Qed.

(** X19.  The no-op actions never clash: if name and arguments identify
    the actions of a catalog and none of them is called Noop_pos or
    Noop_neg, they still identify the actions after [noop_actions] has
    been appended. *)
Theorem noop_catalog_consistent (acts : list Action)
  (literal_list : list Expr) :
  catalog_consistent acts ->
  (forall a, In a acts -> name a <> "Noop_pos" /\ name a <> "Noop_neg") ->
  catalog_consistent (acts ++ noop_actions literal_list).
Proof.
  intros Hcat Hnames a b Ha Hb E.
  apply in_app_or in Ha. apply in_app_or in Hb.
  destruct Ha as [Ha | Ha], Hb as [Hb | Hb].
  - now apply Hcat.
  - exfalso. apply noop_actions_In in Hb as (f & _ & [-> | ->]);
      destruct (Hnames a Ha) as (N1 & N2); inversion E; congruence.
  - exfalso. apply noop_actions_In in Ha as (f & _ & [-> | ->]);
      destruct (Hnames b Hb) as (N1 & N2); inversion E; congruence.
  - apply noop_actions_In in Ha as (f & _ & [-> | ->]);
      apply noop_actions_In in Hb as (g & _ & [-> | ->]);
      inversion E; reflexivity.
Qed.

Lemma noop_catalog_consistent_witness :
  catalog_consistent ([Eat; Bake] ++ noop_actions [Have; Eaten]).
Proof.
  apply (noop_catalog_consistent [Eat; Bake] [Have; Eaten]).
  - intros a b Ha Hb E. simpl in Ha, Hb.
    repeat (destruct Ha as [<- | Ha]; [| try contradiction]);
      repeat (destruct Hb as [<- | Hb]; [| try contradiction]);
      first [reflexivity | discriminate E].
  - intros a Ha. simpl in Ha.
    repeat (destruct Ha as [<- | Ha]; [| try contradiction]);
      split; discriminate.
Defined.

(** ** The heuristics *)

(** The value of the level sum: over the distinct goal literals, the
    index of the first fact layer that holds the literal. *)
Lemma h_levelsum_value (o : set_order) (pg : PlanningGraph) :
  graph_inv pg ->
  exists G,
    NoDup G /\
    (forall k, In k G <-> In k (lits_of (goal (problem pg)) true)) /\
    h_levelsum o pg
    = Ok (list_sum
            (map (cost_from 0 (map (skeys (heap pg)) (s_levels pg))) G)).
Proof.
  intros Hinv.
  destruct (add_s_nodes_spec (goal (problem pg)) true [] (heap pg))
    as ((ss & Es & _) & _ & _ & _ & K & D); [intros x [] |].
  unfold h_levelsum.
  destruct (add_s_nodes (goal (problem pg)) true ([], heap pg))
    as [U0 h'] eqn:R.
  cbn [fst snd] in *.
  assert (Hnd : NoDup (dkeys h' [] ++ skeys h' U0))
    by (apply D; constructor).
  destruct (scan_levels_sum o h' (s_levels pg) 0 U0 [] Hnd) as (N & Sm).
  rewrite (total_sum h' _ N), Sm.
  assert (EL : map (skeys h') (s_levels pg)
               = map (skeys (heap pg)) (s_levels pg)).
  { apply map_ext_in. intros lv Hlv.
    apply In_nth_error in Hlv as (l & Hl).
    destruct Hinv as (_ & _ & HS & _).
    apply skeys_agree. intros x Hx. eapply get_s_app_l; [exact Es |].
    exact (s_layer_ok_valid _ lv x (HS l lv Hl) Hx). }
  rewrite EL. exists (skeys h' U0). split; [exact Hnd |]. split.
  - intros k. rewrite K. simpl. tauto.
  - reflexivity.
Qed.

Lemma first_level_found (levels : list (list lit)) (k : lit) :
  forall i j, first_level i levels k = Some j ->
  i <= j /\
  (exists lv, nth_error levels (j - i) = Some lv /\ In k lv) /\
  (forall m lv, m < j - i -> nth_error levels m = Some lv -> ~ In k lv).
Proof.
  induction levels as [| lv0 rest IH]; intros i j H; [discriminate |].
  cbn [first_level] in H. destruct (in_dec lit_eq_dec k lv0) as [Hin | Hn].
  - inversion H; subst j. split; [lia |]. rewrite Nat.sub_diag. split.
    + exists lv0. auto.
    + intros m lv Hm. lia.
  - destruct (IH (S i) j H) as (Hle & (lv & Hlv & Hk) & Hfirst).
    split; [lia |]. replace (j - i) with (S (j - S i)) by lia. split.
    + exists lv. auto.
    + intros m lv' Hm Hnth. destruct m as [| m].
      * simpl in Hnth. inversion Hnth; subst lv'. exact Hn.
      * simpl in Hnth. apply (Hfirst m lv'); [lia | exact Hnth].
Qed.

Lemma list_sum_bound (l : list nat) (b : nat) :
  (forall x, In x l -> x <= b) -> list_sum l <= length l * b.
Proof.
  induction l as [| x l IH]; intros H; [simpl; lia |].
  cbn [list_sum length]. simpl.
  pose proof (H x (or_introl eq_refl)).
  assert (list_sum l <= length l * b) by (apply IH; intros y Hy; apply H; now right).
  change (fold_right Nat.add 0 l) with (list_sum l). lia.
Qed.

Lemma cost_bounded (pg : PlanningGraph) (k : lit) :
  graph_inv pg -> leveled pg -> 2 <= length (s_levels pg) ->
  cost_from 0 (map (skeys (heap pg)) (s_levels pg)) k
  <= length (s_levels pg) - 2.
Proof.
  intros Hinv Hlev Hlen. unfold cost_from.
  destruct (first_level 0 (map (skeys (heap pg)) (s_levels pg)) k) as [j |] eqn:E;
    [| lia].
  destruct (first_level_found _ k 0 j E) as (_ & (lv & Hlv & Hk) & Hfirst).
  rewrite Nat.sub_0_r in *.
  assert (Hj : j < length (s_levels pg)).
  { rewrite <- (length_map (skeys (heap pg))). apply nth_error_Some. congruence. }
  destruct (Nat.le_gt_cases j (length (s_levels pg) - 2)) as [Hle | Hgt];
    [exact Hle | exfalso].
  assert (Ej : j = S (length (s_levels pg) - 2)) by lia.
  destruct (nth_error (s_levels pg) (length (s_levels pg) - 2)) as [Sl |] eqn:ESl;
    [| apply nth_error_None in ESl; lia].
  destruct (nth_error (s_levels pg) j) as [Sn |] eqn:ESn;
    [| apply nth_error_None in ESn; lia].
  rewrite nth_error_map, ESn in Hlv. inversion Hlv; subst lv.
  assert (T : s_set_eq (heap pg) Sn Sl = true).
  { apply (Hlev (length (s_levels pg) - 2) Sl Sn ESl); [now rewrite <- Ej | lia]. }
  apply s_set_eq_iff in T as (I1 & _).
  apply (Hfirst (length (s_levels pg) - 2) (skeys (heap pg) Sl)); [lia | |].
  - now rewrite nth_error_map, ESl.
  - now apply I1.
Qed.

(** X20.  [h_levelsum] on a constructed graph returns a number that is at
    most the number of goals times the index of the last fact layer but
    one (the last fact layer repeats the one before it). *)
Theorem level_sum_bounded (o : set_order) (fuel : nat) (pb : Problem)
  (state : list bool) (ser : bool) (pg : PlanningGraph) :
  PlanningGraph_init o fuel pb state ser = Some (Ok pg) ->
  exists v, h_levelsum o pg = Ok v /\
            v <= length (goal pb) * (length (s_levels pg) - 2).
Proof.
  intros Hrun.
  destruct (built_inv o fuel pb state ser _ Hrun)
    as (pg' & E & Hinv & Hlev & Epb & _ & _ & _ & Hlen).
  inversion E; subst pg'. clear E.
  destruct (h_levelsum_value o pg Hinv) as (G & Hnd & HG & ->).
  eexists. split; [reflexivity |].
  assert (LG : length G <= length (goal pb)).
  { rewrite <- Epb.
    rewrite <- (length_map (fun e => (e, true)) (goal (problem pg))).
    apply NoDup_incl_length; [exact Hnd |]. intros k Hk. now apply HG. }
  etransitivity.
  - apply (list_sum_bound _ (length (s_levels pg) - 2)).
    intros x Hx. apply in_map_iff in Hx as (k & <- & _).
    now apply cost_bounded.
  - rewrite length_map. now apply Nat.mul_le_mono_r.
Qed.

Lemma level_sum_bounded_witness :
  exists v, h_levelsum insertion_order cake_graph = Ok v /\
            v <= length (goal cake) * (length (s_levels cake_graph) - 2).
Proof.
  apply (level_sum_bounded insertion_order 10 cake [true; false] true
           cake_graph).
  vm_compute. reflexivity.
Defined.

Lemma list_sum_zero (l : list nat) :
  (forall x, In x l -> x = 0) -> list_sum l = 0.
Proof.
  induction l as [| x l IH]; intros H; [reflexivity |].
  cbn [list_sum]. simpl. rewrite (H x (or_introl eq_refl)).
  apply IH. intros y Hy. apply H. now right.
Qed.

(** X21.  When every goal holds in the start state, [h_levelsum] returns
    0. *)
Theorem level_sum_zero_when_satisfied (o : set_order) (fuel : nat)
  (pb : Problem) (state : list bool) (ser : bool) (pg : PlanningGraph) :
  PlanningGraph_init o fuel pb state ser = Some (Ok pg) ->
  (forall g, In g (goal pb) ->
             In g (pos (decode_state state (state_map pb)))) ->
  h_levelsum o pg = Ok 0.
Proof.
  intros Hrun Hsat.
  destruct (built_inv o fuel pb state ser _ Hrun)
    as (pg' & E & Hinv & _ & Epb & Efs & _).
  inversion E; subst pg'. clear E.
  destruct (h_levelsum_value o pg Hinv) as (G & Hnd & HG & ->).
  f_equal. apply list_sum_zero. intros x Hx.
  apply in_map_iff in Hx as (k & <- & Hk).
  destruct Hinv as ((S0 & E0 & (K0 & _)) & _).
  destruct (s_levels pg) as [| S0' rest]; [discriminate |].
  simpl in E0. inversion E0; subst S0'.
  unfold cost_from. cbn [map first_level].
  destruct (in_dec lit_eq_dec k (skeys (heap pg) S0)) as [Hin | Hn];
    [reflexivity | exfalso].
  apply Hn, K0. apply in_or_app. left. apply HG in Hk.
  unfold lits_of in *. apply in_map_iff in Hk as (g & <- & Hg).
  apply (in_map (fun e => (e, true))). rewrite Efs. apply Hsat.
  now rewrite <- Epb.
Qed.

Lemma level_sum_zero_when_satisfied_witness :
  h_levelsum insertion_order
    (unwrap (PlanningGraph_init insertion_order 10 cake [true; true] true))
  = Ok 0.
Proof.
  apply (level_sum_zero_when_satisfied insertion_order 10 cake [true; true]
           true).
  - vm_compute. reflexivity.
  - intros g Hg. exact Hg.
Defined.

(** With enough fuel the construction returns, and the number of fact
    layers is bounded. *)
Lemma init_terminates (o : set_order) (pb : Problem) (state : list bool)
  (ser : bool) :
  catalog_consistent (actions_list pb ++ noop_actions (state_map pb)) ->
  exists pg,
    (forall fuel,
       length (distinct_literals (decode_state state (state_map pb))
                 (actions_list pb ++ noop_actions (state_map pb))) < fuel ->
       PlanningGraph_init o fuel pb state ser = Some (Ok pg)) /\
    length (s_levels pg)
    <= length (distinct_literals (decode_state state (state_map pb))
                 (actions_list pb ++ noop_actions (state_map pb))) + 2.
Proof.
  intros Hcat.
  set (fs0 := decode_state state (state_map pb)).
  set (acts := actions_list pb ++ noop_actions (state_map pb)) in *.
  set (U := distinct_literals fs0 acts).
  destruct (initial_inv pb fs0 ser acts empty_heap)
    as (S0 & h0 & E & Hinv0 & Hnr0).
  set (pg0 := mkPG pb fs0 ser acts [S0] [] h0) in *.
  assert (Hper : persistence_present (fs pg0) (all_actions pg0))
    by apply persistence_of_init.
  destruct (create_loop_terminates o (S (length U)) pg0 S0 Hinv0 Hcat Hper
              eq_refl) as (pg & Erun & Hbound).
  { cbn [pg0 fs all_actions]. fold U. lia. }
  cbn [pg0 fs all_actions s_levels a_levels length] in *.
  exists pg. split.
  - intros fuel Hfuel. unfold PlanningGraph_init, create_graph.
    cbn [s_levels a_levels length Nat.eqb negb orb fs heap problem serial
         all_actions].
    fold fs0 acts. rewrite E. cbn [fst snd].
    apply (create_loop_more_fuel o (S (length U))); [lia | exact Erun].
  - fold U in Hbound. lia.
Qed.

(** X22.  When name and arguments identify the actions of the catalog,
    [h_pg_levelsum] returns a number for every state: with enough fuel
    the construction ends, and the level sum is at most the number of
    goals times the number of distinct literals. *)
Theorem h_pg_levelsum_returns (o : set_order) (pb : Problem)
  (state : list bool) :
  catalog_consistent (actions_list pb ++ noop_actions (state_map pb)) ->
  exists v,
    (forall fuel,
       length (distinct_literals (decode_state state (state_map pb))
                 (actions_list pb ++ noop_actions (state_map pb))) < fuel ->
       h_pg_levelsum o fuel pb state = Some (Ok v)) /\
    v <= length (goal pb)
         * length (distinct_literals (decode_state state (state_map pb))
                     (actions_list pb ++ noop_actions (state_map pb))).
Proof.
  intros Hcat.
  destruct (init_terminates o pb state true Hcat) as (pg & Hrun & Hb).
  set (U := distinct_literals _ _) in *.
  pose proof (Hrun (S (length U)) (Nat.lt_succ_diag_r _)) as Hrun1.
  destruct (built_inv o _ pb state true _ Hrun1)
    as (pg' & E & Hinv & Hlev & Epb & _ & _ & _ & Hlen).
  inversion E; subst pg'. clear E.
  destruct (h_levelsum_value o pg Hinv) as (G & Hnd & HG & Ev).
  eexists. split.
  - intros fuel Hfuel. unfold h_pg_levelsum. rewrite (Hrun fuel Hfuel).
    rewrite Ev. reflexivity.
  - assert (LG : length G <= length (goal pb)).
    { rewrite <- Epb.
      rewrite <- (length_map (fun e => (e, true)) (goal (problem pg))).
      apply NoDup_incl_length; [exact Hnd |]. intros k Hk. now apply HG. }
    etransitivity.
    + apply (list_sum_bound _ (length (s_levels pg) - 2)).
      intros x Hx. apply in_map_iff in Hx as (k & <- & _).
      now apply cost_bounded.
    + rewrite length_map. apply Nat.mul_le_mono; [exact LG | lia].
Qed.

Lemma h_pg_levelsum_returns_witness :
  exists v,
    (forall fuel,
       length (distinct_literals (decode_state [true; false] (state_map cake))
                 (actions_list cake ++ noop_actions (state_map cake))) < fuel ->
       h_pg_levelsum insertion_order fuel cake [true; false] = Some (Ok v)) /\
    v <= length (goal cake)
         * length (distinct_literals (decode_state [true; false] (state_map cake))
                     (actions_list cake ++ noop_actions (state_map cake))).
Proof.
  apply (h_pg_levelsum_returns insertion_order cake [true; false]).
  exact cake_catalog.
Defined.

Lemma existsb_expr_In (e : Expr) (l : list Expr) :
  existsb (expr_eqb e) l = true <-> In e l.
Proof.
  rewrite existsb_exists. split.
  - intros (x & Hx & E). apply expr_eqb_eq in E. now subst.
  - intros H. exists e. split; [exact H | apply expr_eqb_refl].
Qed.

Lemma expr_set_acc (l : list Expr) :
  forall s, NoDup s ->
  NoDup (fold_left (fun s e => if existsb (expr_eqb e) s then s else s ++ [e])
           l s) /\
  (forall x, In x (fold_left (fun s e =>
                      if existsb (expr_eqb e) s then s else s ++ [e]) l s)
             <-> In x s \/ In x l).
Proof.
  induction l as [| e l IH]; intros s Hs.
  - simpl. split; [exact Hs |]. intros x. tauto.
  - cbn [fold_left]. destruct (existsb (expr_eqb e) s) eqn:E.
    + destruct (IH s Hs) as (N & M). split; [exact N |].
      intros x. rewrite M. simpl. apply existsb_expr_In in E.
      split; [tauto |]. intros [H | [<- | H]]; auto.
    + assert (Hn : ~ In e s).
      { intros H. apply existsb_expr_In in H. congruence. }
      destruct (IH (s ++ [e]) (NoDup_snoc s e Hs Hn)) as (N & M).
      split; [exact N |]. intros x. rewrite M, in_app_iff. simpl. tauto.
Qed.

Lemma expr_set_spec (l : list Expr) :
  NoDup (expr_set l) /\ (forall x, In x (expr_set l) <-> In x l).
Proof.
  destruct (expr_set_acc l [] (NoDup_nil _)) as (N & M).
  split; [exact N |]. intros x. unfold expr_set. rewrite M. simpl. tauto.
Qed.

Lemma filter_length_all {A} (f : A -> bool) (l : list A) :
  length (filter f l) = length l <-> (forall x, In x l -> f x = true).
Proof.
  induction l as [| x l IH]; simpl; [split; [intros _ y [] | reflexivity] |].
  pose proof (filter_length_le f l) as Hle.
  destruct (f x) eqn:E; simpl.
  - split.
    + intros H y [<- | Hy]; [exact E |]. apply IH; [lia | exact Hy].
    + intros H. f_equal. apply IH. intros y Hy. apply H. now right.
  - split; [lia |]. intros H. specialize (H x (or_introl eq_refl)). congruence.
Qed.

(** X23.  [h_ignore_preconditions] lies between 0 and the number of goals;
    it is 0 exactly when no goal is listed twice and every goal is true
    in the state. *)
Theorem h_ignore_preconditions_range (pb : Problem) (state : list bool) :
  (0 <= h_ignore_preconditions pb state <= Z.of_nat (length (goal pb)))%Z /\
  (h_ignore_preconditions pb state = 0%Z <->
   NoDup (goal pb) /\
   incl (goal pb) (pos (decode_state state (state_map pb)))).
Proof.
  unfold h_ignore_preconditions.
  set (P := pos (decode_state state (state_map pb))).
  destruct (expr_set_spec (goal pb)) as (Ng & Mg).
  destruct (expr_set_spec P) as (_ & Mp).
  pose proof (filter_length_le (fun e => existsb (expr_eqb e) (expr_set P))
                (expr_set (goal pb))) as L1.
  assert (L2 : length (expr_set (goal pb)) <= length (goal pb)).
  { apply NoDup_incl_length; [exact Ng |]. intros x. apply Mg. }
  unfold expr_inter. split; [lia |]. split.
  - intros H.
    assert (E1 : length (filter (fun e => existsb (expr_eqb e) (expr_set P))
                           (expr_set (goal pb)))
                 = length (expr_set (goal pb))) by lia.
    assert (E2 : length (expr_set (goal pb)) = length (goal pb)) by lia.
    split.
    + apply (NoDup_incl_NoDup Ng); [lia |]. intros x. apply Mg.
    + intros g Hg. apply Mp, existsb_expr_In.
      apply (proj1 (filter_length_all _ _) E1). now apply Mg.
  - intros (Nd & Hin).
    assert (E2 : length (goal pb) <= length (expr_set (goal pb))).
    { apply NoDup_incl_length; [exact Nd |]. intros x. apply Mg. }
    assert (E1 : length (filter (fun e => existsb (expr_eqb e) (expr_set P))
                           (expr_set (goal pb)))
                 = length (expr_set (goal pb))).
    { apply filter_length_all. intros x Hx. apply existsb_expr_In, Mp, Hin.
      now apply Mg. }
    lia.
Qed.

Lemma h_ignore_preconditions_range_witness :
  h_ignore_preconditions cake [true; true] = 0%Z.
Proof.
  apply (proj2 (h_ignore_preconditions_range cake [true; true])). split.
  - repeat constructor; simpl; intuition discriminate.
  - intros g Hg. exact Hg.
Defined.

(** The literals of fact layer [l] are the literals reachable in [l]
    steps. *)
Lemma layers_are_reach (pg : PlanningGraph) :
  graph_inv pg -> catalog_consistent (all_actions pg) ->
  forall l Sl, nth_error (s_levels pg) l = Some Sl ->
  forall k, In k (skeys (heap pg) Sl) <-> reach (all_actions pg) (fs pg) l k.
Proof.
  intros Hinv Hcat. induction l as [| l IH]; intros Sl HSl k.
  - destruct Hinv as ((S0 & E0 & (K0 & _)) & _).
    rewrite HSl in E0. inversion E0; subst S0. apply K0.
  - destruct (s_levels_have_actions pg l Sl Hinv HSl) as (La & Sp & HLa & HSp).
    rewrite (layer_step pg l Sp Sl k Hinv Hcat HSp HSl). cbn [reach].
    split; intros (act & Hin & Hpre & Hk); exists act;
      (split; [exact Hin |]); (split; [| exact Hk]).
    + intros p Hp. apply (IH Sp HSp). now apply Hpre.
    + intros p Hp. apply (IH Sp HSp). now apply Hpre.
Qed.

Lemma first_level_equiv (levels levels' : list (list lit)) (k : lit) :
  Forall2 (fun a b => forall x, In x a <-> In x b) levels levels' ->
  forall i, first_level i levels k = first_level i levels' k.
Proof.
  induction 1 as [| a b la lb Hab Hrest IH]; intros i; [reflexivity |].
  cbn [first_level].
  destruct (in_dec lit_eq_dec k a) as [Ha | Ha],
           (in_dec lit_eq_dec k b) as [Hb | Hb]; auto.
  - exfalso. apply Hb. now apply Hab.
  - exfalso. apply Ha. now apply Hab.
Qed.

Lemma Forall2_nth {A B} (R : A -> B -> Prop) (l : list A) (l' : list B) :
  length l = length l' ->
  (forall i a b, nth_error l i = Some a -> nth_error l' i = Some b -> R a b) ->
  Forall2 R l l'.
Proof.
  revert l'. induction l as [| x l IH]; intros [| y l'] Hlen H;
    try discriminate; constructor.
  - apply (H 0); reflexivity.
  - apply IH; [simpl in Hlen; lia |].
    intros i a b Ha Hb. apply (H (S i)); assumption.
Qed.

(** X24.  When name and arguments identify the actions of the catalog, the
    order in which sets are iterated does not show in the result: two
    constructions from the same start state have the same number of fact
    layers, the same literals in each fact layer, and the same level
    sum. *)
Theorem level_sum_order_independent (o o' : set_order) (fuel fuel' : nat)
  (pb : Problem) (state : list bool) (ser : bool) (pg pg' : PlanningGraph) :
  catalog_consistent (actions_list pb ++ noop_actions (state_map pb)) ->
  PlanningGraph_init o fuel pb state ser = Some (Ok pg) ->
  PlanningGraph_init o' fuel' pb state ser = Some (Ok pg') ->
  length (s_levels pg) = length (s_levels pg') /\
  (forall l Sl Sl' k,
     nth_error (s_levels pg) l = Some Sl ->
     nth_error (s_levels pg') l = Some Sl' ->
     (In k (skeys (heap pg) Sl) <-> In k (skeys (heap pg') Sl'))) /\
  h_levelsum o pg = h_levelsum o' pg'.
Proof.
  intros Hcat Hrun Hrun'.
  destruct (built_inv o fuel pb state ser _ Hrun)
    as (pg1 & E & Hinv & Hlev & Epb & Efs & _ & Eacts & Hlen).
  inversion E; subst pg1. clear E.
  destruct (built_inv o' fuel' pb state ser _ Hrun')
    as (pg1 & E & Hinv' & Hlev' & Epb' & Efs' & _ & Eacts' & Hlen').
  inversion E; subst pg1. clear E.
  assert (Same : forall l Sl Sl' k,
            nth_error (s_levels pg) l = Some Sl ->
            nth_error (s_levels pg') l = Some Sl' ->
            (In k (skeys (heap pg) Sl) <-> In k (skeys (heap pg') Sl'))).
  { intros l Sl Sl' k HSl HSl'.
    assert (C1 : catalog_consistent (all_actions pg)) by now rewrite Eacts.
    assert (C2 : catalog_consistent (all_actions pg')) by now rewrite Eacts'.
    rewrite (layers_are_reach pg Hinv C1 l Sl HSl k).
    rewrite (layers_are_reach pg' Hinv' C2 l Sl' HSl' k).
    now rewrite Eacts, Eacts', Efs, Efs'. }
  assert (Short : forall p q : PlanningGraph,
            leveled p -> leveled q -> 2 <= length (s_levels p) ->
            (forall l Sl Sl' k,
               nth_error (s_levels p) l = Some Sl ->
               nth_error (s_levels q) l = Some Sl' ->
               (In k (skeys (heap p) Sl) <-> In k (skeys (heap q) Sl'))) ->
            length (s_levels p) < length (s_levels q) -> False).
  { intros p q Lp Lq Hp Hsame Hlt.
    set (n := length (s_levels p) - 2).
    destruct (nth_error (s_levels p) n) as [A |] eqn:EA;
      [| apply nth_error_None in EA; lia].
    destruct (nth_error (s_levels p) (S n)) as [B |] eqn:EB;
      [| apply nth_error_None in EB; lia].
    destruct (nth_error (s_levels q) n) as [A' |] eqn:EA';
      [| apply nth_error_None in EA'; lia].
    destruct (nth_error (s_levels q) (S n)) as [B' |] eqn:EB';
      [| apply nth_error_None in EB'; lia].
    assert (T : s_set_eq (heap p) B A = true)
      by (apply (Lp n A B EA EB); lia).
    assert (T' : s_set_eq (heap q) B' A' = true).
    { apply s_set_eq_iff in T as (I1 & I2). apply s_set_eq_iff.
      split; intros k Hk.
      - apply (Hsame n A A' k EA EA'), I1, (Hsame (S n) B B' k EB EB'), Hk.
      - apply (Hsame (S n) B B' k EB EB'), I2, (Hsame n A A' k EA EA'), Hk. }
    apply (Lq n A' B' EA' EB') in T'. lia. }
  assert (Len : length (s_levels pg) = length (s_levels pg')).
  { destruct (Nat.lt_trichotomy (length (s_levels pg)) (length (s_levels pg')))
      as [H | [H | H]]; [exfalso | exact H | exfalso].
    - exact (Short pg pg' Hlev Hlev' Hlen Same H).
    - apply (Short pg' pg Hlev' Hlev Hlen'); [| exact H].
      intros l Sl Sl' k HSl HSl'. symmetry. exact (Same l Sl' Sl k HSl' HSl). }
  split; [exact Len |]. split; [exact Same |].
  destruct (h_levelsum_value o pg Hinv) as (G & Hnd & HG & ->).
  destruct (h_levelsum_value o' pg' Hinv') as (G' & Hnd' & HG' & ->).
  f_equal.
  assert (PG : Permutation G G').
  { apply NoDup_Permutation; [exact Hnd | exact Hnd' |].
    intros k. now rewrite HG, HG', Epb, Epb'. }
  transitivity (list_sum (map (cost_from 0 (map (skeys (heap pg')) (s_levels pg')))
                            G)).
  - f_equal. apply map_ext. intros k. unfold cost_from.
    rewrite (first_level_equiv (map (skeys (heap pg)) (s_levels pg))
               (map (skeys (heap pg')) (s_levels pg')) k); [reflexivity |].
    apply Forall2_nth; [now rewrite !length_map |].
    intros i a b Ha Hb x. rewrite nth_error_map in Ha, Hb.
    destruct (nth_error (s_levels pg) i) as [Sl |] eqn:E1; [| discriminate].
    destruct (nth_error (s_levels pg') i) as [Sl' |] eqn:E2; [| discriminate].
    inversion Ha; inversion Hb; subst. now apply (Same i).
  - clear - PG. induction PG; simpl; try lia.
Qed.

Lemma level_sum_order_independent_witness :
  length (s_levels cake_graph)
  = length (s_levels (unwrap (PlanningGraph_init reverse_order 10 cake
                                [true; false] true))) /\
  (forall l Sl Sl' k,
     nth_error (s_levels cake_graph) l = Some Sl ->
     nth_error (s_levels (unwrap (PlanningGraph_init reverse_order 10 cake
                                    [true; false] true))) l = Some Sl' ->
     (In k (skeys (heap cake_graph) Sl) <->
      In k (skeys (heap (unwrap (PlanningGraph_init reverse_order 10 cake
                                   [true; false] true))) Sl'))) /\
  h_levelsum insertion_order cake_graph
  = h_levelsum reverse_order
      (unwrap (PlanningGraph_init reverse_order 10 cake [true; false] true)).
Proof.
  apply (level_sum_order_independent insertion_order reverse_order 10 10 cake
           [true; false] true).
  - exact cake_catalog.
  - vm_compute. reflexivity.
  - vm_compute. reflexivity.
Defined.
